(** * The private intent lifecycle engine

    A shallow embedding of
    - [move/intent_registry/sources/intent_registry.move] (the on-chain
      registry of encrypted trading intents),
    - the trigger evaluation of the limit-order page ([fetchAllPrices]),
    - the mock encryption path of [src/lib/seal.ts],
    followed by the properties of the lifecycle that hold of that code. *)

From Stdlib Require Import NArith ZArith QArith Qcanon List Lia Bool.
From Stdlib.Strings Require Import Byte.
From Stdlib Require Import Ascii DecimalString.
From stdpp Require Import base option numbers list gmap fin_maps strings.

Local Open Scope N_scope.

(** ** Move execution model

    Move integers are unsigned and checked: [+] and [-] stop the
    transaction with an arithmetic error instead of wrapping, and
    [assert!(c, code)] stops it with an abort code.  A transaction that
    stops has no effect on the object store. *)
Module Move.

Definition u8 := N.
Definition u64 := N.
Definition address := N.
Definition ID := N.
Definition bytes := list byte.

Definition U64_MAX : u64 := 18446744073709551615.

Inductive failure :=
| MoveAbort (code : u64)
| ArithmeticError
| ObjectNotFound.

Inductive outcome (A : Type) :=
| Ok (a : A)
| Fail (f : failure).
Arguments Ok {A} a.
Arguments Fail {A} f.

#[global] Instance outcome_ret : MRet outcome := fun A a => Ok a.
#[global] Instance outcome_bind : MBind outcome := fun A B k m =>
  match m with
  | Ok a => k a
  | Fail f => Fail f
  end.

Definition is_ok {A} (m : outcome A) : bool :=
  match m with Ok _ => true | Fail _ => false end.

(** [assert!(c, code)] *)
Definition assert (c : bool) (code : u64) : outcome unit :=
  if c then Ok tt else Fail (MoveAbort code).

(** [x + y] on [u64] *)
Definition add (x y : u64) : outcome u64 :=
  if x + y <=? U64_MAX then Ok (x + y) else Fail ArithmeticError.

(** [x - y] on [u64] *)
Definition sub (x y : u64) : outcome u64 :=
  if y <=? x then Ok (x - y) else Fail ArithmeticError.

Record Clock := { timestamp_ms : u64 }.

(** The part of [TxContext] the module reads: the sender, and the
    counter from which [object::new] derives identifiers that were never
    used before. *)
Record TxContext := { sender : address; ids_created : ID }.

Definition object_new (ctx : TxContext) : ID * TxContext :=
  (ids_created ctx, {| sender := sender ctx; ids_created := ids_created ctx + 1 |}).

End Move.
Export Move.

(** ** [intent_registry::intent_registry] *)
Module IntentRegistry.

Definition STATUS_ACTIVE : u8 := 0.
Definition STATUS_EXECUTING : u8 := 1.
Definition STATUS_EXECUTED : u8 := 2.
Definition STATUS_CANCELLED : u8 := 3.
Definition STATUS_EXPIRED : u8 := 4.
Definition STATUS_FAILED : u8 := 5.

Definition TRIGGER_PRICE_BELOW : u8 := 0.
Definition TRIGGER_PRICE_ABOVE : u8 := 1.

Definition ENotOwner : u64 := 0.
Definition EInvalidStatus : u64 := 1.
Definition EIntentExpired : u64 := 2.
Definition EAlreadyExecuting : u64 := 3.
Definition EInvalidSignature : u64 := 4.
Definition EInvalidTriggerType : u64 := 5.

Record IntentRegistry := {
  registry_id : ID;
  total_intents : u64;
  active_intents : u64;
  executed_intents : u64;
}.

(** The field [id] of the source is [uid] here. *)
Record Intent := {
  uid : ID;
  owner : address;
  encrypted_data : bytes;
  created_at : u64;
  expires_at : u64;
  status : u8;
  trigger_type : u8;
  trigger_value : u64;
  pair_hash : bytes;
  executed_at : option u64;
  executed_price : option u64;
  tx_digest : option bytes;
}.

Record EnclaveCap := {
  cap_id : ID;
  enclave_pk : bytes;
}.

Inductive Event :=
| IntentCreated (intent_id : ID) (owner : address) (trigger_type : u8)
    (trigger_value : u64) (pair_hash : bytes) (expires_at : u64)
| IntentCancelled (intent_id : ID) (cancelled_at : u64)
| IntentExecuting (intent_id : ID) (timestamp : u64)
| IntentExecuted (intent_id : ID) (executed_at : u64) (executed_price : u64)
| IntentFailed (intent_id : ID) (failed_at : u64) (reason : bytes).

(** Field updates, written [intent.status = ...] in the source. *)
Definition set_status (s : u8) (i : Intent) : Intent :=
  {| uid := uid i; owner := owner i; encrypted_data := encrypted_data i;
     created_at := created_at i; expires_at := expires_at i; status := s;
     trigger_type := trigger_type i; trigger_value := trigger_value i;
     pair_hash := pair_hash i; executed_at := executed_at i;
     executed_price := executed_price i; tx_digest := tx_digest i |}.

Definition set_execution (at_ price : u64) (digest : bytes) (i : Intent) : Intent :=
  {| uid := uid i; owner := owner i; encrypted_data := encrypted_data i;
     created_at := created_at i; expires_at := expires_at i; status := status i;
     trigger_type := trigger_type i; trigger_value := trigger_value i;
     pair_hash := pair_hash i; executed_at := Some at_;
     executed_price := Some price; tx_digest := Some digest |}.

Definition set_total (n : u64) (r : IntentRegistry) : IntentRegistry :=
  {| registry_id := registry_id r; total_intents := n;
     active_intents := active_intents r; executed_intents := executed_intents r |}.

Definition set_active (n : u64) (r : IntentRegistry) : IntentRegistry :=
  {| registry_id := registry_id r; total_intents := total_intents r;
     active_intents := n; executed_intents := executed_intents r |}.

Definition set_executed (n : u64) (r : IntentRegistry) : IntentRegistry :=
  {| registry_id := registry_id r; total_intents := total_intents r;
     active_intents := active_intents r; executed_intents := n |}.

(** [fun init]: the registry that is then shared. *)
Definition init (ctx : TxContext) : IntentRegistry * TxContext :=
  let '(rid, ctx) := object_new ctx in
  ({| registry_id := rid; total_intents := 0; active_intents := 0;
      executed_intents := 0 |}, ctx).

(** [create_intent]: the updated registry, the intent that is shared, the
    event and the context. *)
Definition create_intent (registry : IntentRegistry) (encrypted_data : bytes)
    (trigger_type : u8) (trigger_value : u64) (pair_hash : bytes)
    (expires_at : u64) (clock : Clock) (ctx : TxContext)
  : outcome (IntentRegistry * Intent * Event * TxContext) :=
  let now := timestamp_ms clock in
  _ ← assert (now <? expires_at) EIntentExpired;
  _ ← assert (trigger_type <=? TRIGGER_PRICE_ABOVE) EInvalidTriggerType;
  let '(new_id, ctx') := object_new ctx in
  let intent :=
    {| uid := new_id; owner := sender ctx; encrypted_data := encrypted_data;
       created_at := now; expires_at := expires_at; status := STATUS_ACTIVE;
       trigger_type := trigger_type; trigger_value := trigger_value;
       pair_hash := pair_hash; executed_at := None; executed_price := None;
       tx_digest := None |} in
  let intent_id := uid intent in
  total ← add (total_intents registry) 1;
  let registry := set_total total registry in
  active ← add (active_intents registry) 1;
  let registry := set_active active registry in
  let ev := IntentCreated intent_id (sender ctx) trigger_type trigger_value
              pair_hash expires_at in
  mret (registry, intent, ev, ctx').

(** [cancel_intent] *)
Definition cancel_intent (registry : IntentRegistry) (intent : Intent)
    (clock : Clock) (ctx : TxContext)
  : outcome (IntentRegistry * Intent * Event) :=
  _ ← assert (sender ctx =? owner intent) ENotOwner;
  _ ← assert (status intent =? STATUS_ACTIVE) EInvalidStatus;
  let intent := set_status STATUS_CANCELLED intent in
  active ← sub (active_intents registry) 1;
  let registry := set_active active registry in
  mret (registry, intent, IntentCancelled (uid intent) (timestamp_ms clock)).

Definition get_status (intent : Intent) : u8 := status intent.
Definition get_owner (intent : Intent) : address := owner intent.
Definition is_active (intent : Intent) : bool := status intent =? STATUS_ACTIVE.
Definition is_expired (intent : Intent) (clock : Clock) : bool :=
  expires_at intent <=? timestamp_ms clock.
Definition get_stats (registry : IntentRegistry) : u64 * u64 * u64 :=
  (total_intents registry, active_intents registry, executed_intents registry).

(** [mark_executing] *)
Definition mark_executing (intent : Intent) (clock : Clock)
  : outcome (Intent * Event) :=
  let now := timestamp_ms clock in
  _ ← assert (status intent =? STATUS_ACTIVE) EAlreadyExecuting;
  _ ← assert (now <? expires_at intent) EIntentExpired;
  let intent := set_status STATUS_EXECUTING intent in
  mret (intent, IntentExecuting (uid intent) now).

(** [mark_executed] *)
Definition mark_executed (registry : IntentRegistry) (intent : Intent)
    (executed_price : u64) (tx_digest : bytes) (clock : Clock)
  : outcome (IntentRegistry * Intent * Event) :=
  _ ← assert (status intent =? STATUS_EXECUTING) EInvalidStatus;
  let now := timestamp_ms clock in
  let intent := set_status STATUS_EXECUTED intent in
  let intent := set_execution now executed_price tx_digest intent in
  active ← sub (active_intents registry) 1;
  let registry := set_active active registry in
  executed ← add (executed_intents registry) 1;
  let registry := set_executed executed registry in
  mret (registry, intent, IntentExecuted (uid intent) now executed_price).

(** [mark_failed] *)
Definition mark_failed (registry : IntentRegistry) (intent : Intent)
    (reason : bytes) (clock : Clock)
  : outcome (IntentRegistry * Intent * Event) :=
  _ ← assert (status intent =? STATUS_EXECUTING) EInvalidStatus;
  let intent := set_status STATUS_FAILED intent in
  active ← sub (active_intents registry) 1;
  let registry := set_active active registry in
  mret (registry, intent, IntentFailed (uid intent) (timestamp_ms clock) reason).

(** [reset_to_active] *)
Definition reset_to_active (intent : Intent) : outcome Intent :=
  _ ← assert (status intent =? STATUS_EXECUTING) EInvalidStatus;
  mret (set_status STATUS_ACTIVE intent).

(** [create_enclave_cap] *)
Definition create_enclave_cap (enclave_pk : bytes) (ctx : TxContext)
  : EnclaveCap * TxContext :=
  let '(cid, ctx') := object_new ctx in
  ({| cap_id := cid; enclave_pk := enclave_pk |}, ctx').

End IntentRegistry.

(** ** The object store and its transactions

    The registry and every intent are shared objects: any transaction may
    pass them by mutable reference to the public functions of the module.
    A transaction names its sender and reads the clock; a call whose
    function fails leaves the store as it was. *)
Module Ledger.
Import IntentRegistry.

Record World := {
  registry : IntentRegistry;
  intents : gmap ID Intent;
  (** the enclave capabilities, each with the address it was handed to *)
  caps : list (address * EnclaveCap);
  events : list Event;
  next_id : ID;
}.

Inductive Call :=
| CreateIntent (encrypted_data : bytes) (trigger_type : u8)
    (trigger_value : u64) (pair_hash : bytes) (expires_at : u64)
| CancelIntent (intent : ID)
| MarkExecuting (intent : ID)
| MarkExecuted (intent : ID) (executed_price : u64) (tx_digest : bytes)
| MarkFailed (intent : ID) (reason : bytes)
| ResetToActive (intent : ID)
| CreateEnclaveCap (enclave_pk : bytes).

Record Tx := { tx_sender : address; tx_clock : Clock; tx_call : Call }.

(** The store after the module is published: [init] has run once. *)
Definition genesis : World :=
  let '(r, ctx) := init {| sender := 0; ids_created := 0 |} in
  {| registry := r; intents := ∅; caps := []; events := [];
     next_id := ids_created ctx |}.

Definition borrow_intent (w : World) (iid : ID) : outcome Intent :=
  match intents w !! iid with
  | Some i => Ok i
  | None => Fail ObjectNotFound
  end.

(** The store after the intent borrowed under [iid] is given back, with the
    registry and the events of the call. *)
Definition commit (w : World) (iid : ID) (r : IntentRegistry) (i : Intent)
    (evs : list Event) : World :=
  {| registry := r; intents := <[iid := i]> (intents w); caps := caps w;
     events := events w ++ evs; next_id := next_id w |}.

Definition exec (w : World) (tx : Tx) : outcome World :=
  let ctx := {| sender := tx_sender tx; ids_created := next_id w |} in
  let clock := tx_clock tx in
  match tx_call tx with
  | CreateIntent data kind tv ph ex =>
      '(r, i, ev, ctx') ← create_intent (registry w) data kind tv ph ex clock ctx;
      mret {| registry := r; intents := <[uid i := i]> (intents w);
              caps := caps w; events := events w ++ [ev];
              next_id := ids_created ctx' |}
  | CancelIntent iid =>
      i ← borrow_intent w iid;
      '(r, i', ev) ← cancel_intent (registry w) i clock ctx;
      mret (commit w iid r i' [ev])
  | MarkExecuting iid =>
      i ← borrow_intent w iid;
      '(i', ev) ← mark_executing i clock;
      mret (commit w iid (registry w) i' [ev])
  | MarkExecuted iid price digest =>
      i ← borrow_intent w iid;
      '(r, i', ev) ← mark_executed (registry w) i price digest clock;
      mret (commit w iid r i' [ev])
  | MarkFailed iid reason =>
      i ← borrow_intent w iid;
      '(r, i', ev) ← mark_failed (registry w) i reason clock;
      mret (commit w iid r i' [ev])
  | ResetToActive iid =>
      i ← borrow_intent w iid;
      i' ← reset_to_active i;
      mret (commit w iid (registry w) i' [])
  | CreateEnclaveCap pk =>
      let '(cap, ctx') := create_enclave_cap pk ctx in
      mret {| registry := registry w; intents := intents w;
              caps := caps w ++ [(tx_sender tx, cap)]; events := events w;
              next_id := ids_created ctx' |}
  end.

Definition step (w : World) (tx : Tx) : World :=
  match exec w tx with
  | Ok w' => w'
  | Fail _ => w
  end.

Definition run (w : World) (txs : list Tx) : World := foldl step w txs.

Definition status_of (w : World) (iid : ID) : option u8 :=
  status <$> intents w !! iid.

(** An intent counts as active while it is Active or Executing. *)
Definition is_live (i : Intent) : bool :=
  (status i =? STATUS_ACTIVE) || (status i =? STATUS_EXECUTING).

Definition live_count (w : World) : N :=
  N.of_nat (size (filter (λ kv : ID * Intent, is_live kv.2 = true) (intents w))).

(** The moment of the last claim of an intent, as its event records it. *)
Fixpoint claimed_at (evs : list Event) (iid : ID) : option u64 :=
  match evs with
  | [] => None
  | ev :: evs =>
      match claimed_at evs iid with
      | Some t => Some t
      | None =>
          match ev with
          | IntentExecuting j t => if j =? iid then Some t else None
          | _ => None
          end
      end
  end.

(** The caller holds a capability of a registered enclave. *)
Definition holds_enclave_cap (w : World) (a : address) : bool :=
  existsb (λ c : address * EnclaveCap, c.1 =? a) (caps w).

(** *** The status graph and the properties of a store *)

(** The edges of the status graph: Active→Executing, Executing→Executed,
    Executing→Failed, Executing→Active, Active→Cancelled, Active→Expired. *)
Definition edge (s s' : u8) : bool :=
  ((s =? STATUS_ACTIVE) && (s' =? STATUS_EXECUTING))
  || ((s =? STATUS_EXECUTING) && (s' =? STATUS_EXECUTED))
  || ((s =? STATUS_EXECUTING) && (s' =? STATUS_FAILED))
  || ((s =? STATUS_EXECUTING) && (s' =? STATUS_ACTIVE))
  || ((s =? STATUS_ACTIVE) && (s' =? STATUS_CANCELLED))
  || ((s =? STATUS_ACTIVE) && (s' =? STATUS_EXPIRED)).

Definition terminal (s : u8) : bool :=
  (s =? STATUS_EXECUTED) || (s =? STATUS_CANCELLED) || (s =? STATUS_EXPIRED)
  || (s =? STATUS_FAILED).

(** What may follow an observation of the status of an identifier: the same
    status or an edge of the graph; an identifier not yet in use may become
    a new, Active intent. *)
Definition follows (a b : option u8) : bool :=
  match a, b with
  | Some s, Some s' => (s =? s') || edge s s'
  | None, Some s' => s' =? STATUS_ACTIVE
  | None, None => true
  | Some _, None => false
  end.

Fixpoint linked {A} (R : A → A → bool) (l : list A) : bool :=
  match l with
  | a :: (b :: _) as l' => R a b && linked R l'
  | _ => true
  end.

(** The statuses of an identifier observed before and after each
    transaction of a sequence. *)
Fixpoint statuses (w : World) (txs : list Tx) (iid : ID) : list (option u8) :=
  status_of w iid ::
  match txs with
  | [] => []
  | tx :: txs => statuses (step w tx) txs iid
  end.

(** Every intent is stored under its own identifier, and identifiers still
    to be handed out are not in use. *)
Definition keys_ok (w : World) : Prop :=
  ∀ k i, intents w !! k = Some i → uid i = k ∧ k < next_id w.

Definition counted (w : World) : Prop :=
  active_intents (registry w) = live_count w.

Definition execution_populated (i : Intent) : bool :=
  bool_decide (is_Some (executed_at i)) && bool_decide (is_Some (executed_price i))
  && bool_decide (is_Some (tx_digest i)).

Definition execution_empty (i : Intent) : bool :=
  bool_decide (executed_at i = None) && bool_decide (executed_price i = None)
  && bool_decide (tx_digest i = None).

(** The execution fields are set exactly on the executed intents. *)
Definition execution_recorded (w : World) : Prop :=
  ∀ k i, intents w !! k = Some i →
    if status i =? STATUS_EXECUTED then execution_populated i = true
    else execution_empty i = true.

(** The counters never exceed what was created. *)
Definition bounded (w : World) : Prop :=
  executed_intents (registry w) + active_intents (registry w)
    ≤ total_intents (registry w)
  ∧ total_intents (registry w) ≤ U64_MAX.

Definition privileged (c : Call) : bool :=
  match c with
  | MarkExecuting _ | MarkExecuted _ _ _ | MarkFailed _ _ => true
  | _ => false
  end.

(** The call finalizes or recovers the intent [iid]. *)
Definition releases (iid : ID) (c : Call) : bool :=
  match c with
  | MarkExecuted j _ _ | MarkFailed j _ | ResetToActive j => j =? iid
  | _ => false
  end.

Definition failed_with {A} (m : outcome A) (code : u64) : bool :=
  match m with
  | Fail (MoveAbort c) => c =? code
  | _ => false
  end.

End Ledger.

(** ** A concrete run of the registry *)
Module Scenario.
Import IntentRegistry Ledger.

Definition alice : address := 10.
Definition enclave : address := 20.
Definition mallory : address := 30.

Definition at_ms (t : u64) : Clock := {| timestamp_ms := t |}.

Definition tx (a : address) (t : u64) (c : Call) : Tx :=
  {| tx_sender := a; tx_clock := at_ms t; tx_call := c |}.

(** The enclave is handed its capability (object 1) and alice creates an
    intent (object 2) that expires at 5000. *)
Definition setup : list Tx :=
  [ tx enclave 1000 (CreateEnclaveCap ["001"%byte; "002"%byte]);
    tx alice 1000 (CreateIntent ["170"%byte] TRIGGER_PRICE_BELOW 100 [] 5000) ].

Definition created : World := run genesis setup.

(** The intent is claimed at 2000. *)
Definition claimed : World := step created (tx enclave 2000 (MarkExecuting 2)).

(** A stuck threshold of one minute. *)
Definition stuck_threshold : u64 := 60000.

End Scenario.

(** ** JavaScript numbers

    A number is a double: not-a-number, an infinity, or a finite value,
    which is the rational it denotes ([-0] and [0] are the same rational and
    compare and test alike).  Comparisons with [NaN] are false. *)
Module JS.

Inductive number :=
| NaN
| NegInfinity
| Finite (q : Qc)
| PosInfinity.

(** [a <= b] *)
Definition le (a b : number) : bool :=
  match a, b with
  | NaN, _ | _, NaN => false
  | NegInfinity, _ => true
  | _, PosInfinity => true
  | Finite x, Finite y => bool_decide (x ≤ y)%Qc
  | _, _ => false
  end.

(** [a >= b] *)
Definition ge (a b : number) : bool := le b a.


(** Truthiness of a number, as [!x] tests it: [0] and [NaN] are falsy. *)
Definition truthy (a : number) : bool :=
  match a with
  | NaN => false
  | Finite q => negb (bool_decide (q = 0%Qc))
  | _ => true
  end.

Definition of_Z (z : Z) : number := Finite (Qc_of_Z z).

End JS.

(** ** The limit-order page: [fetchAllPrices] and [createOrder] *)
Module LimitOrders.
Import JS.

Inductive Side := buy | sell.
Inductive OrderType := limit | stop_loss | take_profit.
Inductive OrderStatus := pending | triggered | cancelled | filled.

(** [interface LimitOrder]; the field [id] is [order_id], dates are
    milliseconds. *)
Record LimitOrder := {
  order_id : string;
  pair : string;
  side : Side;
  type : OrderType;
  triggerPrice : number;
  quantity : number;
  status : OrderStatus;
  createdAt : N;
  triggeredAt : option N;
}.

(** The [switch (order.type)] that computes [shouldTrigger]. *)
Definition shouldTrigger (order : LimitOrder) (currentPrice : number) : bool :=
  match type order with
  | limit =>
      match side order with
      | buy => le currentPrice (triggerPrice order)
      | sell => ge currentPrice (triggerPrice order)
      end
  | stop_loss =>
      match side order with
      | sell => le currentPrice (triggerPrice order)
      | buy => ge currentPrice (triggerPrice order)
      end
  | take_profit =>
      match side order with
      | sell => ge currentPrice (triggerPrice order)
      | buy => le currentPrice (triggerPrice order)
      end
  end.

(** The callback of [prev.map] in [fetchAllPrices]; [now] is the value of
    [new Date()].  The log line it adds is not part of the order. *)
Definition check_order (newPrices : gmap string number) (now : N)
    (order : LimitOrder) : LimitOrder :=
  match status order with
  | pending =>
      match newPrices !! pair order with
      | None => order
      | Some currentPrice =>
          if negb (truthy currentPrice) then order
          else if shouldTrigger order currentPrice then
            {| order_id := order_id order; pair := pair order;
               side := side order; type := type order;
               triggerPrice := triggerPrice order;
               quantity := quantity order; status := triggered;
               createdAt := createdAt order; triggeredAt := Some now |}
          else order
      end
  | _ => order
  end.

Definition check_orders (newPrices : gmap string number) (now : N)
    (orders : list LimitOrder) : list LimitOrder :=
  map (check_order newPrices now) orders.

(** The two trigger types of an intent, [price_below] (0) and [price_above]
    (1). *)
Inductive TriggerKind := PriceBelow | PriceAbove.

#[global] Instance OrderType_eq_dec : EqDecision OrderType.
Proof. solve_decision. Defined.
#[global] Instance Side_eq_dec : EqDecision Side.
Proof. solve_decision. Defined.

(** The trigger type [createOrder] computes for the order it is about to
    make:
    [orderType === "stop-loss" || (orderType === "limit" && side === "buy")
       ? 0 // price_below
       : 1 // price_above]. *)
Definition triggerType (orderType : OrderType) (side : Side) : TriggerKind :=
  if bool_decide (orderType = stop_loss)
     || (bool_decide (orderType = limit) && bool_decide (side = buy))
  then PriceBelow
  else PriceAbove.


(** A buy limit and a sell limit on SUI_USDC at 5, and price tables. *)
Definition sample_order (s : Side) : LimitOrder :=
  {| order_id := "order_1"; pair := "SUI_USDC"; side := s; type := limit;
     triggerPrice := of_Z 5; quantity := of_Z 1; status := pending;
     createdAt := 1000; triggeredAt := None |}.




End LimitOrders.

(** ** [src/lib/seal.ts]: the mock encryption path *)
Module Seal.
Import JS.
Local Open Scope string_scope.

(** *** Bytes and typed arrays *)

(** [a ^ b] on two elements of a [Uint8Array], bit by bit. *)
Definition byte_xor (a b : byte) : byte :=
  let '(a0, (a1, (a2, (a3, (a4, (a5, (a6, a7))))))) := Byte.to_bits a in
  let '(b0, (b1, (b2, (b3, (b4, (b5, (b6, b7))))))) := Byte.to_bits b in
  Byte.of_bits
    (xorb a0 b0, (xorb a1 b1, (xorb a2 b2, (xorb a3 b3,
    (xorb a4 b4, (xorb a5 b5, (xorb a6 b6, xorb a7 b7))))))).

(** [xorCipher]: [result[i] = data[i] ^ key[i % key.length]].  With an
    empty key the index is [NaN], the element read is [undefined] and the
    xor leaves [data[i]] as it is. *)
Definition xorCipher (data key : list byte) : list byte :=
  imap (λ i d,
          match key !! (i mod length key)%nat with
          | Some k => byte_xor d k
          | None => d
          end) data.

(** The byte a typed array keeps of an integer. *)
Definition byte_of_N (n : N) : byte :=
  default "000"%byte (Byte.of_N (n mod 256)).

(** [new DataView(buf).setUint32(0, n, true)] on a buffer of four bytes. *)
Definition setUint32_le (n : N) : list byte :=
  [ byte_of_N n; byte_of_N (n / 256); byte_of_N (n / 65536);
    byte_of_N (n / 16777216) ].

(** [new DataView(buf).getUint32(0, true)]; a buffer shorter than four
    bytes raises a [RangeError]. *)
Definition getUint32_le (buf : list byte) : option N :=
  match buf with
  | b0 :: b1 :: b2 :: b3 :: _ =>
      Some (Byte.to_N b0 + 256 * Byte.to_N b1 + 65536 * Byte.to_N b2
            + 16777216 * Byte.to_N b3)%N
  | _ => None
  end.

(** *** Values that go through [JSON] *)

#[warnings="-register-all"] Inductive json :=
| JNull
| JBool (b : bool)
| JNumber (n : number)
| JString (s : string)
| JObject (fields : list (string * json)).

(** [o[k]] on the own properties of an object. *)
Fixpoint get_field (k : string) (fs : list (string * json)) : option json :=
  match fs with
  | [] => None
  | (k', v) :: fs => if String.eqb k' k then Some v else get_field k fs
  end.

(** [o[k] = v]: an existing property keeps its place. *)
Fixpoint set_field (k : string) (v : json) (fs : list (string * json))
  : list (string * json) :=
  match fs with
  | [] => [(k, v)]
  | (k', v') :: fs =>
      if String.eqb k' k then (k, v) :: fs else (k', v') :: set_field k v fs
  end.

Definition prop (k : string) (o : json) : option json :=
  match o with
  | JObject fs => get_field k fs
  | _ => None
  end.

(** *** Types of the module *)

Inductive TriggerType := price_below | price_above.
Inductive OrderType := market | limit.
Inductive Side := buy | sell.
Inductive Network := testnet | mainnet.
Inductive EncryptionMethod := seal | mock.

Record IntentData := {
  intentId : string;
  pair : string;
  triggerType : TriggerType;
  triggerValue : number;
  orderType : OrderType;
  side : Side;
  quantity : number;
  leverage : option number;
  slippageBps : number;
  expiresAt : number;
}.

Record SealConfig := {
  network : Network;
  policyPackageId : string;
  enclaveConfigId : string;
  threshold : option number;
}.

Record ResultMetadata := {
  md_pair : string;
  md_triggerType : TriggerType;
  md_triggerValue : number;
  md_expiresAt : number;
}.

Record Verification := {
  isRealEncryption : bool;
  encryptionMethod : EncryptionMethod;
  v_threshold : number;
  keyServerCount : nat;
  packageId : string;
  encryptedSize : nat;
  timestamp : N;
}.

Record EncryptedIntentResult := {
  encryptedBytes : list byte;
  r_intentId : string;
  backupKey : option (list byte);
  metadata : ResultMetadata;
  verification : Verification;
}.

Definition SEAL_KEY_SERVERS (n : Network) : list string :=
  match n with
  | testnet =>
      [ "0x73d05d62c18d9374e3ea529e8e0ed6161da1a141a94d3f76ae3fe4e99356db75";
        "0xf5d14a81a982144ae441cd7d64b09027f116a468bd36e7eca494f750591623c8";
        "0x6068c0acb197dddbacd4746a9de7f025b2ed5a5b6c1b1ab44dade4426d141da2" ]
  | mainnet => []
  end.

(** [config.threshold || 2] *)
Definition threshold_or_2 (config : SealConfig) : number :=
  match threshold config with
  | Some t => if truthy t then t else of_Z 2
  | None => of_Z 2
  end.

Definition json_of_TriggerType (t : TriggerType) : json :=
  JString (match t with price_below => "price_below" | price_above => "price_above" end).
Definition json_of_OrderType (t : OrderType) : json :=
  JString (match t with market => "market" | limit => "limit" end).
Definition json_of_Side (s : Side) : json :=
  JString (match s with buy => "buy" | sell => "sell" end).

(** The own properties of an [IntentData] object; [leverage] is there
    only when it is given. *)
Definition intent_fields (x : IntentData) : list (string * json) :=
  [ ("intentId", JString (intentId x)); ("pair", JString (pair x));
    ("triggerType", json_of_TriggerType (triggerType x));
    ("triggerValue", JNumber (triggerValue x));
    ("orderType", json_of_OrderType (orderType x));
    ("side", json_of_Side (side x));
    ("quantity", JNumber (quantity x)) ]
  ++ match leverage x with
     | Some l => [("leverage", JNumber l)]
     | None => []
     end
  ++ [ ("slippageBps", JNumber (slippageBps x));
       ("expiresAt", JNumber (expiresAt x)) ].

(** [{ ...intent, version: 1, createdAt: Date.now() }] *)
Definition payload (intent : IntentData) (now : N) : json :=
  JObject (set_field "createdAt" (JNumber (of_Z (Z.of_N now)))
             (set_field "version" (JNumber (of_Z 1)) (intent_fields intent))).

(** The functions of the platform the module calls, and the results of
    [Date.now()] and of the random generator, are inputs. *)
Section Platform.
Variable JSON_stringify : json → string.
Variable JSON_parse : string → option json.
Variable TextEncoder_encode : string → list byte.
Variable TextDecoder_decode : list byte → string.

(** The metadata of the envelope. *)
Definition envelope_metadata (intentId : string) (config : SealConfig)
    (now : N) : list byte :=
  TextEncoder_encode (JSON_stringify (JObject
    [ ("version", JNumber (of_Z 1)); ("intentId", JString intentId);
      ("packageId", JString (policyPackageId config));
      ("threshold", JNumber (threshold_or_2 config));
      ("keyServers",
        JNumber (of_Z (Z.of_nat (length (SEAL_KEY_SERVERS (network config))))));
      ("timestamp", JNumber (of_Z (Z.of_N now)));
      ("mock", JBool true) ])).

(** [createMockEncryptedObject]; [key] is what [generateMockKey]
    returned.  Structure: four bytes of metadata length, the metadata,
    the ciphertext. *)
Definition createMockEncryptedObject (plaintext : list byte)
    (intentId : string) (config : SealConfig) (key : list byte) (now : N)
  : list byte * list byte :=
  let ciphertext := xorCipher plaintext key in
  let metadata := envelope_metadata intentId config now in
  let metadataLength := setUint32_le (N.of_nat (length metadata)) in
  let envelope := (metadataLength ++ metadata ++ ciphertext)%list in
  (envelope, key).

(** [encryptIntentMock]; [now1], [now2], [now3] are the three readings
    of [Date.now()], in the order they are taken. *)
Definition encryptIntentMock (intent : IntentData) (config : SealConfig)
    (key : list byte) (now1 now2 now3 : N) : EncryptedIntentResult :=
  let intentJson := JSON_stringify (payload intent now1) in
  let plaintext := TextEncoder_encode intentJson in
  let '(encrypted, key) :=
    createMockEncryptedObject plaintext (intentId intent) config key now2 in
  {| encryptedBytes := encrypted;
     r_intentId := intentId intent;
     backupKey := Some key;
     metadata :=
       {| md_pair := pair intent; md_triggerType := triggerType intent;
          md_triggerValue := triggerValue intent;
          md_expiresAt := expiresAt intent |};
     verification :=
       {| isRealEncryption := false; encryptionMethod := mock;
          v_threshold := threshold_or_2 config;
          keyServerCount := length (SEAL_KEY_SERVERS (network config));
          packageId := policyPackageId config;
          encryptedSize := length encrypted;
          timestamp := now3 |} |}.

(** [decryptMockIntent]: [None] is the [null] of the [catch].  [encrypted]
    is an array of its own, as the one [encryptIntentMock] returns: its bytes
    are those of its buffer, which [new DataView(encrypted.buffer)] reads
    from the start.  [TypedArrays.decryptMockIntent] is the function on an
    array that is a window of a larger buffer. *)
Definition decryptMockIntent (encrypted key : list byte) : option json :=
  metadataLength ← getUint32_le encrypted;
  let ciphertext := drop (4 + N.to_nat metadataLength) encrypted in
  let plaintext := xorCipher ciphertext key in
  let json := TextDecoder_decode plaintext in
  JSON_parse json.

(** What the module relies on for a value [v]: [JSON.parse] gives back what
    [JSON.stringify] printed, through [TextEncoder] and [TextDecoder].  The
    platform grants it for every object of strings, booleans and finite
    numbers; [NaN] and the infinities are printed as [null]. *)
Definition platform_roundtrips (v : json) : Prop :=
  JSON_parse (TextDecoder_decode (TextEncoder_encode (JSON_stringify v))) = Some v.

End Platform.

End Seal.

(** ** A small JSON printer and parser

    Enough of [JSON.stringify] and [JSON.parse] to run the module on an
    example: flat objects of booleans, integers and strings without quotes
    or escapes, on ASCII text, which UTF-8 encodes byte for byte. *)
Module MiniJson.
Import JS Seal.
Local Open Scope string_scope.

Definition quote : Ascii.ascii := "034"%char.
Definition quoted (s : string) : string := String quote (s ++ String quote "").

Definition print_number (n : number) : string :=
  match n with
  | Finite q =>
      if decide (Qden q = 1%positive)
      then NilZero.string_of_int (Z.to_int (Qnum q))
      else "null"
  | _ => "null"
  end.

Fixpoint stringify (v : json) : string :=
  match v with
  | JNull => "null"
  | JBool true => "true"
  | JBool false => "false"
  | JNumber n => print_number n
  | JString s => quoted s
  | JObject fs =>
      "{" ++
      (fix fields (fs : list (string * json)) : string :=
         match fs with
         | [] => ""
         | [(k, v)] => quoted k ++ ":" ++ stringify v
         | (k, v) :: fs => quoted k ++ ":" ++ stringify v ++ "," ++ fields fs
         end) fs
      ++ "}"
  end.

(** The text before the first [c], and the text after it. *)
Fixpoint until (c : Ascii.ascii) (s : string) : option (string * string) :=
  match s with
  | EmptyString => None
  | String a s' =>
      if Ascii.eqb a c then Some ("", s')
      else '(b, r) ← until c s'; Some (String a b, r)
  end.

(** The text before the first [,] or [}], and the text from there on. *)
Fixpoint literal (s : string) : string * string :=
  match s with
  | EmptyString => ("", "")
  | String a s' =>
      if Ascii.eqb a "," || Ascii.eqb a "}" then ("", s)
      else let '(b, r) := literal s' in (String a b, r)
  end.

Definition parse_literal (s : string) : option json :=
  if String.eqb s "null" then Some JNull
  else if String.eqb s "true" then Some (JBool true)
  else if String.eqb s "false" then Some (JBool false)
  else z ← NilZero.int_of_string s; Some (JNumber (of_Z (Z.of_int z))).

Definition parse_value (s : string) : option (json * string) :=
  match s with
  | EmptyString => None
  | String a s' =>
      if Ascii.eqb a quote then '(v, r) ← until quote s'; Some (JString v, r)
      else let '(l, r) := literal s in v ← parse_literal l; Some (v, r)
  end.

Fixpoint parse_fields (fuel : nat) (s : string) : option (list (string * json)) :=
  match fuel with
  | O => None
  | S fuel =>
      match s with
      | String q s1 =>
          if Ascii.eqb q quote then
            '(k, r) ← until quote s1;
            match r with
            | String ":" r1 =>
                '(v, r2) ← parse_value r1;
                match r2 with
                | String "," r3 => fs ← parse_fields fuel r3; Some ((k, v) :: fs)
                | String "}" EmptyString => Some [(k, v)]
                | _ => None
                end
            | _ => None
            end
          else None
      | EmptyString => None
      end
  end.

Definition parse (s : string) : option json :=
  match s with
  | String "{" s' =>
      if String.eqb s' "}" then Some (JObject [])
      else JObject <$> parse_fields (String.length s) s'
  | _ => None
  end.

Definition encode (s : string) : list byte := String.list_byte_of_string s.
Definition decode (b : list byte) : string := String.string_of_list_byte b.

(** An intent, a configuration and a key of thirty-two bytes. *)
Definition sample_intent : IntentData :=
  {| intentId := "intent_lx2k9_a1b2c3d4"; pair := "SUI_USDC";
     triggerType := price_below; triggerValue := of_Z 100;
     orderType := market; side := buy; quantity := of_Z 2;
     leverage := None; slippageBps := of_Z 50; expiresAt := of_Z 1700000000 |}.

Definition sample_config : SealConfig :=
  {| network := testnet; policyPackageId := "0x0"; enclaveConfigId := "0x0";
     threshold := Some (of_Z 2) |}.

Definition sample_key : list byte :=
  map (λ n : nat, byte_of_N (N.of_nat (7 * n + 3))) (seq 0 32).

End MiniJson.

(** ** The census of a store and of its event log *)
Module Accounting.
Import IntentRegistry Ledger.

(** The number of stored intents with the status [s]. *)
Definition count_status (s : u8) (w : World) : N :=
  N.of_nat (size (filter (λ kv : ID * Intent, (status kv.2 =? s) = true) (intents w))).

Inductive EventKind := Created | Cancelled | Executing | Executed | Failed.

#[global] Instance EventKind_eq_dec : EqDecision EventKind.
Proof. solve_decision. Defined.

Definition event_kind (ev : Event) : EventKind :=
  match ev with
  | IntentCreated _ _ _ _ _ _ => Created
  | IntentCancelled _ _ => Cancelled
  | IntentExecuting _ _ => Executing
  | IntentExecuted _ _ _ => Executed
  | IntentFailed _ _ _ => Failed
  end.

Definition event_intent (ev : Event) : ID :=
  match ev with
  | IntentCreated j _ _ _ _ _ | IntentCancelled j _ | IntentExecuting j _
  | IntentExecuted j _ _ | IntentFailed j _ _ => j
  end.

(** The number of events of the kind [k] emitted so far. *)
Definition count_events (k : EventKind) (w : World) : N :=
  N.of_nat (length (filter (λ ev, event_kind ev = k) (events w))).

(** The fields of an intent that no function of the module assigns. *)
Definition same_terms (i j : Intent) : Prop :=
  uid i = uid j ∧ owner i = owner j ∧ encrypted_data i = encrypted_data j
  ∧ created_at i = created_at j ∧ expires_at i = expires_at j
  ∧ trigger_type i = trigger_type j ∧ trigger_value i = trigger_value j
  ∧ pair_hash i = pair_hash j.

(** The statuses the module assigns. *)
Definition assigned_status (s : u8) : bool :=
  (s =? STATUS_ACTIVE) || (s =? STATUS_EXECUTING) || (s =? STATUS_EXECUTED)
  || (s =? STATUS_CANCELLED) || (s =? STATUS_FAILED).

(** The transaction is the cancellation of [iid] by [a]. *)
Definition cancels (iid : ID) (a : address) (t : Tx) : bool :=
  match tx_call t with
  | CancelIntent j => (j =? iid) && (tx_sender t =? a)
  | _ => false
  end.

(** Two stores that differ at most in the enclave capabilities. *)
Definition same_but_caps (w1 w2 : World) : Prop :=
  registry w1 = registry w2 ∧ intents w1 = intents w2
  ∧ events w1 = events w2 ∧ next_id w1 = next_id w2.

(** The counters of the registry against the store. *)
Definition census (w : World) : Prop :=
  total_intents (registry w) = N.of_nat (size (intents w))
  ∧ executed_intents (registry w) = count_status STATUS_EXECUTED w
  ∧ total_intents (registry w)
    = active_intents (registry w) + executed_intents (registry w)
      + count_status STATUS_CANCELLED w + count_status STATUS_FAILED w.

(** The counters of the registry against the event log. *)
Definition event_census (w : World) : Prop :=
  total_intents (registry w) = count_events Created w
  ∧ executed_intents (registry w) = count_events Executed w
  ∧ count_events Created w
    = active_intents (registry w) + count_events Cancelled w
      + count_events Executed w + count_events Failed w.

Definition statuses_assigned (w : World) : Prop :=
  ∀ k i, intents w !! k = Some i → assigned_status (status i) = true.

(** The events a successful call emits in the store [w]. *)
Definition emitted (w : World) (t : Tx) : list Event :=
  let now := timestamp_ms (tx_clock t) in
  match tx_call t with
  | CreateIntent _ kind tv ph ex =>
      [IntentCreated (next_id w) (tx_sender t) kind tv ph ex]
  | CancelIntent j => [IntentCancelled j now]
  | MarkExecuting j => [IntentExecuting j now]
  | MarkExecuted j price _ => [IntentExecuted j now price]
  | MarkFailed j reason => [IntentFailed j now reason]
  | ResetToActive _ | CreateEnclaveCap _ => []
  end.

(** The call stopped on an addition or a subtraction that left [u64]. *)
Definition arithmetic_failure {A} (m : outcome A) : bool :=
  match m with
  | Fail ArithmeticError => true
  | _ => false
  end.

Definition is_create (c : Call) : bool :=
  match c with
  | CreateIntent _ _ _ _ _ => true
  | _ => false
  end.

End Accounting.

(** ** [seal_policy::intent]: the approval of a decryption request *)
Module SealPolicy.
Import Seal.

#[global] Instance byte_eq_dec : EqDecision byte := Byte.byte_eq_dec.

Definition EInvalidId : u64 := 0.
Definition EInvalidSignature : u64 := 1.
Definition ESenderMismatch : u64 := 2.
Definition ETimestampExpired : u64 := 3.

Record EnclaveConfig := {
  config_id : ID;
  enclave_pk : bytes;
  name : bytes;
  pcr0 : bytes;
}.

Inductive Event :=
| EnclaveRegistered (config_id : ID) (enclave_pk : bytes)
| SealApproved (intent_id : bytes) (timestamp : u64).

(** [(x as u8)] on a value that was masked with [0xff]; the cast of a larger
    value would stop the transaction. *)
Definition as_u8 (x : u64) : byte := byte_of_N x.

(** The loop of [seal_approve]:
    [while (i < 8) { push_back(&mut message, ((ts & 0xff) as u8));
                     ts = ts >> 8; i = i + 1 }]. *)
Fixpoint append_timestamp (fuel : nat) (message : bytes) (ts i : u64) : bytes :=
  match fuel with
  | O => message
  | S fuel =>
      if i <? 8 then
        append_timestamp fuel (message ++ [as_u8 (N.land ts 255)])
          (N.shiftr ts 8) (i + 1)
      else message
  end.

(** The message the enclave signs: [id || timestamp], the timestamp as
    eight bytes, little-endian.  Nine rounds of fuel: the ninth finds
    [i = 8] and leaves the loop. *)
Definition signed_message (id : bytes) (timestamp : u64) : bytes :=
  let message := [] ++ id in
  append_timestamp 9 message timestamp 0.

(** The number a sequence of bytes denotes, the first byte the lowest. *)
Definition le_decode (bs : bytes) : N :=
  foldr (λ b acc, Byte.to_N b + 256 * acc) 0 bs.

Section Native.
(** [sui::ed25519::ed25519_verify(signature, public_key, msg)] *)
Variable ed25519_verify : bytes → bytes → bytes → bool.

(** [seal_approve]: [Ok] is the approval the key servers look for. *)
Definition seal_approve (id : bytes) (enclave_config : EnclaveConfig)
    (signature wallet_pk : bytes) (timestamp : u64) (ctx : TxContext)
  : outcome unit :=
  _ ← assert (0 <? N.of_nat (length id)) EInvalidId;
  _ ← assert (bool_decide (wallet_pk = enclave_pk enclave_config)) ESenderMismatch;
  let message := signed_message id timestamp in
  let is_valid := ed25519_verify signature (enclave_pk enclave_config) message in
  _ ← assert is_valid EInvalidSignature;
  mret tt.

End Native.

(** [register_enclave] *)
Definition register_enclave (enclave_pk name pcr0 : bytes) (ctx : TxContext)
  : EnclaveConfig * Event * TxContext :=
  let '(cid, ctx') := object_new ctx in
  let config := {| config_id := cid; enclave_pk := enclave_pk; name := name;
                   pcr0 := pcr0 |} in
  (config, EnclaveRegistered (config_id config) enclave_pk, ctx').

Definition get_enclave_pk (config : EnclaveConfig) : bytes := enclave_pk config.

End SealPolicy.

(** ** [src/lib/seal.ts]: the entry point and the verification functions *)
Module SealVerify.
Import JS Seal.
Local Open Scope string_scope.

(** [arr.slice(start, stop)] on a typed array, for indices that are not
    negative: the elements from [start] up to [stop], as many as there
    are. *)
Definition slice (start stop : nat) (arr : list byte) : list byte :=
  take (stop - start) (drop start arr).

(** Truthiness of a value, as [||] tests it. *)
Definition truthy_value (v : json) : bool :=
  match v with
  | JNull => false
  | JBool b => b
  | JNumber n => truthy n
  | JString s => negb (String.eqb s "")
  | JObject _ => true
  end.

(** [metadata.k]: on [null] the access raises a [TypeError] (the outer
    [None]); on a value that has no such property it gives [undefined]
    (the inner [None]). *)
Definition member (k : string) (metadata : json) : option (option json) :=
  match metadata with
  | JNull => None
  | _ => Some (prop k metadata)
  end.

(** [v || d] *)
Definition or_default (v : option json) (d : json) : json :=
  match v with
  | Some x => if truthy_value x then x else d
  | None => d
  end.

(** [typeof v === 'number'] and [typeof v === 'string'] *)
Definition typeof_number (v : option json) : bool :=
  match v with Some (JNumber _) => true | _ => false end.
Definition typeof_string (v : option json) : bool :=
  match v with Some (JString _) => true | _ => false end.

(** [interface EncryptedObjectInfo]; the fields [id], [packageId] and
    [threshold] hold whatever value the metadata gave. *)
Record EncryptedObjectInfo := {
  info_id : json;
  info_packageId : json;
  info_threshold : json;
  services : list (json * json);
  ciphertextLength : Z;
}.

(** The metadata object [createMockEncryptedObject] serializes. *)
Definition envelope_metadata_object (intentId : string) (config : SealConfig)
    (now : N) : json :=
  JObject
    [ ("version", JNumber (of_Z 1)); ("intentId", JString intentId);
      ("packageId", JString (policyPackageId config));
      ("threshold", JNumber (threshold_or_2 config));
      ("keyServers",
        JNumber (of_Z (Z.of_nat (length (SEAL_KEY_SERVERS (network config))))));
      ("timestamp", JNumber (of_Z (Z.of_N now)));
      ("mock", JBool true) ].

(** The layout [createMockEncryptedObject] writes: four bytes of metadata
    length, the metadata, the ciphertext. *)
Definition envelope (metadata ciphertext : list byte) : list byte :=
  (setUint32_le (N.of_nat (length metadata)) ++ metadata ++ ciphertext)%list.

(** The variables of the environment the module reads, and whether there
    is a [window].  [NEXT_PUBLIC_SUI_NETWORK], when it is set, names one of
    the two networks, as the cast in [getDefaultSealConfig] takes it to. *)
Record Env := {
  NEXT_PUBLIC_SEAL_POLICY_PACKAGE_ID : option string;
  NEXT_PUBLIC_ENCLAVE_CONFIG_ID : option string;
  NEXT_PUBLIC_SUI_NETWORK : option Network;
  window : bool;
}.

(** [process.env.X || d] *)
Definition env_or (v : option string) (d : string) : string :=
  match v with
  | Some s => if String.eqb s "" then d else s
  | None => d
  end.

Definition SEAL_POLICY_PACKAGE_ID (env : Env) : string :=
  env_or (NEXT_PUBLIC_SEAL_POLICY_PACKAGE_ID env) "0x0".
Definition ENCLAVE_CONFIG_ID (env : Env) : string :=
  env_or (NEXT_PUBLIC_ENCLAVE_CONFIG_ID env) "0x0".

Definition USE_REAL_SEAL (env : Env) : bool :=
  negb (String.eqb (SEAL_POLICY_PACKAGE_ID env) "0x0")
  && negb (String.eqb (SEAL_POLICY_PACKAGE_ID env) "")
  && window env.

Definition getDefaultSealConfig (env : Env) : SealConfig :=
  {| network := default testnet (NEXT_PUBLIC_SUI_NETWORK env);
     policyPackageId := SEAL_POLICY_PACKAGE_ID env;
     enclaveConfigId := ENCLAVE_CONFIG_ID env;
     threshold := Some (of_Z 2) |}.

Section Platform.
Variable JSON_stringify : json → string.
Variable JSON_parse : string → option json.
Variable TextEncoder_encode : string → list byte.
Variable TextDecoder_decode : list byte → string.

(** [encryptIntentReal]: a warning on the console, then the mock
    encryption. *)
Definition encryptIntentReal (intent : IntentData) (config : SealConfig)
    (key : list byte) (now1 now2 now3 : N) : EncryptedIntentResult :=
  encryptIntentMock JSON_stringify TextEncoder_encode intent config key
    now1 now2 now3.

(** [encryptIntent]; the [catch] around [encryptIntentReal] calls
    [encryptIntentMock] as well. *)
Definition encryptIntent (env : Env) (intent : IntentData)
    (config : option SealConfig) (key : list byte) (now1 now2 now3 : N)
  : EncryptedIntentResult :=
  let effectiveConfig :=
    match config with
    | Some c => c
    | None => getDefaultSealConfig env
    end in
  if USE_REAL_SEAL env
     && negb (String.eqb (policyPackageId effectiveConfig) "0x0")
  then encryptIntentReal intent effectiveConfig key now1 now2 now3
  else encryptIntentMock JSON_stringify TextEncoder_encode intent
         effectiveConfig key now1 now2 now3.

(** [parseEncryptedObject]: [None] is the [null] of the [catch]. *)
Definition parseEncryptedObject (encrypted : list byte)
  : option EncryptedObjectInfo :=
  metadataLength ← getUint32_le encrypted;
  let metadataBytes := slice 4 (4 + N.to_nat metadataLength) encrypted in
  metadata ← JSON_parse (TextDecoder_decode metadataBytes);
  intentId ← member "intentId" metadata;
  packageId ← member "packageId" metadata;
  threshold ← member "threshold" metadata;
  keyServers ← member "keyServers" metadata;
  Some {| info_id := or_default intentId (JString "unknown");
          info_packageId := or_default packageId (JString "0x0");
          info_threshold := or_default threshold (JNumber (of_Z 2));
          services := [ (or_default packageId (JString "0x0"),
                         or_default keyServers (JNumber (of_Z 3))) ];
          ciphertextLength :=
            (Z.of_nat (length encrypted) - 4 - Z.of_N metadataLength)%Z |}.

(** [isValidSealEncryption]: whatever is thrown inside the [try] gives
    [false]. *)
Definition isValidSealEncryption (encrypted : list byte) : bool :=
  if (length encrypted <? 8)%nat then false
  else
    default false (
      metadataLength ← getUint32_le encrypted;
      if (Z.of_nat (length encrypted) - 4 <? Z.of_N metadataLength)%Z
      then Some false
      else if (metadataLength <? 10)%N then Some false
      else
        let metadataBytes := slice 4 (4 + N.to_nat metadataLength) encrypted in
        metadata ← JSON_parse (TextDecoder_decode metadataBytes);
        version ← member "version" metadata;
        if typeof_number version
        then intentId ← member "intentId" metadata;
             Some (typeof_string intentId)
        else Some false).

End Platform.

(** An environment in which the policy package is configured, in a
    browser. *)
Definition sample_env : Env :=
  {| NEXT_PUBLIC_SEAL_POLICY_PACKAGE_ID := Some "0xabc";
     NEXT_PUBLIC_ENCLAVE_CONFIG_ID := None;
     NEXT_PUBLIC_SUI_NETWORK := Some mainnet;
     window := true |}.

End SealVerify.

(** ** [decryptMockIntent] on a window of a buffer

    A [Uint8Array] is a window of [array_length] bytes at [byteOffset] of its
    [buffer]; [subarray] and the constructors that take a buffer make
    windows that do not start at the first byte. *)
Module TypedArrays.
Import JS Seal.

Record Uint8Array := {
  buffer : list byte;
  byteOffset : nat;
  array_length : nat;
}.

(** The bytes [a[0]], ..., [a[a.length - 1]]. *)
Definition elements (a : Uint8Array) : list byte :=
  take (array_length a) (drop (byteOffset a) (buffer a)).

(** An array of its own: [new Uint8Array(n)], filled. *)
Definition of_bytes (bs : list byte) : Uint8Array :=
  {| buffer := bs; byteOffset := 0; array_length := length bs |}.

(** [whole.subarray(start)] of an array of its own. *)
Definition subarray (start : nat) (whole : list byte) : Uint8Array :=
  {| buffer := whole; byteOffset := start `min` length whole;
     array_length := length whole - start |}.

Section Platform.
Variable JSON_parse : string → option json.
Variable TextDecoder_decode : list byte → string.

(** [decryptMockIntent]: [new DataView(encrypted.buffer)] is a view of the
    whole buffer, so [getUint32(0, true)] reads the first four bytes of the
    buffer, wherever the array starts; [encrypted.slice(4 + metadataLength)]
    counts from the start of the array. *)
Definition decryptMockIntent (encrypted : Uint8Array) (key : list byte)
  : option json :=
  metadataLength ← getUint32_le (buffer encrypted);
  let ciphertext := drop (4 + N.to_nat metadataLength) (elements encrypted) in
  let plaintext := xorCipher ciphertext key in
  let json := TextDecoder_decode plaintext in
  JSON_parse json.

End Platform.

End TypedArrays.

(** ** The limit-order page: the log and the handlers of the orders *)
Module OrderPage.
Import JS LimitOrders.
Local Open Scope string_scope.

(** [prev.slice(-n)]: the last [n] elements. *)
Definition slice_last {A} (n : nat) (prev : list A) : list A :=
  drop (length prev - n) prev.

(** [addLog]; [time] is what [new Date().toLocaleTimeString()] gave. *)
Definition log_line (time message : string) : string :=
  "[" ++ time ++ "] " ++ message.

Definition addLog (time message : string) (prev : list string) : list string :=
  (slice_last 19 prev ++ [log_line time message])%list.

(** [Object.keys(POOLS)] *)
Definition POOLS_keys : list string := ["SUI_USDC"; "DEEP_SUI"; "DBUSDC_DBUSDT"].

(** The loop of [fetchAllPrices] that fills [newPrices]; [fetchPrice pair]
    is [None] when the promise is rejected. *)
Definition newPrices (fetchPrice : string → option number) : gmap string number :=
  foldl (λ newPrices pair,
           <[pair := match fetchPrice pair with
                     | Some price => price
                     | None => of_Z 0
                     end]> newPrices)
    ∅ POOLS_keys.

(** [fetchAllPrices]: the prices and the orders it sets. *)
Definition fetchAllPrices (fetchPrice : string → option number) (now : N)
    (prev : list LimitOrder) : gmap string number * list LimitOrder :=
  (newPrices fetchPrice, check_orders (newPrices fetchPrice) now prev).

(** What [signAndExecute] does with the transaction: it calls one of the
    two callbacks. *)
Inductive Submitted := onSuccess | onError.

Definition isNaN (x : number) : bool :=
  match x with NaN => true | _ => false end.

(** [`order_${Date.now()}`] *)
Definition new_order_id (now : N) : string :=
  "order_" ++ NilZero.string_of_uint (N.to_uint now).

(** [createOrder]; [trigger] and [qty] are what [parseFloat] made of the
    two fields of the form, [now1] and [now2] the readings of the clock in
    [onSuccess].  The result is the list of orders afterwards. *)
Definition createOrder (account : bool) (trigger qty : number)
    (selectedPair : string) (side : Side) (orderType : OrderType)
    (submitted : Submitted) (now1 now2 : N) (prev : list LimitOrder)
  : list LimitOrder :=
  if negb account then prev
  else if isNaN trigger || le trigger (of_Z 0) then prev
  else if isNaN qty || le qty (of_Z 0) then prev
  else
    match submitted with
    | onSuccess =>
        let newOrder :=
          {| order_id := new_order_id now1; pair := selectedPair;
             side := side; type := orderType; triggerPrice := trigger;
             quantity := qty; status := pending; createdAt := now2;
             triggeredAt := None |} in
        (prev ++ [newOrder])%list
    | onError => prev
    end.

(** [{ ...o, status: s }] *)
Definition with_status (s : OrderStatus) (o : LimitOrder) : LimitOrder :=
  {| order_id := order_id o; pair := pair o; side := LimitOrders.side o;
     type := type o; triggerPrice := triggerPrice o; quantity := quantity o;
     status := s; createdAt := createdAt o; triggeredAt := triggeredAt o |}.

(** [cancelOrder] *)
Definition cancelOrder (account : bool) (order : LimitOrder)
    (submitted : Submitted) (prev : list LimitOrder) : list LimitOrder :=
  if negb account then prev
  else
    match submitted with
    | onSuccess =>
        map (λ o, if String.eqb (order_id o) (order_id order)
                  then with_status cancelled o else o) prev
    | onError => prev
    end.

(** [executeOrder] *)
Definition executeOrder (account : bool) (order : LimitOrder)
    (submitted : Submitted) (prev : list LimitOrder) : list LimitOrder :=
  if negb account then prev
  else
    match submitted with
    | onSuccess =>
        map (λ o, if String.eqb (order_id o) (order_id order)
                  then with_status filled o else o) prev
    | onError => prev
    end.

(** What happens on the page, and the list of orders it leaves. *)
Inductive Event :=
| Prices (fetchPrice : string → option number) (now : N)
| Create (account : bool) (trigger qty : number) (selectedPair : string)
    (side : Side) (orderType : OrderType) (submitted : Submitted)
    (now1 now2 : N)
| Cancel (account : bool) (order : LimitOrder) (submitted : Submitted)
| Execute (account : bool) (order : LimitOrder) (submitted : Submitted).

Definition handle (orders : list LimitOrder) (e : Event) : list LimitOrder :=
  match e with
  | Prices fetchPrice now => (fetchAllPrices fetchPrice now orders).2
  | Create account trigger qty selectedPair side orderType submitted now1 now2 =>
      createOrder account trigger qty selectedPair side orderType submitted
        now1 now2 orders
  | Cancel account order submitted => cancelOrder account order submitted orders
  | Execute account order submitted => executeOrder account order submitted orders
  end.

(** The page starts with [useState<LimitOrder[]>([])]. *)
Definition orders_after (events : list Event) : list LimitOrder :=
  foldl handle [] events.

(** An order as [createOrder] lets it in: trigger price and quantity are
    numbers above zero. *)
Definition positive (x : number) : Prop :=
  isNaN x = false ∧ le x (of_Z 0) = false.

(** What holds of every order on the page: it was let in by [createOrder],
    it has a trigger time when it is triggered and none while it is
    pending. *)
Definition well_formed (o : LimitOrder) : Prop :=
  positive (triggerPrice o) ∧ positive (quantity o)
  ∧ (status o = pending → triggeredAt o = None)
  ∧ (status o = triggered → is_Some (triggeredAt o)).

(** What the handlers never change in an order. *)
Definition same_order (o o' : LimitOrder) : Prop :=
  order_id o' = order_id o ∧ pair o' = pair o
  ∧ LimitOrders.side o' = LimitOrders.side o ∧ type o' = type o
  ∧ triggerPrice o' = triggerPrice o ∧ quantity o' = quantity o
  ∧ createdAt o' = createdAt o.

(** What the page keeps of an order from one moment to a later one. *)
Definition kept (o o' : LimitOrder) : Prop :=
  same_order o o'
  ∧ (status o ≠ pending → status o' ≠ pending)
  ∧ (∀ t, status o ≠ pending → triggeredAt o = Some t → triggeredAt o' = Some t).

End OrderPage.

(** * Properties of the registry *)
Section Registry.
Import IntentRegistry Ledger.

(** ** The model at work *)

Example genesis_stats : get_stats (registry genesis) = (0, 0, 0).
Proof. reflexivity. Qed.

Example created_stats : get_stats (registry Scenario.created) = (1, 1, 0).
Proof. vm_compute. reflexivity. Qed.

Example claimed_stats : get_stats (registry Scenario.claimed) = (1, 1, 0).
Proof. vm_compute. reflexivity. Qed.

Example claimed_event :
  events Scenario.claimed
  = [ IntentCreated 2 Scenario.alice TRIGGER_PRICE_BELOW 100 [] 5000;
      IntentExecuting 2 2000 ].
Proof. vm_compute. reflexivity. Qed.

Example finalized_stats :
  get_stats (registry (step Scenario.claimed
                         (Scenario.tx Scenario.enclave 2600 (MarkExecuted 2 95 []))))
  = (1, 0, 1).
Proof. vm_compute. reflexivity. Qed.

Example unknown_intent :
  exec Scenario.created (Scenario.tx Scenario.enclave 2000 (MarkExecuting 7))
  = Fail ObjectNotFound.
Proof. vm_compute. reflexivity. Qed.

(** ** The functions, as decision trees *)

Lemma create_intent_eq r data kind tv ph ex c ctx :
  create_intent r data kind tv ph ex c ctx =
  if timestamp_ms c <? ex then
    if kind <=? TRIGGER_PRICE_ABOVE then
      if total_intents r + 1 <=? U64_MAX then
        if active_intents r + 1 <=? U64_MAX then
          Ok (set_active (active_intents r + 1) (set_total (total_intents r + 1) r),
              {| uid := ids_created ctx; owner := sender ctx; encrypted_data := data;
                 created_at := timestamp_ms c; expires_at := ex;
                 status := STATUS_ACTIVE; trigger_type := kind;
                 trigger_value := tv; pair_hash := ph; executed_at := None;
                 executed_price := None; tx_digest := None |},
              IntentCreated (ids_created ctx) (sender ctx) kind tv ph ex,
              {| sender := sender ctx; ids_created := ids_created ctx + 1 |})
        else Fail ArithmeticError
      else Fail ArithmeticError
    else Fail (MoveAbort EInvalidTriggerType)
  else Fail (MoveAbort EIntentExpired).
Proof.
  unfold create_intent, assert, add, object_new.
  repeat (case_match; simpl; try done).
Qed.

Lemma cancel_intent_eq r i c ctx :
  cancel_intent r i c ctx =
  if sender ctx =? owner i then
    if status i =? STATUS_ACTIVE then
      if 1 <=? active_intents r then
        Ok (set_active (active_intents r - 1) r, set_status STATUS_CANCELLED i,
            IntentCancelled (uid i) (timestamp_ms c))
      else Fail ArithmeticError
    else Fail (MoveAbort EInvalidStatus)
  else Fail (MoveAbort ENotOwner).
Proof.
  unfold cancel_intent, assert, sub.
  repeat (case_match; simpl; try done).
Qed.

Lemma mark_executing_eq i c :
  mark_executing i c =
  if status i =? STATUS_ACTIVE then
    if timestamp_ms c <? expires_at i then
      Ok (set_status STATUS_EXECUTING i, IntentExecuting (uid i) (timestamp_ms c))
    else Fail (MoveAbort EIntentExpired)
  else Fail (MoveAbort EAlreadyExecuting).
Proof.
  unfold mark_executing, assert.
  repeat (case_match; simpl; try done).
Qed.

Lemma mark_executed_eq r i price digest c :
  mark_executed r i price digest c =
  if status i =? STATUS_EXECUTING then
    if 1 <=? active_intents r then
      if executed_intents r + 1 <=? U64_MAX then
        Ok (set_executed (executed_intents r + 1) (set_active (active_intents r - 1) r),
            set_execution (timestamp_ms c) price digest (set_status STATUS_EXECUTED i),
            IntentExecuted (uid i) (timestamp_ms c) price)
      else Fail ArithmeticError
    else Fail ArithmeticError
  else Fail (MoveAbort EInvalidStatus).
Proof.
  unfold mark_executed, assert, add, sub.
  repeat (case_match; simpl; try done).
Qed.

Lemma mark_failed_eq r i reason c :
  mark_failed r i reason c =
  if status i =? STATUS_EXECUTING then
    if 1 <=? active_intents r then
      Ok (set_active (active_intents r - 1) r, set_status STATUS_FAILED i,
          IntentFailed (uid i) (timestamp_ms c) reason)
    else Fail ArithmeticError
  else Fail (MoveAbort EInvalidStatus).
Proof.
  unfold mark_failed, assert, sub.
  repeat (case_match; simpl; try done).
Qed.

Lemma reset_to_active_eq i :
  reset_to_active i =
  if status i =? STATUS_EXECUTING then Ok (set_status STATUS_ACTIVE i)
  else Fail (MoveAbort EInvalidStatus).
Proof. unfold reset_to_active, assert. by case_match. Qed.

(** ** Successful transactions *)

Lemma exec_Ok_inv w tx w' :
  exec w tx = Ok w' →
  match tx_call tx with
  | CreateIntent data kind tv ph ex =>
      timestamp_ms (tx_clock tx) < ex ∧ kind ≤ TRIGGER_PRICE_ABOVE ∧
      total_intents (registry w) + 1 ≤ U64_MAX ∧
      active_intents (registry w) + 1 ≤ U64_MAX ∧
      w' = {| registry := set_active (active_intents (registry w) + 1)
                            (set_total (total_intents (registry w) + 1) (registry w));
              intents :=
                <[next_id w :=
                    {| uid := next_id w; owner := tx_sender tx;
                       encrypted_data := data;
                       created_at := timestamp_ms (tx_clock tx);
                       expires_at := ex; status := STATUS_ACTIVE;
                       trigger_type := kind; trigger_value := tv;
                       pair_hash := ph; executed_at := None;
                       executed_price := None; tx_digest := None |}]> (intents w);
              caps := caps w;
              events := events w ++
                [IntentCreated (next_id w) (tx_sender tx) kind tv ph ex];
              next_id := next_id w + 1 |}
  | CancelIntent iid =>
      ∃ i, intents w !! iid = Some i ∧ tx_sender tx = owner i ∧
        status i = STATUS_ACTIVE ∧ 1 ≤ active_intents (registry w) ∧
        w' = commit w iid (set_active (active_intents (registry w) - 1) (registry w))
               (set_status STATUS_CANCELLED i)
               [IntentCancelled (uid i) (timestamp_ms (tx_clock tx))]
  | MarkExecuting iid =>
      ∃ i, intents w !! iid = Some i ∧ status i = STATUS_ACTIVE ∧
        timestamp_ms (tx_clock tx) < expires_at i ∧
        w' = commit w iid (registry w) (set_status STATUS_EXECUTING i)
               [IntentExecuting (uid i) (timestamp_ms (tx_clock tx))]
  | MarkExecuted iid price digest =>
      ∃ i, intents w !! iid = Some i ∧ status i = STATUS_EXECUTING ∧
        1 ≤ active_intents (registry w) ∧
        executed_intents (registry w) + 1 ≤ U64_MAX ∧
        w' = commit w iid
               (set_executed (executed_intents (registry w) + 1)
                  (set_active (active_intents (registry w) - 1) (registry w)))
               (set_execution (timestamp_ms (tx_clock tx)) price digest
                  (set_status STATUS_EXECUTED i))
               [IntentExecuted (uid i) (timestamp_ms (tx_clock tx)) price]
  | MarkFailed iid reason =>
      ∃ i, intents w !! iid = Some i ∧ status i = STATUS_EXECUTING ∧
        1 ≤ active_intents (registry w) ∧
        w' = commit w iid (set_active (active_intents (registry w) - 1) (registry w))
               (set_status STATUS_FAILED i)
               [IntentFailed (uid i) (timestamp_ms (tx_clock tx)) reason]
  | ResetToActive iid =>
      ∃ i, intents w !! iid = Some i ∧ status i = STATUS_EXECUTING ∧
        w' = commit w iid (registry w) (set_status STATUS_ACTIVE i) []
  | CreateEnclaveCap pk =>
      w' = {| registry := registry w; intents := intents w;
              caps := caps w ++ [(tx_sender tx, {| cap_id := next_id w; enclave_pk := pk |})];
              events := events w; next_id := next_id w + 1 |}
  end.
Proof.
  unfold exec, borrow_intent. destruct (tx_call tx) as [data kind tv ph ex|iid|iid|iid p d|iid rs|iid|pk]; simpl.
  - rewrite create_intent_eq. simpl.
    repeat (case_match; simpl; try done).
    intros [= <-]. repeat split; try (apply N.ltb_lt; done); try (apply N.leb_le; done).
  - destruct (intents w !! iid) as [i|]; simpl; [|done].
    rewrite cancel_intent_eq. simpl.
    repeat (case_match; simpl; try done). intros [= <-].
    exists i. repeat split; try (apply N.eqb_eq; done); try (apply N.leb_le; done).
  - destruct (intents w !! iid) as [i|]; simpl; [|done].
    rewrite mark_executing_eq.
    repeat (case_match; simpl; try done). intros [= <-].
    exists i. repeat split; try (apply N.eqb_eq; done); try (apply N.ltb_lt; done).
  - destruct (intents w !! iid) as [i|]; simpl; [|done].
    rewrite mark_executed_eq.
    repeat (case_match; simpl; try done). intros [= <-].
    exists i. repeat split; try (apply N.eqb_eq; done); try (apply N.leb_le; done).
  - destruct (intents w !! iid) as [i|]; simpl; [|done].
    rewrite mark_failed_eq.
    repeat (case_match; simpl; try done). intros [= <-].
    exists i. repeat split; try (apply N.eqb_eq; done); try (apply N.leb_le; done).
  - destruct (intents w !! iid) as [i|]; simpl; [|done].
    rewrite reset_to_active_eq.
    repeat (case_match; simpl; try done). intros [= <-].
    exists i. repeat split; try (apply N.eqb_eq; done).
  - intros [= <-]. done.
Qed.

(** Counting the live intents of a store after one entry is written. *)
Lemma live_size_insert (m : gmap ID Intent) k x :
  (size (filter (λ kv : ID * Intent, is_live kv.2 = true) (<[k:=x]> m))
   + match m !! k with Some y => if is_live y then 1 else 0 | None => 0 end
   = size (filter (λ kv : ID * Intent, is_live kv.2 = true) m)
     + (if is_live x then 1 else 0))%nat.
Proof.
  set (P := λ kv : ID * Intent, is_live kv.2 = true).
  assert (Hk : filter P m !! k =
            match m !! k with
            | Some y => if is_live y then Some y else None
            | None => None
            end).
  { destruct (m !! k) as [y|] eqn:Hm.
    - destruct (is_live y) eqn:Hy.
      + apply map_lookup_filter_Some. done.
      + apply map_lookup_filter_None. right. intros y' ?. simplify_eq.
        unfold P. simpl. congruence.
    - apply map_lookup_filter_None. by left. }
  destruct (is_live x) eqn:Hx.
  - rewrite map_filter_insert_True by done.
    rewrite map_size_insert, Hk.
    destruct (m !! k) as [y|]; [destruct (is_live y)|]; simpl; lia.
  - rewrite map_filter_insert_False by (unfold P; simpl; congruence).
    rewrite map_filter_delete, map_size_delete, Hk.
    destruct (m !! k) as [y|] eqn:Hm; [destruct (is_live y) eqn:Hy|]; simpl; try lia.
    assert (size (filter P m) ≠ 0%nat); [|lia].
    apply (map_size_ne_0_lookup_2 _ k). rewrite Hk. eauto.
Qed.

Lemma live_count_commit w k r i i' evs :
  intents w !! k = Some i →
  live_count (commit w k r i' evs) + (if is_live i then 1 else 0)
  = live_count w + (if is_live i' then 1 else 0).
Proof.
  intros Hi. unfold live_count, commit. simpl.
  pose proof (live_size_insert (intents w) k i') as H.
  rewrite Hi in H. destruct (is_live i), (is_live i'); lia.
Qed.

Lemma live_count_fresh w w' k x :
  intents w !! k = None → intents w' = <[k:=x]> (intents w) →
  live_count w' = live_count w + (if is_live x then 1 else 0).
Proof.
  intros Hk Hw'. unfold live_count. rewrite Hw'.
  pose proof (live_size_insert (intents w) k x) as H.
  rewrite Hk in H. destruct (is_live x); lia.
Qed.

(** ** Runs *)

Lemma step_preserves (P : World → Prop) :
  (∀ w tx w', P w → exec w tx = Ok w' → P w') →
  ∀ w tx, P w → P (step w tx).
Proof.
  intros HP w tx Hw. unfold step. destruct (exec w tx) eqn:Hex; [|done].
  by eapply HP.
Qed.

Lemma run_preserves (P : World → Prop) :
  (∀ w tx, P w → P (step w tx)) →
  ∀ txs w, P w → P (run w txs).
Proof.
  intros HP txs. induction txs as [|tx txs IH]; intros w Hw; simpl; [done|].
  by apply IH, HP.
Qed.

(** ** Invariants of the store *)

Lemma keys_ok_fresh w : keys_ok w → intents w !! next_id w = None.
Proof.
  intros Hk. destruct (intents w !! next_id w) as [i|] eqn:Hi; [|done].
  apply Hk in Hi as [_ ?]. lia.
Qed.

Lemma keys_ok_genesis : keys_ok genesis.
Proof. intros k i. unfold genesis. simpl. by rewrite lookup_empty. Qed.

Lemma keys_ok_commit w k r i s evs :
  keys_ok w → intents w !! k = Some i →
  keys_ok (commit w k r (set_status s i) evs).
Proof.
  intros Hk Hi k' i'. unfold commit. simpl.
  rewrite lookup_insert. case_decide as Hd.
  - subst k'. intros [= <-]. by apply Hk in Hi.
  - apply Hk.
Qed.

Lemma keys_ok_exec w tx w' : keys_ok w → exec w tx = Ok w' → keys_ok w'.
Proof.
  intros Hk Hex. apply exec_Ok_inv in Hex.
  destruct (tx_call tx) as [data kind tv ph ex|iid|iid|iid p d|iid rs|iid|pk].
  - destruct Hex as (_ & _ & _ & _ & ->). intros k i. simpl.
    destruct (decide (next_id w = k)) as [<-|Hne].
    + rewrite lookup_insert_eq. intros [= <-]. simpl. split; [done|lia].
    + rewrite lookup_insert_ne by done. intros Hi.
      apply Hk in Hi as [? ?]. split; [done|lia].
  - destruct Hex as (i & Hi & _ & _ & _ & ->). by eapply keys_ok_commit.
  - destruct Hex as (i & Hi & _ & _ & ->). by eapply keys_ok_commit.
  - destruct Hex as (i & Hi & _ & _ & _ & ->).
    intros k' i'. unfold commit. simpl.
    rewrite lookup_insert. case_decide as Hd.
    + subst k'. intros [= <-]. by apply Hk in Hi.
    + apply Hk.
  - destruct Hex as (i & Hi & _ & _ & ->). by eapply keys_ok_commit.
  - destruct Hex as (i & Hi & _ & ->). by eapply keys_ok_commit.
  - subst w'. intros k i. simpl. intros Hi. apply Hk in Hi as [? ?].
    split; [done|lia].
Qed.

Lemma keys_ok_step w tx : keys_ok w → keys_ok (step w tx).
Proof. apply step_preserves. intros ???. apply keys_ok_exec. Qed.

Lemma counted_genesis : counted genesis.
Proof. unfold counted, live_count, genesis. simpl. by rewrite map_filter_empty. Qed.

(** The count of live intents after an intent was given back. *)
Ltac count_commit Hi Hs :=
  let H := fresh "H" in
  lazymatch goal with
  | |- context [commit ?w ?k ?r ?i' ?evs] =>
      pose proof (live_count_commit w k r _ i' evs Hi) as H
  end;
  unfold is_live in H; rewrite Hs in H; simpl in *; lia.

Lemma counted_exec w tx w' :
  keys_ok w → counted w → exec w tx = Ok w' → counted w'.
Proof.
  unfold counted. intros Hk Hc Hex. apply exec_Ok_inv in Hex.
  destruct (tx_call tx) as [data kind tv ph ex|iid|iid|iid p d|iid rs|iid|pk].
  - destruct Hex as (_ & _ & _ & _ & ->).
    erewrite (live_count_fresh w); [| by apply keys_ok_fresh | done].
    simpl. lia.
  - destruct Hex as (i & Hi & _ & Hs & Ha & ->). count_commit Hi Hs.
  - destruct Hex as (i & Hi & Hs & _ & ->). count_commit Hi Hs.
  - destruct Hex as (i & Hi & Hs & Ha & _ & ->). count_commit Hi Hs.
  - destruct Hex as (i & Hi & Hs & Ha & ->). count_commit Hi Hs.
  - destruct Hex as (i & Hi & Hs & ->). count_commit Hi Hs.
  - subst w'. done.
Qed.

Lemma execution_recorded_genesis : execution_recorded genesis.
Proof. intros k i. unfold genesis. simpl. by rewrite lookup_empty. Qed.

(** A status change that is not to Executed keeps the execution fields of an
    intent that is not Executed empty. *)
Lemma execution_recorded_commit w k r i s evs :
  execution_recorded w → intents w !! k = Some i →
  status i ≠ STATUS_EXECUTED → s ≠ STATUS_EXECUTED →
  execution_recorded (commit w k r (set_status s i) evs).
Proof.
  intros Hr Hi Hs Hs' k' i'. unfold commit. simpl.
  rewrite lookup_insert. case_decide as Hk.
  - intros [= <-]. simpl. apply Hr in Hi.
    apply N.eqb_neq in Hs, Hs'. rewrite Hs in Hi. by rewrite Hs'.
  - apply Hr.
Qed.

Lemma execution_recorded_exec w tx w' :
  keys_ok w → execution_recorded w → exec w tx = Ok w' → execution_recorded w'.
Proof.
  intros Hk Hr Hex. apply exec_Ok_inv in Hex.
  destruct (tx_call tx) as [data kind tv ph ex|iid|iid|iid p d|iid rs|iid|pk].
  - destruct Hex as (_ & _ & _ & _ & ->). intros k i. simpl.
    rewrite lookup_insert. case_decide.
    + by intros [= <-].
    + apply Hr.
  - destruct Hex as (i & Hi & _ & Hs & _ & ->).
    eapply execution_recorded_commit; try done; by rewrite ?Hs.
  - destruct Hex as (i & Hi & Hs & _ & ->).
    eapply execution_recorded_commit; try done; by rewrite ?Hs.
  - destruct Hex as (i & Hi & Hs & _ & _ & ->).
    intros k i'. unfold commit. simpl.
    rewrite lookup_insert. case_decide.
    + by intros [= <-].
    + apply Hr.
  - destruct Hex as (i & Hi & Hs & _ & ->).
    eapply execution_recorded_commit; try done; by rewrite ?Hs.
  - destruct Hex as (i & Hi & Hs & ->).
    eapply execution_recorded_commit; try done; by rewrite ?Hs.
  - by subst w'.
Qed.

(** ** One step on the status graph *)

Lemma status_of_commit w k r i s evs k' :
  status_of (commit w k r (set_status s i) evs) k' =
  if decide (k = k') then Some s else status_of w k'.
Proof.
  unfold status_of, commit. simpl. rewrite lookup_insert. by case_decide.
Qed.

Lemma follows_refl a : follows a a = true.
Proof. destruct a as [s|]; simpl; [|done]. by rewrite N.eqb_refl. Qed.

(** The status under [k] after an intent was given back with a new status. *)
Ltac follow_commit Hi Hs k :=
  rewrite status_of_commit;
  case_decide; [subst k | apply follows_refl];
  unfold status_of; rewrite Hi; simpl; by rewrite Hs.

Lemma follows_exec w tx w' k :
  keys_ok w → exec w tx = Ok w' →
  follows (status_of w k) (status_of w' k) = true.
Proof.
  intros Hk Hex. apply exec_Ok_inv in Hex.
  destruct (tx_call tx) as [data kind tv ph ex|iid|iid|iid p d|iid rs|iid|pk].
  - destruct Hex as (_ & _ & _ & _ & ->). unfold status_of. simpl.
    rewrite lookup_insert. case_decide as Hd.
    + subst k. by rewrite keys_ok_fresh.
    + apply follows_refl.
  - destruct Hex as (i & Hi & _ & Hs & _ & ->). follow_commit Hi Hs k.
  - destruct Hex as (i & Hi & Hs & _ & ->). follow_commit Hi Hs k.
  - destruct Hex as (i & Hi & Hs & _ & _ & ->).
    destruct (Hk _ _ Hi) as [<- _]. unfold status_of at 2, commit. simpl.
    rewrite lookup_insert. case_decide as Hd; [subst k|apply follows_refl].
    unfold status_of. rewrite Hi. simpl. by rewrite Hs.
  - destruct Hex as (i & Hi & Hs & _ & ->). follow_commit Hi Hs k.
  - destruct Hex as (i & Hi & Hs & ->). follow_commit Hi Hs k.
  - subst w'. apply follows_refl.
Qed.

Lemma follows_step w tx k :
  keys_ok w → follows (status_of w k) (status_of (step w tx) k) = true.
Proof.
  intros Hk. unfold step. destruct (exec w tx) eqn:Hex.
  - by eapply follows_exec.
  - apply follows_refl.
Qed.

Lemma linked_statuses txs :
  ∀ w k, keys_ok w → linked follows (statuses w txs k) = true.
Proof.
  induction txs as [|tx txs IH]; intros w k Hk; simpl; [done|].
  specialize (IH (step w tx) k (keys_ok_step _ tx Hk)).
  destruct txs as [|tx' txs]; simpl in *.
  - by rewrite follows_step.
  - by rewrite follows_step.
Qed.

Lemma bounded_genesis : bounded genesis.
Proof. unfold bounded, genesis, U64_MAX. simpl. lia. Qed.

Lemma bounded_exec w tx w' : bounded w → exec w tx = Ok w' → bounded w'.
Proof.
  unfold bounded. intros [Hb Ht] Hex. apply exec_Ok_inv in Hex.
  destruct (tx_call tx) as [data kind tv ph ex|iid|iid|iid p d|iid rs|iid|pk].
  - destruct Hex as (_ & _ & ? & ? & ->). simpl. lia.
  - destruct Hex as (i & _ & _ & _ & ? & ->). simpl. lia.
  - destruct Hex as (i & _ & _ & _ & ->). simpl. lia.
  - destruct Hex as (i & _ & _ & ? & ? & ->). simpl. lia.
  - destruct Hex as (i & _ & _ & ? & ->). simpl. lia.
  - destruct Hex as (i & _ & _ & ->). simpl. lia.
  - subst w'. simpl. lia.
Qed.

Lemma live_count_pos w k i :
  intents w !! k = Some i → is_live i = true → 1 ≤ live_count w.
Proof.
  intros Hi Hl. unfold live_count.
  assert (size (filter (λ kv : ID * Intent, is_live kv.2 = true) (intents w)) ≠ 0%nat);
    [|lia].
  apply (map_size_ne_0_lookup_2 _ k). exists i.
  by apply map_lookup_filter_Some.
Qed.

(** Every store reached from the initial one has the four properties. *)
Lemma reachable_inv txs :
  keys_ok (run genesis txs) ∧ counted (run genesis txs)
  ∧ bounded (run genesis txs) ∧ execution_recorded (run genesis txs).
Proof.
  apply (run_preserves
           (λ w, keys_ok w ∧ counted w ∧ bounded w ∧ execution_recorded w)).
  - apply step_preserves. intros w tx w' (Hk & Hc & Hb & Hr) Hex.
    split; [|split; [|split]];
      eauto using keys_ok_exec, counted_exec, bounded_exec, execution_recorded_exec.
  - split; [|split; [|split]];
      auto using keys_ok_genesis, counted_genesis, bounded_genesis,
        execution_recorded_genesis.
Qed.

(** ** When a call succeeds *)

Lemma exec_cancel_Ok w tx iid i :
  counted w → tx_call tx = CancelIntent iid → intents w !! iid = Some i →
  tx_sender tx = owner i → status i = STATUS_ACTIVE →
  exec w tx = Ok (commit w iid (set_active (active_intents (registry w) - 1) (registry w))
                    (set_status STATUS_CANCELLED i)
                    [IntentCancelled (uid i) (timestamp_ms (tx_clock tx))]).
Proof.
  intros Hc Hcall Hi Ho Hs. unfold exec, borrow_intent. rewrite Hcall, Hi. simpl.
  rewrite cancel_intent_eq. simpl. rewrite Ho, N.eqb_refl, Hs. simpl.
  assert (1 ≤ active_intents (registry w)) as Ha.
  { rewrite Hc. eapply live_count_pos; [done|]. unfold is_live. by rewrite Hs. }
  apply N.leb_le in Ha. by rewrite Ha.
Qed.

Lemma exec_mark_executing_Ok w tx iid i :
  tx_call tx = MarkExecuting iid → intents w !! iid = Some i →
  status i = STATUS_ACTIVE → timestamp_ms (tx_clock tx) < expires_at i →
  exec w tx = Ok (commit w iid (registry w) (set_status STATUS_EXECUTING i)
                    [IntentExecuting (uid i) (timestamp_ms (tx_clock tx))]).
Proof.
  intros Hcall Hi Hs Ht. unfold exec, borrow_intent. rewrite Hcall, Hi. simpl.
  rewrite mark_executing_eq, Hs. simpl. apply N.ltb_lt in Ht. by rewrite Ht.
Qed.

Lemma exec_mark_executed_Ok w tx iid p d i :
  counted w → bounded w →
  tx_call tx = MarkExecuted iid p d → intents w !! iid = Some i →
  status i = STATUS_EXECUTING →
  exec w tx = Ok (commit w iid
                    (set_executed (executed_intents (registry w) + 1)
                       (set_active (active_intents (registry w) - 1) (registry w)))
                    (set_execution (timestamp_ms (tx_clock tx)) p d
                       (set_status STATUS_EXECUTED i))
                    [IntentExecuted (uid i) (timestamp_ms (tx_clock tx)) p]).
Proof.
  intros Hc [Hb Ht] Hcall Hi Hs. unfold exec, borrow_intent. rewrite Hcall, Hi. simpl.
  rewrite mark_executed_eq, Hs. simpl.
  assert (1 ≤ active_intents (registry w)) as Ha.
  { rewrite Hc. eapply live_count_pos; [done|]. unfold is_live. by rewrite Hs. }
  assert (executed_intents (registry w) + 1 ≤ U64_MAX) as He by lia.
  apply N.leb_le in Ha, He. by rewrite Ha, He.
Qed.

Lemma exec_mark_failed_Ok w tx iid rs i :
  counted w → tx_call tx = MarkFailed iid rs → intents w !! iid = Some i →
  status i = STATUS_EXECUTING →
  exec w tx = Ok (commit w iid (set_active (active_intents (registry w) - 1) (registry w))
                    (set_status STATUS_FAILED i)
                    [IntentFailed (uid i) (timestamp_ms (tx_clock tx)) rs]).
Proof.
  intros Hc Hcall Hi Hs. unfold exec, borrow_intent. rewrite Hcall, Hi. simpl.
  rewrite mark_failed_eq, Hs. simpl.
  assert (1 ≤ active_intents (registry w)) as Ha.
  { rewrite Hc. eapply live_count_pos; [done|]. unfold is_live. by rewrite Hs. }
  apply N.leb_le in Ha. by rewrite Ha.
Qed.

Lemma exec_reset_Ok w tx iid i :
  tx_call tx = ResetToActive iid → intents w !! iid = Some i →
  status i = STATUS_EXECUTING →
  exec w tx = Ok (commit w iid (registry w) (set_status STATUS_ACTIVE i) []).
Proof.
  intros Hcall Hi Hs. unfold exec, borrow_intent. rewrite Hcall, Hi. simpl.
  by rewrite reset_to_active_eq, Hs.
Qed.

(** ** An intent that is being executed stays so until it is released *)

Lemma status_of_Some w k s :
  status_of w k = Some s ↔ ∃ i, intents w !! k = Some i ∧ status i = s.
Proof.
  unfold status_of. destruct (intents w !! k) as [i|]; simpl; split.
  - intros [= <-]. by exists i.
  - intros (i' & [= <-] & <-). done.
  - done.
  - by intros (i' & ? & _).
Qed.

Lemma executing_stays w u iid :
  keys_ok w → status_of w iid = Some STATUS_EXECUTING →
  releases iid (tx_call u) = false →
  status_of (step w u) iid = Some STATUS_EXECUTING.
Proof.
  intros Hk Hs Hrel. unfold step. destruct (exec w u) as [w'|] eqn:Hex; [|done].
  pose proof Hs as (i0 & Hi0 & Hs0)%status_of_Some.
  apply exec_Ok_inv in Hex.
  destruct (tx_call u) as [data kind tv ph ex|j|j|j p d|j rs|j|pk]; simpl in Hrel.
  - destruct Hex as (_ & _ & _ & _ & ->). unfold status_of. simpl.
    rewrite lookup_insert_ne; [done|].
    intros <-. by rewrite keys_ok_fresh in Hi0.
  - destruct Hex as (i & Hi & _ & Hsi & _ & ->). rewrite status_of_commit.
    case_decide; [|done]. simplify_eq. by rewrite Hsi in Hs0.
  - destruct Hex as (i & Hi & Hsi & _ & ->). rewrite status_of_commit.
    by case_decide.
  - destruct Hex as (i & Hi & _ & _ & _ & ->). apply N.eqb_neq in Hrel.
    unfold status_of, commit. simpl. by rewrite lookup_insert_ne.
  - destruct Hex as (i & Hi & _ & _ & ->). apply N.eqb_neq in Hrel.
    by rewrite status_of_commit, decide_False.
  - destruct Hex as (i & Hi & _ & ->). apply N.eqb_neq in Hrel.
    by rewrite status_of_commit, decide_False.
  - by subst w'.
Qed.

Lemma executing_stays_run later :
  ∀ w iid, keys_ok w → status_of w iid = Some STATUS_EXECUTING →
  Forall (λ u, releases iid (tx_call u) = false) later →
  status_of (run w later) iid = Some STATUS_EXECUTING.
Proof.
  induction later as [|u later IH]; intros w iid Hk Hs Hall; simpl; [done|].
  inversion Hall; subst.
  apply IH; [by apply keys_ok_step | by apply executing_stays | done].
Qed.

Lemma exec_mark_executing_not_active w t iid s :
  tx_call t = MarkExecuting iid → status_of w iid = Some s → s ≠ STATUS_ACTIVE →
  exec w t = Fail (MoveAbort EAlreadyExecuting).
Proof.
  intros Hcall Hs Hne. apply status_of_Some in Hs as (i & Hi & <-).
  unfold exec, borrow_intent. rewrite Hcall, Hi. simpl.
  rewrite mark_executing_eq. apply N.eqb_neq in Hne. by rewrite Hne.
Qed.

(** ** Claiming an intent *)

(** C3.  [mark_executing] (claim_for_execution) stops with
    [EAlreadyExecuting], the module's code for a claim in the wrong state,
    on every intent whose status is not Active; on an Active intent with
    [expires_at <= now] it stops with [EIntentExpired], whatever the trigger
    of the intent and the price are (the function reads neither); otherwise
    it sets the status to Executing.  So an intent that [is_expired] is
    never moved to Executing, whatever its status: the call fails and the
    transaction leaves the store as it was.  In every store reached from
    the initial one, once a claim of an intent has succeeded, every further
    claim of it stops with [EAlreadyExecuting] as long as no
    [mark_executed], [mark_failed] or [reset_to_active] was called on it. *)
Theorem C3_claim_for_execution :
  (∀ (i : Intent) (c : Clock),
      (status i ≠ STATUS_ACTIVE →
       mark_executing i c = Fail (MoveAbort EAlreadyExecuting))
      ∧ (status i = STATUS_ACTIVE → expires_at i ≤ timestamp_ms c →
         mark_executing i c = Fail (MoveAbort EIntentExpired))
      ∧ (status i = STATUS_ACTIVE → timestamp_ms c < expires_at i →
         mark_executing i c =
         Ok (set_status STATUS_EXECUTING i, IntentExecuting (uid i) (timestamp_ms c)))
      ∧ (is_expired i c = true → is_ok (mark_executing i c) = false))
  ∧ (∀ (txs : list Tx) (t : Tx) (iid : ID) (i : Intent),
      tx_call t = MarkExecuting iid →
      intents (run genesis txs) !! iid = Some i →
      is_expired i (tx_clock t) = true →
      is_ok (exec (run genesis txs) t) = false
      ∧ step (run genesis txs) t = run genesis txs)
  ∧ (∀ (txs : list Tx) (t : Tx) (iid : ID),
      tx_call t = MarkExecuting iid →
      is_ok (exec (run genesis txs) t) = true →
      status_of (run genesis txs) iid = Some STATUS_ACTIVE
      ∧ status_of (step (run genesis txs) t) iid = Some STATUS_EXECUTING
      ∧ ∀ (later : list Tx) (t' : Tx),
          Forall (λ u, releases iid (tx_call u) = false) later →
          tx_call t' = MarkExecuting iid →
          exec (run (step (run genesis txs) t) later) t'
          = Fail (MoveAbort EAlreadyExecuting)).
Proof.
  split; [|split].
  - intros i c. rewrite mark_executing_eq. repeat split.
    + intros Hs. apply N.eqb_neq in Hs. by rewrite Hs.
    + intros -> Hle. simpl. apply N.ltb_ge in Hle. by rewrite Hle.
    + intros -> Hlt. simpl. apply N.ltb_lt in Hlt. by rewrite Hlt.
    + intros Hle%N.leb_le. apply N.ltb_ge in Hle. rewrite Hle. by case_match.
  - intros txs t iid i Hcall Hi Hle%N.leb_le.
    assert (is_ok (exec (run genesis txs) t) = false) as Hf.
    { unfold exec, borrow_intent. rewrite Hcall, Hi. simpl.
      rewrite mark_executing_eq. apply N.ltb_ge in Hle. rewrite Hle.
      by case_match. }
    split; [done|]. unfold step. by destruct (exec (run genesis txs) t).
  - intros txs t iid Hcall Hok.
    destruct (reachable_inv txs) as (Hk & _).
    set (w := run genesis txs) in *.
    destruct (exec w t) as [w'|] eqn:Hex; [|done].
    pose proof Hex as Hinv. apply exec_Ok_inv in Hinv. rewrite Hcall in Hinv.
    destruct Hinv as (i & Hi & Hs & _ & ->).
    destruct (Hk _ _ Hi) as [Hu _].
    assert (status_of (step w t) iid = Some STATUS_EXECUTING) as Hst.
    { unfold step. rewrite Hex. subst iid.
      rewrite status_of_commit. by rewrite decide_True. }
    split; [apply status_of_Some; eauto|]. split; [done|].
    intros later t' Hall Hcall'.
    apply (exec_mark_executing_not_active _ _ iid STATUS_EXECUTING); [done| |done].
    apply executing_stays_run; [by apply keys_ok_step|done|done].
Qed.

(** The claim of alice's intent: refused at 6000, after it expired at 5000;
    granted at 2000, and then refused to a second claimant, also after
    other transactions that do not release it. *)
Lemma C3_claim_for_execution_witness :
  mark_executing
    {| uid := 2; owner := Scenario.alice; encrypted_data := []; created_at := 1000;
       expires_at := 5000; status := STATUS_ACTIVE;
       trigger_type := TRIGGER_PRICE_BELOW; trigger_value := 100;
       pair_hash := []; executed_at := None; executed_price := None;
       tx_digest := None |} (Scenario.at_ms 6000)
  = Fail (MoveAbort EIntentExpired)
  ∧ status_of Scenario.claimed 2 = Some STATUS_EXECUTING
  ∧ exec (run Scenario.claimed
            [Scenario.tx Scenario.alice 2100 (CancelIntent 2);
             Scenario.tx Scenario.alice 2200
               (CreateIntent [] TRIGGER_PRICE_ABOVE 7 [] 9000)])
         (Scenario.tx Scenario.mallory 2300 (MarkExecuting 2))
    = Fail (MoveAbort EAlreadyExecuting).
Proof.
  destruct C3_claim_for_execution as (Hfun & _ & Hexcl).
  split; [|split].
  - apply Hfun; [reflexivity | vm_compute; discriminate].
  - apply (Hexcl Scenario.setup (Scenario.tx Scenario.enclave 2000 (MarkExecuting 2)) 2);
      [reflexivity | vm_compute; reflexivity].
  - apply (Hexcl Scenario.setup (Scenario.tx Scenario.enclave 2000 (MarkExecuting 2)) 2);
      [reflexivity | vm_compute; reflexivity | | reflexivity].
    repeat constructor.
Defined.

(** ** Cancellation *)

(** C4.  [cancel_intent] succeeds only when the sender is the owner of the
    intent and its status is Active; the status is then Cancelled and
    [active_intents] is one less.  When the sender is not the owner it stops
    with [ENotOwner]; when the sender is the owner and the status is not
    Active it stops with [EInvalidStatus].  In every store reached from the
    initial one, the owner's cancellation of an Active intent succeeds, and
    every other cancellation fails, with [ENotOwner] or [EInvalidStatus] as
    above, and leaves the whole store, the intent and the counters of the
    registry with it, as it was. *)
Theorem C4_cancel :
  (∀ (r : IntentRegistry) (i : Intent) (c : Clock) (ctx : TxContext),
      (∀ r' i' ev, cancel_intent r i c ctx = Ok (r', i', ev) →
         sender ctx = owner i ∧ status i = STATUS_ACTIVE
         ∧ i' = set_status STATUS_CANCELLED i
         ∧ active_intents r' + 1 = active_intents r
         ∧ total_intents r' = total_intents r
         ∧ executed_intents r' = executed_intents r)
      ∧ (sender ctx ≠ owner i →
         cancel_intent r i c ctx = Fail (MoveAbort ENotOwner))
      ∧ (sender ctx = owner i → status i ≠ STATUS_ACTIVE →
         cancel_intent r i c ctx = Fail (MoveAbort EInvalidStatus)))
  ∧ (∀ (txs : list Tx) (t : Tx) (iid : ID) (i : Intent),
      tx_call t = CancelIntent iid →
      intents (run genesis txs) !! iid = Some i →
      (tx_sender t = owner i ∧ status i = STATUS_ACTIVE →
       is_ok (exec (run genesis txs) t) = true
       ∧ status_of (step (run genesis txs) t) iid = Some STATUS_CANCELLED
       ∧ active_intents (registry (step (run genesis txs) t)) + 1
         = active_intents (registry (run genesis txs)))
      ∧ (¬ (tx_sender t = owner i ∧ status i = STATUS_ACTIVE) →
         exec (run genesis txs) t
         = Fail (MoveAbort (if tx_sender t =? owner i then EInvalidStatus
                            else ENotOwner))
         ∧ step (run genesis txs) t = run genesis txs)).
Proof.
  split.
  - intros r i c ctx. rewrite cancel_intent_eq. split; [|split].
    + intros r' i' ev.
      destruct (sender ctx =? owner i) eqn:Ho; [|done].
      destruct (status i =? STATUS_ACTIVE) eqn:Hs; [|done].
      destruct (1 <=? active_intents r) eqn:Ha; [|done].
      intros [= <- <- _]. apply N.eqb_eq in Ho, Hs. apply N.leb_le in Ha.
      simpl. repeat split; try done; lia.
    + intros Hne. apply N.eqb_neq in Hne. by rewrite Hne.
    + intros -> Hne. rewrite N.eqb_refl. apply N.eqb_neq in Hne. by rewrite Hne.
  - intros txs t iid i Hcall Hi.
    destruct (reachable_inv txs) as (Hk & Hc & _).
    set (w := run genesis txs) in *. split.
    + intros [Ho Hs].
      pose proof (exec_cancel_Ok w t iid i Hc Hcall Hi Ho Hs) as Hex.
      unfold step. rewrite Hex. simpl.
      destruct (Hk _ _ Hi) as [<- _]. split; [done|]. split.
      * unfold status_of. simpl. by rewrite lookup_insert_eq.
      * assert (1 ≤ active_intents (registry w)); [|lia].
        rewrite Hc. eapply live_count_pos; [done|]. unfold is_live. by rewrite Hs.
    + intros Hnot.
      assert (exec w t = Fail (MoveAbort (if tx_sender t =? owner i
                                          then EInvalidStatus else ENotOwner))) as Hf.
      { unfold exec, borrow_intent. rewrite Hcall, Hi. simpl.
        rewrite cancel_intent_eq. simpl.
        destruct (N.eqb_spec (tx_sender t) (owner i)) as [Ho|Ho]; [|done].
        destruct (N.eqb_spec (status i) STATUS_ACTIVE) as [Hs|Hs]; [tauto|done]. }
      split; [done|]. unfold step. by rewrite Hf.
Qed.

(** Alice cancels her intent; mallory cannot, and nobody can cancel it once
    it is claimed. *)
Lemma C4_cancel_witness :
  status_of (step Scenario.created (Scenario.tx Scenario.alice 1500 (CancelIntent 2))) 2
  = Some STATUS_CANCELLED
  ∧ step Scenario.created (Scenario.tx Scenario.mallory 1500 (CancelIntent 2))
    = Scenario.created
  ∧ step Scenario.claimed (Scenario.tx Scenario.alice 2500 (CancelIntent 2))
    = Scenario.claimed.
Proof.
  destruct C4_cancel as (_ & Hw).
  assert (intents (run genesis Scenario.setup) !! 2 =
          Some {| uid := 2; owner := Scenario.alice; encrypted_data := ["170"%byte];
                  created_at := 1000; expires_at := 5000; status := STATUS_ACTIVE;
                  trigger_type := TRIGGER_PRICE_BELOW; trigger_value := 100;
                  pair_hash := []; executed_at := None; executed_price := None;
                  tx_digest := None |}) as Hi by (vm_compute; reflexivity).
  split; [|split].
  - eapply (Hw Scenario.setup (Scenario.tx Scenario.alice 1500 (CancelIntent 2)));
      [reflexivity | exact Hi | split; reflexivity].
  - eapply (Hw Scenario.setup (Scenario.tx Scenario.mallory 1500 (CancelIntent 2)));
      [reflexivity | exact Hi | ]. intros [Ho _]. vm_compute in Ho. discriminate.
  - eapply (Hw (Scenario.setup ++ [Scenario.tx Scenario.enclave 2000 (MarkExecuting 2)])
               (Scenario.tx Scenario.alice 2500 (CancelIntent 2)) 2
               {| uid := 2; owner := Scenario.alice; encrypted_data := ["170"%byte];
                  created_at := 1000; expires_at := 5000; status := STATUS_EXECUTING;
                  trigger_type := TRIGGER_PRICE_BELOW; trigger_value := 100;
                  pair_hash := []; executed_at := None; executed_price := None;
                  tx_digest := None |});
      [reflexivity | vm_compute; reflexivity | ].
    intros [_ Hs]. vm_compute in Hs. discriminate.
Defined.

(** ** Creation *)

(** C5.  [create_intent] stops with [EIntentExpired], the module's code for
    an expiry that is not in the future, whenever [expires_at <= now]; it
    fails whenever the trigger type is neither [TRIGGER_PRICE_BELOW] nor
    [TRIGGER_PRICE_ABOVE], with [EInvalidTriggerType] when the expiry, which
    is tested first, is in the future.
    On success the new intent is Active, its owner is the sender, its
    [expires_at] is after its [created_at], its execution fields are empty,
    and [total_intents] and [active_intents] are each one more.  In a store
    reached from the initial one the call succeeds when the expiry is in the
    future, the trigger type is one of the two and fewer than 2^64 - 1
    intents were created; the intent is stored under an identifier that was
    not in use. *)
Theorem C5_create :
  (∀ (r : IntentRegistry) (data : bytes) (kind : u8) (tv : u64) (ph : bytes)
     (ex : u64) (c : Clock) (ctx : TxContext),
      (ex ≤ timestamp_ms c →
       create_intent r data kind tv ph ex c ctx = Fail (MoveAbort EIntentExpired))
      ∧ (timestamp_ms c < ex → kind ≠ TRIGGER_PRICE_BELOW →
         kind ≠ TRIGGER_PRICE_ABOVE →
         create_intent r data kind tv ph ex c ctx
         = Fail (MoveAbort EInvalidTriggerType))
      ∧ (kind ≠ TRIGGER_PRICE_BELOW → kind ≠ TRIGGER_PRICE_ABOVE →
         is_ok (create_intent r data kind tv ph ex c ctx) = false)
      ∧ (∀ r' i ev ctx',
          create_intent r data kind tv ph ex c ctx = Ok (r', i, ev, ctx') →
          status i = STATUS_ACTIVE ∧ owner i = sender ctx
          ∧ created_at i = timestamp_ms c ∧ expires_at i = ex
          ∧ created_at i < expires_at i
          ∧ (trigger_type i = TRIGGER_PRICE_BELOW ∨ trigger_type i = TRIGGER_PRICE_ABOVE)
          ∧ execution_empty i = true
          ∧ total_intents r' = total_intents r + 1
          ∧ active_intents r' = active_intents r + 1
          ∧ executed_intents r' = executed_intents r))
  ∧ (∀ (txs : list Tx) (t : Tx) data kind tv ph ex,
      tx_call t = CreateIntent data kind tv ph ex →
      timestamp_ms (tx_clock t) < ex →
      kind = TRIGGER_PRICE_BELOW ∨ kind = TRIGGER_PRICE_ABOVE →
      total_intents (registry (run genesis txs)) < U64_MAX →
      is_ok (exec (run genesis txs) t) = true
      ∧ intents (run genesis txs) !! next_id (run genesis txs) = None
      ∧ status_of (step (run genesis txs) t) (next_id (run genesis txs))
        = Some STATUS_ACTIVE
      ∧ owner <$> intents (step (run genesis txs) t) !! next_id (run genesis txs)
        = Some (tx_sender t)
      ∧ total_intents (registry (step (run genesis txs) t))
        = total_intents (registry (run genesis txs)) + 1
      ∧ active_intents (registry (step (run genesis txs) t))
        = active_intents (registry (run genesis txs)) + 1).
Proof.
  split.
  - intros r data kind tv ph ex c ctx. rewrite create_intent_eq.
    split; [|split; [|split]].
    + intros Hle. apply N.ltb_ge in Hle. by rewrite Hle.
    + intros Hlt Hb Ha. apply N.ltb_lt in Hlt. rewrite Hlt.
      assert ((kind <=? TRIGGER_PRICE_ABOVE) = false) as ->; [|done].
      apply N.leb_gt. unfold TRIGGER_PRICE_ABOVE, TRIGGER_PRICE_BELOW in *. lia.
    + intros Hb Ha.
      assert ((kind <=? TRIGGER_PRICE_ABOVE) = false) as ->.
      { apply N.leb_gt. unfold TRIGGER_PRICE_ABOVE, TRIGGER_PRICE_BELOW in *. lia. }
      by destruct (timestamp_ms c <? ex).
    + intros r' i ev ctx'.
      destruct (timestamp_ms c <? ex) eqn:Hlt; [|done].
      destruct (kind <=? TRIGGER_PRICE_ABOVE) eqn:Hk; [|done].
      destruct (total_intents r + 1 <=? U64_MAX); [|done].
      destruct (active_intents r + 1 <=? U64_MAX); [|done].
      intros [= <- <- _ _]. simpl. apply N.ltb_lt in Hlt. apply N.leb_le in Hk.
      repeat split; try done.
      unfold TRIGGER_PRICE_ABOVE, TRIGGER_PRICE_BELOW in *. lia.
  - intros txs t data kind tv ph ex Hcall Hlt Hkind Htot.
    destruct (reachable_inv txs) as (Hk & Hc & (Hb & _) & _).
    set (w := run genesis txs) in *.
    assert (exec w t = Ok
      {| registry := set_active (active_intents (registry w) + 1)
                       (set_total (total_intents (registry w) + 1) (registry w));
         intents :=
           <[next_id w :=
               {| uid := next_id w; owner := tx_sender t; encrypted_data := data;
                  created_at := timestamp_ms (tx_clock t); expires_at := ex;
                  status := STATUS_ACTIVE; trigger_type := kind;
                  trigger_value := tv; pair_hash := ph; executed_at := None;
                  executed_price := None; tx_digest := None |}]> (intents w);
         caps := caps w;
         events := events w ++ [IntentCreated (next_id w) (tx_sender t) kind tv ph ex];
         next_id := next_id w + 1 |}) as Hex.
    { unfold exec. rewrite Hcall. rewrite create_intent_eq. simpl.
      apply N.ltb_lt in Hlt. rewrite Hlt.
      assert ((kind <=? TRIGGER_PRICE_ABOVE) = true) as ->.
      { apply N.leb_le. destruct Hkind as [-> | ->]; done. }
      assert ((total_intents (registry w) + 1 <=? U64_MAX) = true) as ->
        by (apply N.leb_le; lia).
      assert ((active_intents (registry w) + 1 <=? U64_MAX) = true) as ->
        by (apply N.leb_le; lia).
      done. }
    unfold step. rewrite Hex. simpl. split; [done|].
    split; [by apply keys_ok_fresh|].
    unfold status_of. simpl. rewrite lookup_insert_eq. done.
Qed.

(** Alice's second intent, created at 1200 to expire at 9000. *)
Lemma C5_create_witness :
  create_intent {| registry_id := 0; total_intents := 1; active_intents := 1;
                   executed_intents := 0 |}
    [] TRIGGER_PRICE_ABOVE 7 [] 1000 (Scenario.at_ms 1200)
    {| sender := Scenario.alice; ids_created := 3 |}
  = Fail (MoveAbort EIntentExpired)
  ∧ status_of
      (step Scenario.created
         (Scenario.tx Scenario.alice 1200 (CreateIntent [] TRIGGER_PRICE_ABOVE 7 [] 9000)))
      (next_id Scenario.created)
    = Some STATUS_ACTIVE.
Proof.
  destruct C5_create as (Hfun & Hw). split.
  - apply Hfun. vm_compute. discriminate.
  - eapply (Hw Scenario.setup
              (Scenario.tx Scenario.alice 1200 (CreateIntent [] TRIGGER_PRICE_ABOVE 7 [] 9000)));
      [reflexivity | reflexivity | by right | reflexivity].
Defined.

(** ** Successful execution *)

(** C6.  [mark_executed] (finalize_success) stops with [EInvalidStatus] on
    every intent whose status is not Executing.  On success the status is
    Executed, [executed_at], [executed_price] and [tx_digest] hold the time
    of the call, the price and the digest given, [active_intents] is one
    less and [executed_intents] one more.  In every store reached from the
    initial one the call succeeds on every Executing intent, and the three
    fields are set on the Executed intents and empty on all others. *)
Theorem C6_finalize_success :
  (∀ (r : IntentRegistry) (i : Intent) (p : u64) (d : bytes) (c : Clock),
      (status i ≠ STATUS_EXECUTING →
       mark_executed r i p d c = Fail (MoveAbort EInvalidStatus))
      ∧ (∀ r' i' ev, mark_executed r i p d c = Ok (r', i', ev) →
          status i = STATUS_EXECUTING ∧ status i' = STATUS_EXECUTED
          ∧ executed_at i' = Some (timestamp_ms c)
          ∧ executed_price i' = Some p ∧ tx_digest i' = Some d
          ∧ active_intents r' + 1 = active_intents r
          ∧ executed_intents r' = executed_intents r + 1
          ∧ total_intents r' = total_intents r))
  ∧ (∀ (txs : list Tx) (t : Tx) (iid : ID) (p : u64) (d : bytes),
      tx_call t = MarkExecuted iid p d →
      status_of (run genesis txs) iid = Some STATUS_EXECUTING →
      is_ok (exec (run genesis txs) t) = true
      ∧ status_of (step (run genesis txs) t) iid = Some STATUS_EXECUTED
      ∧ active_intents (registry (step (run genesis txs) t)) + 1
        = active_intents (registry (run genesis txs))
      ∧ executed_intents (registry (step (run genesis txs) t))
        = executed_intents (registry (run genesis txs)) + 1)
  ∧ (∀ (txs : list Tx) (k : ID) (i : Intent),
      intents (run genesis txs) !! k = Some i →
      if status i =? STATUS_EXECUTED then execution_populated i = true
      else execution_empty i = true).
Proof.
  split; [|split].
  - intros r i p d c. rewrite mark_executed_eq. split.
    + intros Hne. apply N.eqb_neq in Hne. by rewrite Hne.
    + intros r' i' ev.
      destruct (status i =? STATUS_EXECUTING) eqn:Hs; [|done].
      destruct (1 <=? active_intents r) eqn:Ha; [|done].
      destruct (executed_intents r + 1 <=? U64_MAX); [|done].
      intros [= <- <- _]. apply N.eqb_eq in Hs. apply N.leb_le in Ha.
      simpl. repeat split; try done; lia.
  - intros txs t iid p d Hcall Hs.
    destruct (reachable_inv txs) as (Hk & Hc & Hb & _).
    set (w := run genesis txs) in *.
    apply status_of_Some in Hs as (i & Hi & Hs).
    pose proof (exec_mark_executed_Ok w t iid p d i Hc Hb Hcall Hi Hs) as Hex.
    unfold step. rewrite Hex. simpl.
    destruct (Hk _ _ Hi) as [<- _]. split; [done|]. split; [|split; [|done]].
    + unfold status_of. simpl. by rewrite lookup_insert_eq.
    + assert (1 ≤ active_intents (registry w)); [|lia].
      rewrite Hc. eapply live_count_pos; [done|]. unfold is_live. by rewrite Hs.
  - intros txs k i Hi. destruct (reachable_inv txs) as (_ & _ & _ & Hr).
    by apply Hr in Hi.
Qed.

(** The claimed intent of alice is finalized at 2600 at the price 95. *)
Lemma C6_finalize_success_witness :
  mark_executed {| registry_id := 0; total_intents := 1; active_intents := 1;
                   executed_intents := 0 |}
    {| uid := 2; owner := Scenario.alice; encrypted_data := []; created_at := 1000;
       expires_at := 5000; status := STATUS_ACTIVE;
       trigger_type := TRIGGER_PRICE_BELOW; trigger_value := 100;
       pair_hash := []; executed_at := None; executed_price := None;
       tx_digest := None |} 95 ["001"%byte] (Scenario.at_ms 2600)
  = Fail (MoveAbort EInvalidStatus)
  ∧ status_of
      (step Scenario.claimed
         (Scenario.tx Scenario.enclave 2600 (MarkExecuted 2 95 ["001"%byte]))) 2
    = Some STATUS_EXECUTED.
Proof.
  destruct C6_finalize_success as (Hfun & Hw & _). split.
  - apply Hfun. vm_compute. discriminate.
  - eapply (Hw (Scenario.setup ++ [Scenario.tx Scenario.enclave 2000 (MarkExecuting 2)])
              (Scenario.tx Scenario.enclave 2600 (MarkExecuted 2 95 ["001"%byte])));
      [reflexivity | vm_compute; reflexivity].
Defined.

(** ** The status graph *)

Lemma edge_from s s' :
  edge s s' = true → s = STATUS_ACTIVE ∨ s = STATUS_EXECUTING.
Proof.
  unfold edge.
  destruct (N.eqb_spec s STATUS_ACTIVE); [by left|].
  destruct (N.eqb_spec s STATUS_EXECUTING); [by right|]. done.
Qed.

Lemma edge_not_terminal s s' : edge s s' = true → terminal s = false.
Proof. intros [-> | ->]%edge_from; reflexivity. Qed.

Lemma follows_Some w t k s :
  keys_ok w → status_of w k = Some s →
  ∃ s', status_of (step w t) k = Some s' ∧ (s' = s ∨ edge s s' = true).
Proof.
  intros Hk Hs. pose proof (follows_step w t k Hk) as Hf. rewrite Hs in Hf.
  destruct (status_of (step w t) k) as [s'|]; simpl in Hf; [|done].
  exists s'. split; [done|].
  apply orb_true_iff in Hf as [Heq%N.eqb_eq | He]; auto.
Qed.

(** C7.  Along every sequence of transactions from the initial store, the
    status observed under an identifier before and after each transaction is
    the same or joined by an edge of the graph: Active→Executing,
    Executing→Executed, Executing→Failed, Executing→Active,
    Active→Cancelled, Active→Expired; an identifier not in use stays so or
    becomes a new Active intent, and an intent never disappears.  So a
    terminal status (Executed, Cancelled, Expired, Failed) is never left,
    and a Cancelled intent never becomes Executing. *)
Theorem C7_status_graph :
  ∀ (txs : list Tx) (iid : ID),
    linked follows (statuses genesis txs iid) = true
    ∧ (∀ (t : Tx) (s : u8),
        status_of (run genesis txs) iid = Some s →
        ∃ s', status_of (step (run genesis txs) t) iid = Some s'
              ∧ (s' = s ∨ edge s s' = true))
    ∧ (∀ (t : Tx) (s : u8),
        status_of (run genesis txs) iid = Some s → terminal s = true →
        status_of (step (run genesis txs) t) iid = Some s)
    ∧ (∀ (t : Tx),
        status_of (run genesis txs) iid = Some STATUS_CANCELLED →
        status_of (step (run genesis txs) t) iid ≠ Some STATUS_EXECUTING).
Proof.
  intros txs iid. destruct (reachable_inv txs) as (Hk & _).
  split; [|split; [|split]].
  - apply linked_statuses, keys_ok_genesis.
  - intros t s Hs. by apply follows_Some.
  - intros t s Hs Ht.
    destruct (follows_Some _ t _ _ Hk Hs) as (s' & Hs' & [-> | He]); [done|].
    apply edge_not_terminal in He. congruence.
  - intros t Hs.
    destruct (follows_Some _ t _ _ Hk Hs) as (s' & Hs' & [-> | He]).
    + by rewrite Hs'.
    + apply edge_not_terminal in He. done.
Qed.

(** Alice's intent is cancelled by her; a later claim leaves it Cancelled. *)
Lemma C7_status_graph_witness :
  statuses genesis
    (Scenario.setup ++
       [Scenario.tx Scenario.alice 1500 (CancelIntent 2);
        Scenario.tx Scenario.enclave 2000 (MarkExecuting 2)]) 2
  = [None; None; Some STATUS_ACTIVE; Some STATUS_CANCELLED; Some STATUS_CANCELLED]
  ∧ status_of
      (step (run genesis (Scenario.setup ++ [Scenario.tx Scenario.alice 1500 (CancelIntent 2)]))
         (Scenario.tx Scenario.enclave 2000 (MarkExecuting 2))) 2
    = Some STATUS_CANCELLED.
Proof.
  split; [vm_compute; reflexivity|].
  apply (C7_status_graph
           (Scenario.setup ++ [Scenario.tx Scenario.alice 1500 (CancelIntent 2)]) 2);
    vm_compute; reflexivity.
Defined.

(** ** The counter of active intents *)

(** C10.  In every store reached from the initial one, [active_intents] is
    the number of intents whose status is Active or Executing, so an
    Executing intent is still counted.  A successful [create_intent] adds
    one to it, a successful [cancel_intent], [mark_executed] or
    [mark_failed] takes one from it, and [mark_executing],
    [reset_to_active], [create_enclave_cap] and every failed transaction
    leave it as it is. *)
Theorem C10_active_counter :
  ∀ (txs : list Tx),
    active_intents (registry (run genesis txs)) = live_count (run genesis txs)
    ∧ (∀ iid, status_of (run genesis txs) iid = Some STATUS_EXECUTING →
         1 ≤ active_intents (registry (run genesis txs)))
    ∧ (∀ t : Tx,
         let a := active_intents (registry (run genesis txs)) in
         let a' := active_intents (registry (step (run genesis txs) t)) in
         if is_ok (exec (run genesis txs) t) then
           match tx_call t with
           | CreateIntent _ _ _ _ _ => a' = a + 1
           | CancelIntent _ | MarkExecuted _ _ _ | MarkFailed _ _ => a' + 1 = a
           | MarkExecuting _ | ResetToActive _ | CreateEnclaveCap _ => a' = a
           end
         else a' = a).
Proof.
  intros txs. destruct (reachable_inv txs) as (Hk & Hc & _).
  set (w := run genesis txs) in *. split; [done|]. split.
  - intros iid (i & Hi & Hs)%status_of_Some. rewrite Hc.
    eapply live_count_pos; [done|]. unfold is_live. by rewrite Hs.
  - intros t. unfold step. simpl.
    destruct (exec w t) as [w'|] eqn:Hex; simpl; [|done].
    apply exec_Ok_inv in Hex.
    destruct (tx_call t) as [data kind tv ph ex|j|j|j p d|j rs|j|pk].
    + by destruct Hex as (_ & _ & _ & _ & ->).
    + destruct Hex as (i & _ & _ & _ & ? & ->). simpl. lia.
    + by destruct Hex as (i & _ & _ & _ & ->).
    + destruct Hex as (i & _ & _ & ? & _ & ->). simpl. lia.
    + destruct Hex as (i & _ & _ & ? & ->). simpl. lia.
    + by destruct Hex as (i & _ & _ & ->).
    + by subst w'.
Qed.

(** ** The enclave functions and their callers *)

(** C1, as stated, fails: mallory holds no enclave capability, and yet her
    claim of alice's intent is not refused with [EInvalidSignature]: it
    moves the intent to Executing, and she then finalizes it either way. *)
Lemma C1_enclave_check_counterexample :
  holds_enclave_cap Scenario.created Scenario.enclave = true
  ∧ holds_enclave_cap Scenario.created Scenario.mallory = false
  ∧ status_of Scenario.created 2 = Some STATUS_ACTIVE
  ∧ failed_with
      (exec Scenario.created (Scenario.tx Scenario.mallory 2000 (MarkExecuting 2)))
      EInvalidSignature = false
  ∧ status_of
      (step Scenario.created (Scenario.tx Scenario.mallory 2000 (MarkExecuting 2))) 2
    = Some STATUS_EXECUTING
  ∧ status_of
      (run Scenario.created
         [Scenario.tx Scenario.mallory 2000 (MarkExecuting 2);
          Scenario.tx Scenario.mallory 2100 (MarkExecuted 2 1 [])]) 2
    = Some STATUS_EXECUTED
  ∧ status_of
      (run Scenario.created
         [Scenario.tx Scenario.mallory 2000 (MarkExecuting 2);
          Scenario.tx Scenario.mallory 2100 (MarkFailed 2 [])]) 2
    = Some STATUS_FAILED.
Proof. vm_compute. repeat split; reflexivity. Qed.

(** C1, amended.  [mark_executing], [mark_executed] and [mark_failed] take
    neither the caller nor a capability and compare nothing with an enclave
    key: in every store reached from the initial one the outcome of such a
    call is the same for every sender, it is never [EInvalidSignature], the
    call succeeds exactly when the intent exists and is Active and not
    expired ([mark_executing]) or Executing ([mark_executed],
    [mark_failed]), and a call that fails leaves the store as it was. *)
Theorem C1_enclave_functions_unchecked :
  ∀ (txs : list Tx) (t : Tx),
    privileged (tx_call t) = true →
    (∀ a : address,
        exec (run genesis txs)
          {| tx_sender := a; tx_clock := tx_clock t; tx_call := tx_call t |}
        = exec (run genesis txs) t)
    ∧ failed_with (exec (run genesis txs) t) EInvalidSignature = false
    ∧ is_ok (exec (run genesis txs) t)
      = match tx_call t with
        | MarkExecuting iid =>
            match intents (run genesis txs) !! iid with
            | Some i => (status i =? STATUS_ACTIVE)
                        && (timestamp_ms (tx_clock t) <? expires_at i)
            | None => false
            end
        | MarkExecuted iid _ _ | MarkFailed iid _ =>
            match intents (run genesis txs) !! iid with
            | Some i => status i =? STATUS_EXECUTING
            | None => false
            end
        | _ => false
        end
    ∧ (is_ok (exec (run genesis txs) t) = false →
       step (run genesis txs) t = run genesis txs).
Proof.
  intros txs t Hp. destruct (reachable_inv txs) as (Hk & Hc & Hb & _).
  set (w := run genesis txs) in *.
  split; [|split; [|split]].
  - intros a. unfold exec. simpl.
    destruct (tx_call t); try done.
  - unfold exec, borrow_intent.
    destruct (tx_call t) as [data kind tv ph ex|j|j|j p d|j rs|j|pk]; try done; simpl;
      (destruct (intents w !! j) as [i|]; simpl; [|done]).
    + rewrite mark_executing_eq. by repeat case_match.
    + rewrite mark_executed_eq. by repeat case_match.
    + rewrite mark_failed_eq. by repeat case_match.
  - destruct (tx_call t) as [data kind tv ph ex|j|j|j p d|j rs|j|pk] eqn:Hcall;
      try done.
    + unfold exec, borrow_intent. rewrite Hcall. simpl.
      destruct (intents w !! j) as [i|]; simpl; [|done].
      rewrite mark_executing_eq. by repeat case_match.
    + destruct (intents w !! j) as [i|] eqn:Hi.
      * destruct (N.eqb_spec (status i) STATUS_EXECUTING) as [Hs|Hs].
        -- by rewrite (exec_mark_executed_Ok w t j p d i).
        -- unfold exec, borrow_intent. rewrite Hcall, Hi. simpl.
           rewrite mark_executed_eq. apply N.eqb_neq in Hs. by rewrite Hs.
      * unfold exec, borrow_intent. by rewrite Hcall, Hi.
    + destruct (intents w !! j) as [i|] eqn:Hi.
      * destruct (N.eqb_spec (status i) STATUS_EXECUTING) as [Hs|Hs].
        -- by rewrite (exec_mark_failed_Ok w t j rs i).
        -- unfold exec, borrow_intent. rewrite Hcall, Hi. simpl.
           rewrite mark_failed_eq. apply N.eqb_neq in Hs. by rewrite Hs.
      * unfold exec, borrow_intent. by rewrite Hcall, Hi.
  - unfold step. by destruct (exec w t).
Qed.

(** Mallory's claim of alice's intent has the outcome of the enclave's. *)
Lemma C1_enclave_functions_unchecked_witness :
  exec Scenario.created (Scenario.tx Scenario.mallory 2000 (MarkExecuting 2))
  = exec Scenario.created (Scenario.tx Scenario.enclave 2000 (MarkExecuting 2))
  ∧ is_ok (exec Scenario.created (Scenario.tx Scenario.enclave 2000 (MarkExecuting 2)))
    = true.
Proof.
  destruct (C1_enclave_functions_unchecked Scenario.setup
              (Scenario.tx Scenario.enclave 2000 (MarkExecuting 2)) eq_refl)
    as (Hsame & _ & Hok & _).
  split.
  - exact (Hsame Scenario.mallory).
  - etransitivity; [exact Hok | vm_compute; reflexivity].
Defined.

(** ** Recovery *)

(** C2, as stated, fails: alice's intent was claimed at 2000 and is reset
    at 2001, one millisecond later and far below a threshold of one minute;
    the call does not fail and the intent is Active again. *)
Lemma C2_recovery_counterexample :
  status_of Scenario.claimed 2 = Some STATUS_EXECUTING
  ∧ claimed_at (events Scenario.claimed) 2 = Some 2000
  ∧ 2001 - 2000 < Scenario.stuck_threshold
  ∧ is_ok (exec Scenario.claimed (Scenario.tx Scenario.mallory 2001 (ResetToActive 2)))
    = true
  ∧ status_of
      (step Scenario.claimed (Scenario.tx Scenario.mallory 2001 (ResetToActive 2))) 2
    = Some STATUS_ACTIVE.
Proof. vm_compute. repeat split; reflexivity. Qed.

(** C2, amended.  [reset_to_active] reads no clock and no threshold, and an
    intent does not record when it was claimed: on every intent in status
    Executing it succeeds, at once and at any time, and sets the status back
    to Active, changing nothing else of the intent; on every other intent it
    stops with [EInvalidStatus].  In every store reached from the initial
    one the outcome is the same whatever the sender and the time of the
    transaction are, and the counters of the registry are untouched. *)
Theorem C2_recovery_any_time :
  (∀ i : Intent,
      (status i = STATUS_EXECUTING →
       reset_to_active i = Ok (set_status STATUS_ACTIVE i))
      ∧ (status i ≠ STATUS_EXECUTING →
         reset_to_active i = Fail (MoveAbort EInvalidStatus)))
  ∧ (∀ (txs : list Tx) (t : Tx) (iid : ID),
      tx_call t = ResetToActive iid →
      (∀ (a : address) (c : Clock),
          exec (run genesis txs) {| tx_sender := a; tx_clock := c; tx_call := tx_call t |}
          = exec (run genesis txs) t)
      ∧ (status_of (run genesis txs) iid = Some STATUS_EXECUTING →
         is_ok (exec (run genesis txs) t) = true
         ∧ status_of (step (run genesis txs) t) iid = Some STATUS_ACTIVE
         ∧ registry (step (run genesis txs) t) = registry (run genesis txs))
      ∧ (∀ s, status_of (run genesis txs) iid = Some s → s ≠ STATUS_EXECUTING →
         exec (run genesis txs) t = Fail (MoveAbort EInvalidStatus))).
Proof.
  split.
  - intros i. rewrite reset_to_active_eq. split.
    + by intros ->.
    + intros Hne. apply N.eqb_neq in Hne. by rewrite Hne.
  - intros txs t iid Hcall. destruct (reachable_inv txs) as (Hk & _).
    set (w := run genesis txs) in *. split; [|split].
    + intros a c. unfold exec. simpl. by rewrite Hcall.
    + intros (i & Hi & Hs)%status_of_Some.
      unfold step. rewrite (exec_reset_Ok w t iid i) by done. simpl.
      destruct (Hk _ _ Hi) as [<- _]. split; [done|]. split; [|done].
      unfold status_of. simpl. by rewrite lookup_insert_eq.
    + intros s (i & Hi & <-)%status_of_Some Hne.
      unfold exec, borrow_intent. rewrite Hcall, Hi. simpl.
      rewrite reset_to_active_eq. apply N.eqb_neq in Hne. by rewrite Hne.
Qed.

(** The reset of alice's claimed intent, one millisecond after the claim. *)
Lemma C2_recovery_any_time_witness :
  status_of
    (step Scenario.claimed (Scenario.tx Scenario.enclave 2001 (ResetToActive 2))) 2
  = Some STATUS_ACTIVE.
Proof.
  destruct C2_recovery_any_time as (_ & Hw).
  apply (Hw (Scenario.setup ++ [Scenario.tx Scenario.enclave 2000 (MarkExecuting 2)])
            (Scenario.tx Scenario.enclave 2001 (ResetToActive 2)) 2 eq_refl).
  vm_compute. reflexivity.
Defined.

End Registry.

(** * Properties of the trigger evaluation *)
Section Triggers.
Import JS LimitOrders.

Lemma truthy_zero : truthy (of_Z 0) = false.
Proof. unfold truthy, of_Z. rewrite bool_decide_eq_true_2; [done|]. by apply Qc_is_canon. Qed.


Lemma le_of_Z x y : le (of_Z x) (of_Z y) = bool_decide (x ≤ y)%Z.
Proof.
  unfold le, of_Z. apply bool_decide_ext. unfold Qc_of_Z, Qcle. simpl.
  by rewrite <-Zle_Qle.
Qed.


Lemma truthy_of_Z z : truthy (of_Z z) = negb (bool_decide (z = 0%Z)).
Proof.
  unfold truthy, of_Z. f_equal. apply bool_decide_ext. split.
  - intros Hq. apply (Z2Qc_inj z 0). by rewrite Z2Qc_inj_0.
  - intros ->. apply Z2Qc_inj_0.
Qed.

Example triggerType_of_orders :
  triggerType limit buy = PriceBelow ∧ triggerType limit sell = PriceAbove
  ∧ triggerType stop_loss sell = PriceBelow ∧ triggerType stop_loss buy = PriceBelow
  ∧ triggerType take_profit sell = PriceAbove
  ∧ triggerType take_profit buy = PriceAbove.
Proof. by repeat split. Qed.







End Triggers.

(** * Properties of the mock encryption *)
Section MockEncryption.
Import JS Seal.

Example xorCipher_cycles_key :
  xorCipher ["001"; "002"; "003"]%byte ["255"; "015"]%byte
  = ["254"; "013"; "252"]%byte.
Proof. reflexivity. Qed.

Example xorCipher_empty_key : xorCipher ["001"; "002"]%byte [] = ["001"; "002"]%byte.
Proof. reflexivity. Qed.

Example setUint32_le_300 : setUint32_le 300 = ["044"; "001"; "000"; "000"]%byte.
Proof. reflexivity. Qed.

Example getUint32_le_short : getUint32_le ["044"; "001"; "000"]%byte = None.
Proof. reflexivity. Qed.

Example sample_metadata_length :
  length (envelope_metadata MiniJson.stringify MiniJson.encode
            (intentId MiniJson.sample_intent) MiniJson.sample_config 1001) = 124%nat.
Proof. vm_compute. reflexivity. Qed.

Lemma byte_xor_involutive a b : byte_xor (byte_xor a b) b = a.
Proof.
  unfold byte_xor.
  destruct (Byte.to_bits a) as (a0 & a1 & a2 & a3 & a4 & a5 & a6 & a7) eqn:Ha.
  destruct (Byte.to_bits b) as (b0 & b1 & b2 & b3 & b4 & b5 & b6 & b7) eqn:Hb.
  rewrite Byte.to_bits_of_bits.
  rewrite !xorb_assoc, !xorb_nilpotent, !xorb_false_r.
  by rewrite <-Ha, Byte.of_bits_to_bits.
Qed.

Lemma length_xorCipher data key : length (xorCipher data key) = length data.
Proof. apply length_imap. Qed.

(** The cipher undoes itself, under every key, the empty one included. *)
Lemma xorCipher_involutive data key : xorCipher (xorCipher data key) key = data.
Proof.
  apply list_eq. intros i. unfold xorCipher. rewrite !list_lookup_imap.
  destruct (data !! i) as [d|]; simpl; [|done].
  destruct (key !! (i mod length key)%nat) as [k|]; [|done].
  by rewrite byte_xor_involutive.
Qed.

Lemma to_N_byte_of_N n : Byte.to_N (byte_of_N n) = n mod 256.
Proof.
  unfold byte_of_N.
  destruct (Byte.of_N (n mod 256)) as [b|] eqn:Hb; simpl.
  - by apply Byte.to_of_N.
  - apply Byte.of_N_None_iff in Hb.
    pose proof (N.mod_upper_bound n 256). lia.
Qed.

Lemma getUint32_setUint32 n rest :
  n < 2 ^ 32 → getUint32_le (setUint32_le n ++ rest) = Some n.
Proof.
  intros Hn. unfold getUint32_le, setUint32_le. simpl.
  rewrite !to_N_byte_of_N. f_equal.
  change 65536 with (256 * 256). change 16777216 with (256 * 256 * 256).
  rewrite <-!N.Div0.div_div.
  change (2 ^ 32) with (256 * 256 * 256 * 256) in Hn.
  pose proof (N.div_mod n 256). pose proof (N.mod_upper_bound n 256).
  pose proof (N.div_mod (n / 256) 256).
  pose proof (N.mod_upper_bound (n / 256) 256).
  pose proof (N.div_mod (n / 256 / 256) 256).
  pose proof (N.mod_upper_bound (n / 256 / 256) 256).
  pose proof (N.div_mod (n / 256 / 256 / 256) 256).
  pose proof (N.mod_upper_bound (n / 256 / 256 / 256) 256).
  assert (n / 256 / 256 / 256 / 256 = 0) as Hz.
  { rewrite !N.Div0.div_div. by apply N.div_small. }
  rewrite Hz in *. lia.
Qed.

Lemma decrypt_envelope (JSON_parse : string → option json)
    (TextDecoder_decode : list byte → string) metadata plaintext key :
  N.of_nat (length metadata) < 2 ^ 32 →
  decryptMockIntent JSON_parse TextDecoder_decode
    (setUint32_le (N.of_nat (length metadata)) ++ metadata ++ xorCipher plaintext key)
    key
  = JSON_parse (TextDecoder_decode plaintext).
Proof.
  intros Hlen. unfold decryptMockIntent.
  rewrite getUint32_setUint32 by done. simpl.
  rewrite Nat2N.id, drop_app_length, xorCipher_involutive. done.
Qed.

Lemma encryptedBytes_encryptIntentMock (JSON_stringify : json → string)
    (TextEncoder_encode : string → list byte) x config key now1 now2 now3 :
  encryptedBytes
    (encryptIntentMock JSON_stringify TextEncoder_encode x config key now1 now2 now3)
  = setUint32_le
      (N.of_nat (length (envelope_metadata JSON_stringify TextEncoder_encode
                           (intentId x) config now2)))
    ++ envelope_metadata JSON_stringify TextEncoder_encode (intentId x) config now2
    ++ xorCipher (TextEncoder_encode (JSON_stringify (payload x now1))) key.
Proof. reflexivity. Qed.

(** C9.  For every intent whose payload the platform's [JSON] and text
    codecs give back as it was (every intent of strings and finite numbers),
    [decryptMockIntent], applied to the envelope of [encryptIntentMock] and
    to the key it returned as [backupKey], yields the payload object, whose
    fields [pair], [triggerType], [triggerValue], [orderType], [side],
    [quantity], [slippageBps], [expiresAt] and [intentId] are those of the
    intent; the length of the metadata is below 2^32, as the byte length of
    every string of the platform is.  The bytes handed to [TextDecoder] are
    the bytes [TextEncoder] produced: [xorCipher] with the same key undoes
    itself. *)
Theorem C9_mock_roundtrip :
  ∀ (JSON_stringify : json → string) (JSON_parse : string → option json)
    (TextEncoder_encode : string → list byte)
    (TextDecoder_decode : list byte → string)
    (x : IntentData) (config : SealConfig) (key : list byte) (now1 now2 now3 : N),
    platform_roundtrips JSON_stringify JSON_parse TextEncoder_encode
      TextDecoder_decode (payload x now1) →
    N.of_nat (length (envelope_metadata JSON_stringify TextEncoder_encode
                        (intentId x) config now2)) < 2 ^ 32 →
    let r := encryptIntentMock JSON_stringify TextEncoder_encode x config key
               now1 now2 now3 in
    backupKey r = Some key
    ∧ (∃ v, decryptMockIntent JSON_parse TextDecoder_decode (encryptedBytes r) key
            = Some v
          ∧ prop "pair" v = Some (JString (pair x))
          ∧ prop "triggerType" v = Some (json_of_TriggerType (triggerType x))
          ∧ prop "triggerValue" v = Some (JNumber (triggerValue x))
          ∧ prop "orderType" v = Some (json_of_OrderType (orderType x))
          ∧ prop "side" v = Some (json_of_Side (side x))
          ∧ prop "quantity" v = Some (JNumber (quantity x))
          ∧ prop "slippageBps" v = Some (JNumber (slippageBps x))
          ∧ prop "expiresAt" v = Some (JNumber (expiresAt x))
          ∧ prop "intentId" v = Some (JString (intentId x)))
    ∧ (∀ data : list byte, xorCipher (xorCipher data key) key = data).
Proof.
  intros JSON_stringify JSON_parse TextEncoder_encode TextDecoder_decode
    x config key now1 now2 now3 Hrt Hlen r.
  split; [done|]. split; [|intros data; apply xorCipher_involutive].
  exists (payload x now1). split.
  - unfold r. rewrite encryptedBytes_encryptIntentMock.
    rewrite decrypt_envelope by done. exact Hrt.
  - unfold payload, intent_fields. destruct (leverage x); repeat split; reflexivity.
Qed.

(** The sample intent goes through the mock encryption and back, with the
    small printer and parser in the place of the platform's. *)
Lemma C9_mock_roundtrip_witness :
  ∃ v, decryptMockIntent MiniJson.parse MiniJson.decode
         (encryptedBytes
            (encryptIntentMock MiniJson.stringify MiniJson.encode
               MiniJson.sample_intent MiniJson.sample_config MiniJson.sample_key
               1000 1001 1002))
         MiniJson.sample_key = Some v
       ∧ prop "pair" v = Some (JString "SUI_USDC")
       ∧ prop "triggerValue" v = Some (JNumber (of_Z 100)).
Proof.
  destruct (C9_mock_roundtrip MiniJson.stringify MiniJson.parse MiniJson.encode
              MiniJson.decode MiniJson.sample_intent MiniJson.sample_config
              MiniJson.sample_key 1000 1001 1002)
    as (_ & (v & Hv & Hpair & _ & Hvalue & _) & _).
  - vm_compute. reflexivity.
  - vm_compute. reflexivity.
  - exists v. split; [exact Hv|]. split; [exact Hpair | exact Hvalue].
Defined.

End MockEncryption.

(** * The registry, beyond the lifecycle claims *)
Section RegistryCensus.
Import IntentRegistry Ledger Accounting.

Lemma run_app w txs later : run w (txs ++ later) = run (run w txs) later.
Proof. apply foldl_app. Qed.

(** Counting the intents that satisfy [f] after one entry is written. *)
Lemma count_size_insert (f : Intent → bool) (m : gmap ID Intent) k x :
  (size (filter (λ kv : ID * Intent, f kv.2 = true) (<[k:=x]> m))
   + match m !! k with Some y => if f y then 1 else 0 | None => 0 end
   = size (filter (λ kv : ID * Intent, f kv.2 = true) m)
     + (if f x then 1 else 0))%nat.
Proof.
  set (P := λ kv : ID * Intent, f kv.2 = true).
  assert (Hk : filter P m !! k =
            match m !! k with
            | Some y => if f y then Some y else None
            | None => None
            end).
  { destruct (m !! k) as [y|] eqn:Hm.
    - destruct (f y) eqn:Hy.
      + apply map_lookup_filter_Some. done.
      + apply map_lookup_filter_None. right. intros y' ?. simplify_eq.
        unfold P. simpl. congruence.
    - apply map_lookup_filter_None. by left. }
  destruct (f x) eqn:Hx.
  - rewrite map_filter_insert_True by done.
    rewrite map_size_insert, Hk.
    destruct (m !! k) as [y|]; [destruct (f y)|]; simpl; lia.
  - rewrite map_filter_insert_False by (unfold P; simpl; congruence).
    rewrite map_filter_delete, map_size_delete, Hk.
    destruct (m !! k) as [y|] eqn:Hm; [destruct (f y) eqn:Hy|]; simpl; try lia.
    assert (size (filter P m) ≠ 0%nat); [|lia].
    apply (map_size_ne_0_lookup_2 _ k). rewrite Hk. eauto.
Qed.

Lemma count_status_commit s w k r i i' evs :
  intents w !! k = Some i →
  count_status s (commit w k r i' evs) + (if status i =? s then 1 else 0)
  = count_status s w + (if status i' =? s then 1 else 0).
Proof.
  intros Hi. unfold count_status, commit. simpl.
  pose proof (count_size_insert (λ j, status j =? s) (intents w) k i') as H.
  simpl in H. rewrite Hi in H.
  destruct (status i =? s), (status i' =? s); lia.
Qed.

Lemma count_status_fresh s w k x :
  intents w !! k = None →
  N.of_nat (size (filter (λ kv : ID * Intent, (status kv.2 =? s) = true)
                    (<[k:=x]> (intents w))))
  = count_status s w + (if status x =? s then 1 else 0).
Proof.
  intros Hk. unfold count_status.
  pose proof (count_size_insert (λ j, status j =? s) (intents w) k x) as H.
  simpl in H. rewrite Hk in H. destruct (status x =? s); lia.
Qed.

(** Induction over the stores reached from the initial one, with the
    invariants of the lifecycle at hand. *)
Lemma reachable_ind (P : World → Prop) :
  P genesis →
  (∀ w tx w', keys_ok w → counted w → bounded w → P w →
              exec w tx = Ok w' → P w') →
  ∀ txs, P (run genesis txs).
Proof.
  intros H0 Hstep txs.
  cut (keys_ok (run genesis txs) ∧ counted (run genesis txs)
       ∧ bounded (run genesis txs) ∧ P (run genesis txs)); [tauto|].
  apply (run_preserves (λ w, keys_ok w ∧ counted w ∧ bounded w ∧ P w)).
  - apply step_preserves. intros w tx w' (Hk & Hc & Hb & HP) Hex.
    split; [|split; [|split]];
      eauto using keys_ok_exec, counted_exec, bounded_exec.
  - split; [|split; [|split]];
      auto using keys_ok_genesis, counted_genesis, bounded_genesis.
Qed.

Lemma size_commit w k r i i' evs :
  intents w !! k = Some i → size (intents (commit w k r i' evs)) = size (intents w).
Proof. intros Hi. unfold commit. simpl. by apply map_size_insert_Some. Qed.

Lemma census_reachable txs : census (run genesis txs).
Proof.
  apply reachable_ind.
  - unfold census, count_status, genesis. simpl.
    rewrite !map_filter_empty, map_size_empty. done.
  - intros w tx w' Hk Hc Hb (Ht & He & Hsum) Hex. unfold census.
    apply exec_Ok_inv in Hex.
    destruct (tx_call tx) as [data kind tv ph ex|iid|iid|iid p d|iid rs|iid|pk].
    + destruct Hex as (_ & _ & _ & _ & ->). simpl.
      pose proof (keys_ok_fresh w Hk) as Hf.
      unfold count_status at 1 2 3. simpl.
      rewrite !count_status_fresh by done. simpl.
      rewrite map_size_insert_None by done. lia.
    + destruct Hex as (i & Hi & _ & Hs & Ha & ->).
      pose proof (count_status_commit STATUS_EXECUTED w iid
        (set_active (active_intents (registry w) - 1) (registry w)) i
        (set_status STATUS_CANCELLED i)
        [IntentCancelled (uid i) (timestamp_ms (tx_clock tx))] Hi) as H1.
      pose proof (count_status_commit STATUS_CANCELLED w iid
        (set_active (active_intents (registry w) - 1) (registry w)) i
        (set_status STATUS_CANCELLED i)
        [IntentCancelled (uid i) (timestamp_ms (tx_clock tx))] Hi) as H2.
      pose proof (count_status_commit STATUS_FAILED w iid
        (set_active (active_intents (registry w) - 1) (registry w)) i
        (set_status STATUS_CANCELLED i)
        [IntentCancelled (uid i) (timestamp_ms (tx_clock tx))] Hi) as H3.
      rewrite Hs in H1, H2, H3. simpl in H1, H2, H3.
      rewrite (size_commit _ _ _ i) by done. simpl. lia.
    + destruct Hex as (i & Hi & Hs & _ & ->).
      pose proof (count_status_commit STATUS_EXECUTED w iid (registry w) i
        (set_status STATUS_EXECUTING i)
        [IntentExecuting (uid i) (timestamp_ms (tx_clock tx))] Hi) as H1.
      pose proof (count_status_commit STATUS_CANCELLED w iid (registry w) i
        (set_status STATUS_EXECUTING i)
        [IntentExecuting (uid i) (timestamp_ms (tx_clock tx))] Hi) as H2.
      pose proof (count_status_commit STATUS_FAILED w iid (registry w) i
        (set_status STATUS_EXECUTING i)
        [IntentExecuting (uid i) (timestamp_ms (tx_clock tx))] Hi) as H3.
      rewrite Hs in H1, H2, H3. simpl in H1, H2, H3.
      rewrite (size_commit _ _ _ i) by done. simpl. lia.
    + destruct Hex as (i & Hi & Hs & Ha & _ & ->).
      set (r' := set_executed (executed_intents (registry w) + 1)
                   (set_active (active_intents (registry w) - 1) (registry w))).
      set (i' := set_execution (timestamp_ms (tx_clock tx)) p d
                   (set_status STATUS_EXECUTED i)).
      pose proof (count_status_commit STATUS_EXECUTED w iid r' i i'
        [IntentExecuted (uid i) (timestamp_ms (tx_clock tx)) p] Hi) as H1.
      pose proof (count_status_commit STATUS_CANCELLED w iid r' i i'
        [IntentExecuted (uid i) (timestamp_ms (tx_clock tx)) p] Hi) as H2.
      pose proof (count_status_commit STATUS_FAILED w iid r' i i'
        [IntentExecuted (uid i) (timestamp_ms (tx_clock tx)) p] Hi) as H3.
      rewrite Hs in H1, H2, H3. simpl in H1, H2, H3.
      rewrite (size_commit _ _ _ i) by done. simpl. lia.
    + destruct Hex as (i & Hi & Hs & Ha & ->).
      pose proof (count_status_commit STATUS_EXECUTED w iid
        (set_active (active_intents (registry w) - 1) (registry w)) i
        (set_status STATUS_FAILED i)
        [IntentFailed (uid i) (timestamp_ms (tx_clock tx)) rs] Hi) as H1.
      pose proof (count_status_commit STATUS_CANCELLED w iid
        (set_active (active_intents (registry w) - 1) (registry w)) i
        (set_status STATUS_FAILED i)
        [IntentFailed (uid i) (timestamp_ms (tx_clock tx)) rs] Hi) as H2.
      pose proof (count_status_commit STATUS_FAILED w iid
        (set_active (active_intents (registry w) - 1) (registry w)) i
        (set_status STATUS_FAILED i)
        [IntentFailed (uid i) (timestamp_ms (tx_clock tx)) rs] Hi) as H3.
      rewrite Hs in H1, H2, H3. simpl in H1, H2, H3.
      rewrite (size_commit _ _ _ i) by done. simpl. lia.
    + destruct Hex as (i & Hi & Hs & ->).
      pose proof (count_status_commit STATUS_EXECUTED w iid (registry w) i
        (set_status STATUS_ACTIVE i) [] Hi) as H1.
      pose proof (count_status_commit STATUS_CANCELLED w iid (registry w) i
        (set_status STATUS_ACTIVE i) [] Hi) as H2.
      pose proof (count_status_commit STATUS_FAILED w iid (registry w) i
        (set_status STATUS_ACTIVE i) [] Hi) as H3.
      rewrite Hs in H1, H2, H3. simpl in H1, H2, H3.
      rewrite (size_commit _ _ _ i) by done. simpl. lia.
    + subst w'. done.
Qed.

Lemma count_events_app k w r m c evs n :
  count_events k {| registry := r; intents := m; caps := c;
                    events := events w ++ evs; next_id := n |}
  = count_events k w + N.of_nat (length (filter (λ ev, event_kind ev = k) evs)).
Proof. unfold count_events. simpl. rewrite filter_app, length_app. lia. Qed.

Lemma event_census_reachable txs : event_census (run genesis txs).
Proof.
  apply reachable_ind.
  - unfold event_census, count_events, genesis. simpl. done.
  - intros w tx w' Hk Hc Hb (Ht & He & Hsum) Hex. unfold event_census.
    apply exec_Ok_inv in Hex.
    destruct (tx_call tx) as [data kind tv ph ex|iid|iid|iid p d|iid rs|iid|pk].
    + destruct Hex as (_ & _ & _ & _ & ->).
      rewrite !count_events_app. simpl. lia.
    + destruct Hex as (i & Hi & _ & Hs & Ha & ->). unfold commit.
      rewrite !count_events_app. simpl. lia.
    + destruct Hex as (i & Hi & Hs & _ & ->). unfold commit.
      rewrite !count_events_app. simpl. lia.
    + destruct Hex as (i & Hi & Hs & Ha & _ & ->). unfold commit.
      rewrite !count_events_app. simpl. lia.
    + destruct Hex as (i & Hi & Hs & Ha & ->). unfold commit.
      rewrite !count_events_app. simpl. lia.
    + destruct Hex as (i & Hi & Hs & ->). unfold commit.
      rewrite !count_events_app. simpl. lia.
    + subst w'. done.
Qed.

Lemma statuses_assigned_reachable txs : statuses_assigned (run genesis txs).
Proof.
  apply reachable_ind.
  - intros k i. unfold genesis. simpl. by rewrite lookup_empty.
  - intros w tx w' Hk Hc Hb Ha Hex k i'.
    apply exec_Ok_inv in Hex.
    destruct (tx_call tx) as [data kind tv ph ex|iid|iid|iid p d|iid rs|iid|pk].
    + destruct Hex as (_ & _ & _ & _ & ->). simpl.
      rewrite lookup_insert. case_decide; [by intros [= <-]|apply Ha].
    + destruct Hex as (i & Hi & _ & Hs & _ & ->). unfold commit. simpl.
      rewrite lookup_insert. case_decide; [by intros [= <-]|apply Ha].
    + destruct Hex as (i & Hi & Hs & _ & ->). unfold commit. simpl.
      rewrite lookup_insert. case_decide; [by intros [= <-]|apply Ha].
    + destruct Hex as (i & Hi & Hs & _ & _ & ->). unfold commit. simpl.
      rewrite lookup_insert. case_decide; [by intros [= <-]|apply Ha].
    + destruct Hex as (i & Hi & Hs & _ & ->). unfold commit. simpl.
      rewrite lookup_insert. case_decide; [by intros [= <-]|apply Ha].
    + destruct Hex as (i & Hi & Hs & ->). unfold commit. simpl.
      rewrite lookup_insert. case_decide; [by intros [= <-]|apply Ha].
    + subst w'. apply Ha.
Qed.

(** ** What a transaction leaves of an intent *)

Lemma same_terms_refl i : same_terms i i.
Proof. by repeat split. Qed.

Lemma same_terms_trans i j k : same_terms i j → same_terms j k → same_terms i k.
Proof. unfold same_terms. intros ? ?. intuition congruence. Qed.

Lemma terms_exec w tx w' k i :
  keys_ok w → exec w tx = Ok w' → intents w !! k = Some i →
  ∃ i', intents w' !! k = Some i' ∧ same_terms i i'.
Proof.
  intros Hk Hex Hi0. apply exec_Ok_inv in Hex.
  destruct (tx_call tx) as [data kind tv ph ex|iid|iid|iid p d|iid rs|iid|pk].
  - destruct Hex as (_ & _ & _ & _ & ->). simpl. exists i.
    split; [|apply same_terms_refl]. rewrite lookup_insert_ne; [done|].
    intros <-. by rewrite keys_ok_fresh in Hi0.
  - destruct Hex as (j & Hj & _ & _ & _ & ->). unfold commit. simpl.
    rewrite lookup_insert. case_decide.
    + simplify_eq. eexists. split; [done|]. by repeat split.
    + exists i. split; [done|apply same_terms_refl].
  - destruct Hex as (j & Hj & _ & _ & ->). unfold commit. simpl.
    rewrite lookup_insert. case_decide.
    + simplify_eq. eexists. split; [done|]. by repeat split.
    + exists i. split; [done|apply same_terms_refl].
  - destruct Hex as (j & Hj & _ & _ & _ & ->). unfold commit. simpl.
    rewrite lookup_insert. case_decide.
    + simplify_eq. eexists. split; [done|]. by repeat split.
    + exists i. split; [done|apply same_terms_refl].
  - destruct Hex as (j & Hj & _ & _ & ->). unfold commit. simpl.
    rewrite lookup_insert. case_decide.
    + simplify_eq. eexists. split; [done|]. by repeat split.
    + exists i. split; [done|apply same_terms_refl].
  - destruct Hex as (j & Hj & _ & ->). unfold commit. simpl.
    rewrite lookup_insert. case_decide.
    + simplify_eq. eexists. split; [done|]. by repeat split.
    + exists i. split; [done|apply same_terms_refl].
  - subst w'. exists i. split; [done|apply same_terms_refl].
Qed.

Lemma terms_run later :
  ∀ w k i, keys_ok w → intents w !! k = Some i →
  ∃ i', intents (run w later) !! k = Some i' ∧ same_terms i i'.
Proof.
  induction later as [|t later IH]; intros w k i Hk Hi; simpl.
  - exists i. split; [done|apply same_terms_refl].
  - assert (∃ i1, intents (step w t) !! k = Some i1 ∧ same_terms i i1)
      as (i1 & Hi1 & Hs1).
    { unfold step. destruct (exec w t) as [w'|] eqn:Hex.
      - by eapply terms_exec.
      - exists i. split; [done|apply same_terms_refl]. }
    destruct (IH (step w t) k i1 (keys_ok_step _ t Hk) Hi1) as (i' & Hi' & Hs').
    exists i'. split; [done|]. by eapply same_terms_trans.
Qed.

Lemma live_is_active_plus_executing w :
  live_count w = count_status STATUS_ACTIVE w + count_status STATUS_EXECUTING w.
Proof.
  unfold live_count, count_status.
  induction (intents w) as [|k x m Hk IH] using map_ind.
  - by rewrite !map_filter_empty, map_size_empty.
  - pose proof (count_size_insert is_live m k x) as H1.
    pose proof (count_size_insert (λ j, status j =? STATUS_ACTIVE) m k x) as H2.
    pose proof (count_size_insert (λ j, status j =? STATUS_EXECUTING) m k x) as H3.
    simpl in H1, H2, H3. rewrite Hk in H1, H2, H3.
    unfold is_live in *.
    destruct (N.eqb_spec (status x) STATUS_ACTIVE) as [Ha|Ha];
      destruct (N.eqb_spec (status x) STATUS_EXECUTING) as [He|He];
      simpl in *; try lia.
    rewrite Ha in He. done.
Qed.

(** ** The counters, the store and the event log *)

(** X1. In every store reached from the initial one, [total_intents] is the
    number of intents in the store: every successful [create_intent] adds
    one intent, and no function removes or replaces an intent. *)
Theorem X1_total_is_store_size :
  ∀ txs : list Tx,
    total_intents (registry (run genesis txs))
    = N.of_nat (size (intents (run genesis txs))).
Proof. intros txs. apply census_reachable. Qed.

(** X2. In every store reached from the initial one, [executed_intents] is
    the number of intents in status Executed, and the three counters read by
    [get_stats] account for every intent: [total_intents] is
    [active_intents] plus [executed_intents] plus the number of Cancelled
    and of Failed intents. *)
Theorem X2_stats_account_for_every_intent :
  ∀ txs : list Tx,
    let w := run genesis txs in
    executed_intents (registry w) = count_status STATUS_EXECUTED w
    ∧ total_intents (registry w)
      = active_intents (registry w) + executed_intents (registry w)
        + count_status STATUS_CANCELLED w + count_status STATUS_FAILED w
    ∧ active_intents (registry w)
      = count_status STATUS_ACTIVE w + count_status STATUS_EXECUTING w.
Proof.
  intros txs w. destruct (census_reachable txs) as (Ht & He & Hsum).
  split; [done|]. split; [done|].
  destruct (reachable_inv txs) as (_ & Hc & _). fold w in Hc. rewrite Hc.
  apply live_is_active_plus_executing.
Qed.

(** X3. The event log accounts for the counters: in every store reached from
    the initial one, [total_intents] is the number of [IntentCreated]
    events, [executed_intents] the number of [IntentExecuted] events, and
    [active_intents] the number of [IntentCreated] events less the
    [IntentCancelled], [IntentExecuted] and [IntentFailed] events. *)
Theorem X3_events_account_for_counters :
  ∀ txs : list Tx,
    let w := run genesis txs in
    total_intents (registry w) = count_events Created w
    ∧ executed_intents (registry w) = count_events Executed w
    ∧ count_events Created w
      = active_intents (registry w) + count_events Cancelled w
        + count_events Executed w + count_events Failed w.
Proof. intros txs. apply event_census_reachable. Qed.

(** X4. No transaction changes the identifier, the owner, the encrypted
    data, the creation and expiry times, the trigger or the pair hash of an
    intent: an intent of a store reached from the initial one is still
    there, with the same eight fields, after any further transactions. *)
Theorem X4_intent_terms_never_change :
  ∀ (txs later : list Tx) (k : ID) (i : Intent),
    intents (run genesis txs) !! k = Some i →
    ∃ i', intents (run (run genesis txs) later) !! k = Some i'
          ∧ same_terms i i'.
Proof.
  intros txs later k i Hi. destruct (reachable_inv txs) as (Hk & _).
  by apply terms_run.
Qed.

(** Alice's intent after it was claimed and finalized. *)
Lemma X4_intent_terms_never_change_witness :
  ∃ i', intents
          (run Scenario.created
             [Scenario.tx Scenario.enclave 2000 (MarkExecuting 2);
              Scenario.tx Scenario.enclave 2600 (MarkExecuted 2 95 [])]) !! 2
        = Some i'
        ∧ owner i' = Scenario.alice ∧ expires_at i' = 5000.
Proof.
  destruct (X4_intent_terms_never_change Scenario.setup
              [Scenario.tx Scenario.enclave 2000 (MarkExecuting 2);
               Scenario.tx Scenario.enclave 2600 (MarkExecuted 2 95 [])] 2
              {| uid := 2; owner := Scenario.alice; encrypted_data := ["170"%byte];
                 created_at := 1000; expires_at := 5000; status := STATUS_ACTIVE;
                 trigger_type := TRIGGER_PRICE_BELOW; trigger_value := 100;
                 pair_hash := []; executed_at := None; executed_price := None;
                 tx_digest := None |})
    as (i' & Hi' & Hterms).
  - vm_compute. reflexivity.
  - exists i'. destruct Hterms as (_ & Ho & _ & _ & He & _).
    split; [exact Hi'|]. split; [by rewrite <-Ho | by rewrite <-He].
Defined.

(** X5. The status Expired is never stored: every intent of a store reached
    from the initial one is Active, Executing, Executed, Cancelled or
    Failed, also after its expiry time has passed. *)
Theorem X5_expired_is_never_stored :
  ∀ (txs : list Tx) (k : ID) (i : Intent),
    intents (run genesis txs) !! k = Some i →
    assigned_status (status i) = true ∧ status i ≠ STATUS_EXPIRED.
Proof.
  intros txs k i Hi. apply statuses_assigned_reachable in Hi.
  split; [done|]. intros Hs. by rewrite Hs in Hi.
Qed.

(** Alice's intent at 9000, after its expiry at 5000 and a refused claim. *)
Lemma X5_expired_is_never_stored_witness :
  status_of (run Scenario.created [Scenario.tx Scenario.enclave 9000 (MarkExecuting 2)]) 2
  = Some STATUS_ACTIVE
  ∧ STATUS_ACTIVE ≠ STATUS_EXPIRED.
Proof.
  split; [vm_compute; reflexivity|].
  apply (X5_expired_is_never_stored
           (Scenario.setup ++ [Scenario.tx Scenario.enclave 9000 (MarkExecuting 2)]) 2
           {| uid := 2; owner := Scenario.alice; encrypted_data := ["170"%byte];
              created_at := 1000; expires_at := 5000; status := STATUS_ACTIVE;
              trigger_type := TRIGGER_PRICE_BELOW; trigger_value := 100;
              pair_hash := []; executed_at := None; executed_price := None;
              tx_digest := None |}).
  vm_compute. reflexivity.
Defined.

(** ** Failure, recovery and expiry *)

Lemma terminal_stays_run later :
  ∀ w k s, keys_ok w → status_of w k = Some s → terminal s = true →
  status_of (run w later) k = Some s.
Proof.
  induction later as [|t later IH]; intros w k s Hk Hs Ht; simpl; [done|].
  apply IH; [by apply keys_ok_step| |done].
  destruct (follows_Some w t k s Hk Hs) as (s' & Hs' & [-> | He]); [done|].
  apply edge_not_terminal in He. congruence.
Qed.

Lemma step_run w t : step w t = run w [t].
Proof. reflexivity. Qed.

(** X6. [mark_failed] (finalize_failure) stops with [EInvalidStatus] on every
    intent that is not Executing, and the store stays as it was.  On an
    Executing intent of a store reached from the initial one it succeeds:
    [active_intents] is one less, [total_intents] and [executed_intents] are
    unchanged, one [IntentFailed] event with the reason is emitted, and the
    intent is Failed, with empty execution fields, after any further
    transactions: it never becomes Active again. *)
Theorem X6_finalize_failure :
  ∀ (txs : list Tx) (t : Tx) (iid : ID) (rs : bytes) (s : u8),
    tx_call t = MarkFailed iid rs →
    status_of (run genesis txs) iid = Some s →
    let w := run genesis txs in
    if s =? STATUS_EXECUTING then
      is_ok (exec w t) = true
      ∧ active_intents (registry (step w t)) + 1 = active_intents (registry w)
      ∧ total_intents (registry (step w t)) = total_intents (registry w)
      ∧ executed_intents (registry (step w t)) = executed_intents (registry w)
      ∧ events (step w t)
        = events w ++ [IntentFailed iid (timestamp_ms (tx_clock t)) rs]
      ∧ ∀ later : list Tx,
          ∃ i', intents (run (step w t) later) !! iid = Some i'
                ∧ status i' = STATUS_FAILED ∧ execution_empty i' = true
    else
      exec w t = Fail (MoveAbort EInvalidStatus) ∧ step w t = w.
Proof.
  intros txs t iid rs s Hcall Hs w.
  destruct (reachable_inv txs) as (Hk & Hc & Hb & _). fold w in Hk, Hc, Hb.
  pose proof Hs as (i & Hi & Hsi)%status_of_Some. fold w in Hi.
  destruct (N.eqb_spec s STATUS_EXECUTING) as [->|Hne].
  - pose proof (exec_mark_failed_Ok w t iid rs i Hc Hcall Hi Hsi) as Hex.
    assert (1 ≤ active_intents (registry w)) as Ha.
    { rewrite Hc. eapply live_count_pos; [done|]. unfold is_live. by rewrite Hsi. }
    destruct (Hk _ _ Hi) as [Hu _].
    assert (status_of (step w t) iid = Some STATUS_FAILED) as Hst.
    { unfold step. rewrite Hex. rewrite status_of_commit. by rewrite decide_True. }
    unfold step at 1 2 3 4. rewrite Hex. simpl.
    split; [done|]. split; [lia|]. split; [done|]. split; [done|].
    split; [by rewrite Hu|].
    intros later.
    pose proof (terminal_stays_run later (step w t) iid STATUS_FAILED
                  (keys_ok_step _ t Hk) Hst eq_refl) as (i' & Hi' & Hs')%status_of_Some.
    exists i'. split; [done|]. split; [done|].
    destruct (reachable_inv (txs ++ t :: later)) as (_ & _ & _ & Hr).
    rewrite run_app in Hr. simpl in Hr. fold w in Hr.
    apply Hr in Hi'. by rewrite Hs' in Hi'.
  - assert (exec w t = Fail (MoveAbort EInvalidStatus)) as Hex.
    { unfold exec, borrow_intent. rewrite Hcall, Hi. simpl.
      rewrite mark_failed_eq. subst s. apply N.eqb_neq in Hne. by rewrite Hne. }
    split; [done|]. unfold step. by rewrite Hex.
Qed.

(** The claimed intent of alice fails at 2600 and stays Failed when it is
    reset and claimed again. *)
Lemma X6_finalize_failure_witness :
  ∃ i', intents
          (run (step Scenario.claimed
                  (Scenario.tx Scenario.enclave 2600 (MarkFailed 2 ["001"%byte])))
             [Scenario.tx Scenario.enclave 2700 (ResetToActive 2);
              Scenario.tx Scenario.enclave 2800 (MarkExecuting 2)]) !! 2
        = Some i'
        ∧ status i' = STATUS_FAILED ∧ execution_empty i' = true.
Proof.
  pose proof (X6_finalize_failure
                (Scenario.setup ++ [Scenario.tx Scenario.enclave 2000 (MarkExecuting 2)])
                (Scenario.tx Scenario.enclave 2600 (MarkFailed 2 ["001"%byte]))
                2 ["001"%byte] STATUS_EXECUTING eq_refl) as H.
  simpl in H. destruct H as (_ & _ & _ & _ & _ & Hlater).
  - vm_compute. reflexivity.
  - apply Hlater.
Defined.

(** X7. Recovery composes with the rest of the lifecycle: in a store reached
    from the initial one, an Executing intent that is reset with
    [reset_to_active], claimed again before its expiry and then finalized
    with [mark_executed] ends Executed, with the price of the second
    execution; all three calls succeed, [active_intents] is one less and
    [executed_intents] one more than before the reset. *)
Theorem X7_recovered_intent_completes :
  ∀ (txs : list Tx) (t1 t2 t3 : Tx) (iid : ID) (i : Intent) (p : u64) (d : bytes),
    intents (run genesis txs) !! iid = Some i →
    status i = STATUS_EXECUTING →
    tx_call t1 = ResetToActive iid →
    tx_call t2 = MarkExecuting iid →
    timestamp_ms (tx_clock t2) < expires_at i →
    tx_call t3 = MarkExecuted iid p d →
    let w := run genesis txs in
    is_ok (exec w t1) = true
    ∧ is_ok (exec (run w [t1]) t2) = true
    ∧ is_ok (exec (run w [t1; t2]) t3) = true
    ∧ status_of (run w [t1; t2; t3]) iid = Some STATUS_EXECUTED
    ∧ executed_price <$> intents (run w [t1; t2; t3]) !! iid = Some (Some p)
    ∧ active_intents (registry (run w [t1; t2; t3])) + 1
      = active_intents (registry w)
    ∧ executed_intents (registry (run w [t1; t2; t3]))
      = executed_intents (registry w) + 1.
Proof.
  intros txs t1 t2 t3 iid i p d Hi Hs Hc1 Hc2 Hlt Hc3 w. fold w in Hi.
  destruct (reachable_inv txs) as (Hk & Hc & Hb & _). fold w in Hk, Hc, Hb.
  pose proof (exec_reset_Ok w t1 iid i Hc1 Hi Hs) as Hex1.
  set (w1 := commit w iid (registry w) (set_status STATUS_ACTIVE i) []) in *.
  assert (run w [t1] = w1) as Hw1 by (simpl; unfold step; by rewrite Hex1).
  assert (intents w1 !! iid = Some (set_status STATUS_ACTIVE i)) as Hi1
    by (unfold w1, commit; simpl; apply lookup_insert_eq).
  pose proof (exec_mark_executing_Ok w1 t2 iid _ Hc2 Hi1 eq_refl Hlt) as Hex2.
  set (w2 := commit w1 iid (registry w1)
               (set_status STATUS_EXECUTING (set_status STATUS_ACTIVE i))
               [IntentExecuting (uid (set_status STATUS_ACTIVE i))
                  (timestamp_ms (tx_clock t2))]) in *.
  assert (run w [t1; t2] = w2) as Hw2.
  { change (run w [t1; t2]) with (step (run w [t1]) t2).
    rewrite Hw1. unfold step. by rewrite Hex2. }
  assert (intents w2 !! iid
          = Some (set_status STATUS_EXECUTING (set_status STATUS_ACTIVE i))) as Hi2
    by (unfold w2, commit; simpl; apply lookup_insert_eq).
  destruct (reachable_inv (txs ++ [t1; t2])) as (_ & Hc' & Hb' & _).
  rewrite run_app in Hc', Hb'. fold w in Hc', Hb'. rewrite Hw2 in Hc', Hb'.
  pose proof (exec_mark_executed_Ok w2 t3 iid p d _ Hc' Hb' Hc3 Hi2 eq_refl) as Hex3.
  assert (1 ≤ active_intents (registry w)) as Ha.
  { rewrite Hc. eapply live_count_pos; [done|]. unfold is_live. by rewrite Hs. }
  rewrite Hw1, Hw2.
  change (run w [t1; t2; t3]) with (step (run w [t1; t2]) t3).
  rewrite Hw2. unfold step. rewrite Hex1, Hex2, Hex3. simpl.
  split; [done|]. split; [done|]. split; [done|].
  unfold status_of. simpl. rewrite !lookup_insert_eq. simpl.
  split; [done|]. split; [done|]. split; [lia|done].
Qed.

(** Alice's claimed intent is reset at 2700, claimed again at 2800 and
    finalized at 2900 at the price 94. *)
Lemma X7_recovered_intent_completes_witness :
  status_of
    (run Scenario.claimed
       [Scenario.tx Scenario.enclave 2700 (ResetToActive 2);
        Scenario.tx Scenario.enclave 2800 (MarkExecuting 2);
        Scenario.tx Scenario.enclave 2900 (MarkExecuted 2 94 [])]) 2
  = Some STATUS_EXECUTED.
Proof.
  apply (X7_recovered_intent_completes
           (Scenario.setup ++ [Scenario.tx Scenario.enclave 2000 (MarkExecuting 2)])
           (Scenario.tx Scenario.enclave 2700 (ResetToActive 2))
           (Scenario.tx Scenario.enclave 2800 (MarkExecuting 2))
           (Scenario.tx Scenario.enclave 2900 (MarkExecuted 2 94 [])) 2
           {| uid := 2; owner := Scenario.alice; encrypted_data := ["170"%byte];
              created_at := 1000; expires_at := 5000; status := STATUS_EXECUTING;
              trigger_type := TRIGGER_PRICE_BELOW; trigger_value := 100;
              pair_hash := []; executed_at := None; executed_price := None;
              tx_digest := None |} 94 []);
    first [reflexivity | vm_compute; reflexivity].
Defined.

(** X8. A transaction on a store reached from the initial one appends to the
    event log exactly the events of [emitted] when its call succeeds, and
    nothing when it fails: one event with the identifier of the intent for
    [create_intent], [cancel_intent], [mark_executing], [mark_executed] and
    [mark_failed], and none for [reset_to_active], although it changes the
    status of the intent. *)
Theorem X8_events_of_a_transaction :
  ∀ (txs : list Tx) (t : Tx),
    let w := run genesis txs in
    events (step w t) = events w ++ (if is_ok (exec w t) then emitted w t else [])
    ∧ (∀ iid, tx_call t = ResetToActive iid →
         status_of w iid = Some STATUS_EXECUTING →
         status_of (step w t) iid = Some STATUS_ACTIVE
         ∧ events (step w t) = events w).
Proof.
  intros txs t w. destruct (reachable_inv txs) as (Hk & _). fold w in Hk.
  split.
  - unfold step, emitted. destruct (exec w t) as [w'|] eqn:Hex; simpl;
      [|by rewrite app_nil_r].
    apply exec_Ok_inv in Hex.
    destruct (tx_call t) as [data kind tv ph ex|j|j|j p d|j rs|j|pk].
    + by destruct Hex as (_ & _ & _ & _ & ->).
    + destruct Hex as (i & Hi & _ & _ & _ & ->). simpl.
      by destruct (Hk _ _ Hi) as [-> _].
    + destruct Hex as (i & Hi & _ & _ & ->). simpl.
      by destruct (Hk _ _ Hi) as [-> _].
    + destruct Hex as (i & Hi & _ & _ & _ & ->). simpl.
      by destruct (Hk _ _ Hi) as [-> _].
    + destruct Hex as (i & Hi & _ & _ & ->). simpl.
      by destruct (Hk _ _ Hi) as [-> _].
    + by destruct Hex as (i & Hi & _ & ->).
    + subst w'. simpl. by rewrite app_nil_r.
  - intros iid Hcall (i & Hi & Hs)%status_of_Some.
    unfold step. rewrite (exec_reset_Ok w t iid i Hcall Hi Hs). simpl.
    split; [|by rewrite app_nil_r].
    unfold status_of. simpl. by rewrite lookup_insert_eq.
Qed.

(** The reset of alice's claimed intent leaves the event log as it was. *)
Lemma X8_events_of_a_transaction_witness :
  status_of (step Scenario.claimed (Scenario.tx Scenario.enclave 2700 (ResetToActive 2))) 2
  = Some STATUS_ACTIVE
  ∧ events (step Scenario.claimed (Scenario.tx Scenario.enclave 2700 (ResetToActive 2)))
    = events Scenario.claimed.
Proof.
  apply (X8_events_of_a_transaction
           (Scenario.setup ++ [Scenario.tx Scenario.enclave 2000 (MarkExecuting 2)])
           (Scenario.tx Scenario.enclave 2700 (ResetToActive 2))).
  - reflexivity.
  - vm_compute. reflexivity.
Defined.

Lemma expired_active_stays w t iid i :
  keys_ok w → intents w !! iid = Some i → status i = STATUS_ACTIVE →
  expires_at i ≤ timestamp_ms (tx_clock t) →
  cancels iid (owner i) t = false →
  intents (step w t) !! iid = Some i.
Proof.
  intros Hk Hi Hs Hexp Hcan. unfold step.
  destruct (exec w t) as [w'|] eqn:Hex; [|done].
  apply exec_Ok_inv in Hex. unfold cancels in Hcan.
  destruct (tx_call t) as [data kind tv ph ex|j|j|j p d|j rs|j|pk].
  - destruct Hex as (_ & _ & _ & _ & ->). simpl.
    rewrite lookup_insert_ne; [done|]. intros <-. by rewrite keys_ok_fresh in Hi.
  - destruct Hex as (i' & Hi' & Ho & _ & _ & ->). unfold commit. simpl.
    rewrite lookup_insert_ne; [done|]. intros ->. simplify_eq.
    by rewrite Ho, !N.eqb_refl in Hcan.
  - destruct Hex as (i' & Hi' & _ & Hlt & ->). unfold commit. simpl.
    rewrite lookup_insert_ne; [done|]. intros ->. simplify_eq. lia.
  - destruct Hex as (i' & Hi' & Hs' & _ & _ & ->). unfold commit. simpl.
    rewrite lookup_insert_ne; [done|]. intros ->. simplify_eq.
    by rewrite Hs in Hs'.
  - destruct Hex as (i' & Hi' & Hs' & _ & ->). unfold commit. simpl.
    rewrite lookup_insert_ne; [done|]. intros ->. simplify_eq.
    by rewrite Hs in Hs'.
  - destruct Hex as (i' & Hi' & Hs' & ->). unfold commit. simpl.
    rewrite lookup_insert_ne; [done|]. intros ->. simplify_eq.
    by rewrite Hs in Hs'.
  - by subst w'.
Qed.

Lemma expired_active_stays_run later :
  ∀ w iid i, keys_ok w → intents w !! iid = Some i → status i = STATUS_ACTIVE →
  Forall (λ t, expires_at i ≤ timestamp_ms (tx_clock t)
               ∧ cancels iid (owner i) t = false) later →
  intents (run w later) !! iid = Some i.
Proof.
  induction later as [|t later IH]; intros w iid i Hk Hi Hs Hall; simpl; [done|].
  inversion Hall as [|?? [Hexp Hcan] Hall']; subst.
  apply IH; [by apply keys_ok_step| |done|done].
  by apply expired_active_stays.
Qed.

(** X9. Expiry is never written: an Active intent whose expiry time has
    passed stays in the store exactly as it is, Active and counted in
    [active_intents], through all transactions at or after its expiry that
    are not its cancellation by its owner.  Claims of it fail, and no
    function moves it to Expired. *)
Theorem X9_expired_intent_stays_active :
  ∀ (txs later : list Tx) (iid : ID) (i : Intent),
    intents (run genesis txs) !! iid = Some i →
    status i = STATUS_ACTIVE →
    Forall (λ t, expires_at i ≤ timestamp_ms (tx_clock t)
                 ∧ cancels iid (owner i) t = false) later →
    intents (run (run genesis txs) later) !! iid = Some i
    ∧ 1 ≤ active_intents (registry (run (run genesis txs) later)).
Proof.
  intros txs later iid i Hi Hs Hall.
  destruct (reachable_inv txs) as (Hk & _).
  pose proof (expired_active_stays_run later _ iid i Hk Hi Hs Hall) as Hi'.
  split; [done|].
  destruct (reachable_inv (txs ++ later)) as (_ & Hc & _).
  rewrite run_app in Hc. rewrite Hc.
  eapply live_count_pos; [done|]. unfold is_live. by rewrite Hs.
Qed.

(** Alice's intent expired at 5000: a claim at 6000, a cancellation by
    mallory and a reset leave it Active. *)
Lemma X9_expired_intent_stays_active_witness :
  status_of
    (run Scenario.created
       [Scenario.tx Scenario.enclave 6000 (MarkExecuting 2);
        Scenario.tx Scenario.mallory 6100 (CancelIntent 2);
        Scenario.tx Scenario.enclave 6200 (ResetToActive 2)]) 2
  = Some STATUS_ACTIVE.
Proof.
  destruct (X9_expired_intent_stays_active Scenario.setup
              [Scenario.tx Scenario.enclave 6000 (MarkExecuting 2);
               Scenario.tx Scenario.mallory 6100 (CancelIntent 2);
               Scenario.tx Scenario.enclave 6200 (ResetToActive 2)] 2
              {| uid := 2; owner := Scenario.alice; encrypted_data := ["170"%byte];
                 created_at := 1000; expires_at := 5000; status := STATUS_ACTIVE;
                 trigger_type := TRIGGER_PRICE_BELOW; trigger_value := 100;
                 pair_hash := []; executed_at := None; executed_price := None;
                 tx_digest := None |}) as [Hi _].
  - vm_compute. reflexivity.
  - reflexivity.
  - repeat constructor; vm_compute; congruence.
  - unfold status_of. change Scenario.created with (run genesis Scenario.setup).
    by rewrite Hi.
Defined.

(** ** The enclave capability *)

(** X10. No function reads an [EnclaveCap]: on two stores that differ at most
    in the capabilities created, every transaction has the same outcome,
    the same failure or two stores that again differ at most in the
    capabilities. *)
Theorem X10_capabilities_are_never_read :
  ∀ (w1 w2 : World) (t : Tx),
    same_but_caps w1 w2 →
    match exec w1 t, exec w2 t with
    | Ok w1', Ok w2' => same_but_caps w1' w2'
    | Fail f1, Fail f2 => f1 = f2
    | _, _ => False
    end.
Proof.
  intros [r1 m1 c1 e1 n1] [r2 m2 c2 e2 n2] t (Hr & Hm & He & Hn).
  simpl in *. subst r2 m2 e2 n2.
  unfold exec, borrow_intent, commit, same_but_caps. simpl.
  destruct (tx_call t) as [data kind tv ph ex|j|j|j p d|j rs|j|pk]; simpl.
  - by destruct (create_intent r1 data kind tv ph ex (tx_clock t) _)
      as [[[[r i] ev] ctx']|].
  - destruct (m1 !! j) as [i|]; simpl; [|done].
    by destruct (cancel_intent r1 i (tx_clock t) _) as [[[r i'] ev]|].
  - destruct (m1 !! j) as [i|]; simpl; [|done].
    by destruct (mark_executing i (tx_clock t)) as [[i' ev]|].
  - destruct (m1 !! j) as [i|]; simpl; [|done].
    by destruct (mark_executed r1 i p d (tx_clock t)) as [[[r i'] ev]|].
  - destruct (m1 !! j) as [i|]; simpl; [|done].
    by destruct (mark_failed r1 i rs (tx_clock t)) as [[[r i'] ev]|].
  - destruct (m1 !! j) as [i|]; simpl; [|done].
    by destruct (reset_to_active i) as [i'|].
  - done.
Qed.

(** The claim of alice's intent, in the store of the scenario and in a store
    where alice herself created a capability with an empty key. *)
Lemma X10_capabilities_are_never_read_witness :
  match
    exec (run genesis
            [Scenario.tx Scenario.alice 1000 (CreateEnclaveCap []);
             Scenario.tx Scenario.alice 1000
               (CreateIntent ["170"%byte] TRIGGER_PRICE_BELOW 100 [] 5000)])
      (Scenario.tx Scenario.enclave 2000 (MarkExecuting 2)),
    exec Scenario.created (Scenario.tx Scenario.enclave 2000 (MarkExecuting 2))
  with
  | Ok w1', Ok w2' => same_but_caps w1' w2'
  | Fail f1, Fail f2 => f1 = f2
  | _, _ => False
  end.
Proof.
  apply X10_capabilities_are_never_read.
  vm_compute. repeat split; reflexivity.
Defined.

(** ** The arithmetic of the counters *)

(** X24. The counters never leave [u64] on the way down: on a store reached
    from the initial one, no call of [cancel_intent], [mark_executing],
    [mark_executed], [mark_failed], [reset_to_active] or
    [create_enclave_cap] stops on its arithmetic, and [create_intent] does
    only when [total_intents] has reached the largest [u64]. *)
Theorem X24_counters_stay_in_range :
  ∀ (txs : list Tx) (t : Tx),
    total_intents (registry (run genesis txs)) < U64_MAX
    ∨ is_create (tx_call t) = false →
    arithmetic_failure (exec (run genesis txs) t) = false.
Proof.
  intros txs t Hroom.
  destruct (reachable_inv txs) as (Hk & Hc & [Hb Hmax] & _).
  set (w := run genesis txs) in *.
  assert (∀ k i, intents w !! k = Some i → is_live i = true →
                 (1 <=? active_intents (registry w)) = true) as Hpos.
  { intros k i Hi Hl. apply N.leb_le. rewrite Hc. by eapply live_count_pos. }
  unfold exec, borrow_intent.
  destruct (tx_call t) as [data kind tv ph ex|iid|iid|iid p d|iid rs|iid|pk]; simpl.
  - destruct Hroom as [Hroom|]; [|done].
    rewrite create_intent_eq.
    assert ((total_intents (registry w) + 1 <=? U64_MAX) = true) as ->
      by (apply N.leb_le; lia).
    assert ((active_intents (registry w) + 1 <=? U64_MAX) = true) as ->
      by (apply N.leb_le; lia).
    by repeat case_match.
  - destruct (intents w !! iid) as [i|] eqn:Hi; [|done]. simpl.
    rewrite cancel_intent_eq.
    destruct (_ =? owner i); [|done].
    destruct (status i =? STATUS_ACTIVE) eqn:Hs; [|done].
    rewrite (Hpos iid i Hi); [done|]. unfold is_live. by rewrite Hs.
  - destruct (intents w !! iid) as [i|] eqn:Hi; [|done]. simpl.
    rewrite mark_executing_eq. by repeat case_match.
  - destruct (intents w !! iid) as [i|] eqn:Hi; [|done]. simpl.
    rewrite mark_executed_eq.
    destruct (status i =? STATUS_EXECUTING) eqn:Hs; [|done].
    assert ((1 <=? active_intents (registry w)) = true) as Ha.
    { apply (Hpos iid i Hi). unfold is_live. by rewrite Hs, orb_true_r. }
    rewrite Ha. apply N.leb_le in Ha.
    assert ((executed_intents (registry w) + 1 <=? U64_MAX) = true) as ->
      by (apply N.leb_le; lia).
    done.
  - destruct (intents w !! iid) as [i|] eqn:Hi; [|done]. simpl.
    rewrite mark_failed_eq.
    destruct (status i =? STATUS_EXECUTING) eqn:Hs; [|done].
    rewrite (Hpos iid i Hi); [done|]. unfold is_live. by rewrite Hs, orb_true_r.
  - destruct (intents w !! iid) as [i|] eqn:Hi; [|done]. simpl.
    rewrite reset_to_active_eq. by case_match.
  - done.
Qed.

(** The cancellation of alice's intent by alice. *)
Lemma X24_counters_stay_in_range_witness :
  arithmetic_failure
    (exec Scenario.created (Scenario.tx Scenario.alice 1500 (CancelIntent 2)))
  = false.
Proof.
  apply (X24_counters_stay_in_range Scenario.setup
           (Scenario.tx Scenario.alice 1500 (CancelIntent 2))).
  left. vm_compute. reflexivity.
Defined.

End RegistryCensus.

(** * Properties of the seal policy *)
Section SealPolicyFacts.
Import Seal SealPolicy.

Example signed_message_example :
  signed_message ["001"; "002"]%byte 258
  = ["001"; "002"; "002"; "001"; "000"; "000"; "000"; "000"; "000"; "000"]%byte.
Proof. reflexivity. Qed.

Lemma signed_message_eq id ts :
  signed_message id ts
  = id ++ [ as_u8 (N.land ts 255);
            as_u8 (N.land (N.shiftr ts 8) 255);
            as_u8 (N.land (N.shiftr (N.shiftr ts 8) 8) 255);
            as_u8 (N.land (N.shiftr (N.shiftr (N.shiftr ts 8) 8) 8) 255);
            as_u8 (N.land (N.shiftr (N.shiftr (N.shiftr (N.shiftr ts 8) 8) 8) 8) 255);
            as_u8 (N.land (N.shiftr (N.shiftr (N.shiftr (N.shiftr
                     (N.shiftr ts 8) 8) 8) 8) 8) 255);
            as_u8 (N.land (N.shiftr (N.shiftr (N.shiftr (N.shiftr (N.shiftr
                     (N.shiftr ts 8) 8) 8) 8) 8) 8) 255);
            as_u8 (N.land (N.shiftr (N.shiftr (N.shiftr (N.shiftr (N.shiftr
                     (N.shiftr (N.shiftr ts 8) 8) 8) 8) 8) 8) 8) 255) ].
Proof.
  unfold signed_message. cbn [append_timestamp app].
  change (0 <? 8) with true. change (0 + 1 <? 8) with true.
  change (0 + 1 + 1 <? 8) with true. change (0 + 1 + 1 + 1 <? 8) with true.
  change (0 + 1 + 1 + 1 + 1 <? 8) with true.
  change (0 + 1 + 1 + 1 + 1 + 1 <? 8) with true.
  change (0 + 1 + 1 + 1 + 1 + 1 + 1 <? 8) with true.
  change (0 + 1 + 1 + 1 + 1 + 1 + 1 + 1 <? 8) with true.
  change (0 + 1 + 1 + 1 + 1 + 1 + 1 + 1 + 1 <? 8) with false.
  cbv iota. by rewrite <-!app_assoc.
Qed.

Lemma to_N_as_u8_low x : Byte.to_N (as_u8 (N.land x 255)) = x mod 256.
Proof.
  unfold as_u8. rewrite to_N_byte_of_N.
  change 255 with (N.ones 8). rewrite N.land_ones.
  change (2 ^ 8) with 256. by rewrite N.Div0.mod_mod.
Qed.

Lemma le_decode_timestamp id ts :
  ts < 2 ^ 64 → le_decode (drop (length id) (signed_message id ts)) = ts.
Proof.
  intros Hts. rewrite signed_message_eq, drop_app_length.
  unfold le_decode. cbn [foldr].
  rewrite !to_N_as_u8_low, !N.shiftr_div_pow2. change (2 ^ 8) with 256.
  change (2 ^ 64) with (256 * 256 * 256 * 256 * 256 * 256 * 256 * 256) in Hts.
  assert (ts / 256 / 256 / 256 / 256 / 256 / 256 / 256 / 256 = 0) as Hz.
  { rewrite !N.Div0.div_div. by apply N.div_small. }
  pose proof (N.div_mod ts 256). pose proof (N.mod_upper_bound ts 256).
  pose proof (N.div_mod (ts / 256) 256).
  pose proof (N.mod_upper_bound (ts / 256) 256).
  pose proof (N.div_mod (ts / 256 / 256) 256).
  pose proof (N.mod_upper_bound (ts / 256 / 256) 256).
  pose proof (N.div_mod (ts / 256 / 256 / 256) 256).
  pose proof (N.mod_upper_bound (ts / 256 / 256 / 256) 256).
  pose proof (N.div_mod (ts / 256 / 256 / 256 / 256) 256).
  pose proof (N.mod_upper_bound (ts / 256 / 256 / 256 / 256) 256).
  pose proof (N.div_mod (ts / 256 / 256 / 256 / 256 / 256) 256).
  pose proof (N.mod_upper_bound (ts / 256 / 256 / 256 / 256 / 256) 256).
  pose proof (N.div_mod (ts / 256 / 256 / 256 / 256 / 256 / 256) 256).
  pose proof (N.mod_upper_bound (ts / 256 / 256 / 256 / 256 / 256 / 256) 256).
  pose proof (N.div_mod (ts / 256 / 256 / 256 / 256 / 256 / 256 / 256) 256).
  pose proof (N.mod_upper_bound (ts / 256 / 256 / 256 / 256 / 256 / 256 / 256) 256).
  rewrite Hz in *. lia.
Qed.

(** X11. The message the enclave signs for [seal_approve] is the intent
    identifier followed by exactly eight bytes, and these eight bytes are
    the timestamp, lowest byte first: decoded little-endian they give back
    every timestamp of 64 bits. *)
Theorem X11_signed_message_layout :
  ∀ (id : bytes) (ts : u64),
    ts < 2 ^ 64 →
    length (signed_message id ts) = (length id + 8)%nat
    ∧ take (length id) (signed_message id ts) = id
    ∧ le_decode (drop (length id) (signed_message id ts)) = ts.
Proof.
  intros id ts Hts. rewrite signed_message_eq. split; [|split].
  - rewrite length_app. done.
  - by rewrite take_app_length.
  - rewrite <-signed_message_eq. by apply le_decode_timestamp.
Qed.

(** The message for the identifier [1; 2] at the timestamp 1700000000000. *)
Lemma X11_signed_message_layout_witness :
  le_decode (drop 2 (signed_message ["001"; "002"]%byte 1700000000000))
  = 1700000000000.
Proof.
  apply (X11_signed_message_layout ["001"; "002"]%byte 1700000000000).
  reflexivity.
Defined.

(** X12. Two requests are signed with the same message only when they name
    the same intent identifier and the same timestamp: the message
    determines both. *)
Theorem X12_signed_message_injective :
  ∀ (id1 id2 : bytes) (ts1 ts2 : u64),
    ts1 < 2 ^ 64 → ts2 < 2 ^ 64 →
    signed_message id1 ts1 = signed_message id2 ts2 →
    id1 = id2 ∧ ts1 = ts2.
Proof.
  intros id1 id2 ts1 ts2 H1 H2 Heq.
  assert (length id1 = length id2) as Hlen.
  { apply (f_equal length) in Heq. rewrite !signed_message_eq, !length_app in Heq.
    simpl in Heq. lia. }
  assert (id1 = id2) as ->.
  { apply (f_equal (take (length id1))) in Heq.
    rewrite Hlen in Heq at 2. rewrite !signed_message_eq in Heq.
    by rewrite !take_app_length in Heq. }
  split; [done|].
  apply (f_equal (λ m, le_decode (drop (length id2) m))) in Heq.
  by rewrite !le_decode_timestamp in Heq.
Qed.

(** The message of the identifier [1; 2] at 258 is its own only. *)
Lemma X12_signed_message_injective_witness :
  ["001"; "002"]%byte = ["001"; "002"]%byte ∧ 258 = 258.
Proof.
  apply (X12_signed_message_injective ["001"; "002"]%byte ["001"; "002"]%byte 258 258);
    reflexivity.
Defined.

(** X13. For a configuration made by [register_enclave] with the key [pk],
    [seal_approve] approves a request exactly when the identifier is not
    empty, the wallet key presented is [pk] and the signature verifies
    under [pk] over the identifier followed by the timestamp.  The order of
    the failures is [EInvalidId], [ESenderMismatch], [EInvalidSignature];
    the timestamp is compared with no clock, and [ETimestampExpired] is
    never raised. *)
Theorem X13_seal_approve :
  ∀ (verify : bytes → bytes → bytes → bool) (pk name pcr0 : bytes)
    (ctx0 : TxContext) (id signature wallet_pk : bytes) (ts : u64)
    (ctx : TxContext),
    let config := (register_enclave pk name pcr0 ctx0).1.1 in
    let result := seal_approve verify id config signature wallet_pk ts ctx in
    (result = Ok tt ↔
       id ≠ [] ∧ wallet_pk = pk ∧ verify signature pk (signed_message id ts) = true)
    ∧ (id = [] → result = Fail (MoveAbort EInvalidId))
    ∧ (id ≠ [] → wallet_pk ≠ pk → result = Fail (MoveAbort ESenderMismatch))
    ∧ (id ≠ [] → wallet_pk = pk →
       verify signature pk (signed_message id ts) = false →
       result = Fail (MoveAbort EInvalidSignature))
    ∧ Ledger.failed_with result ETimestampExpired = false.
Proof.
  intros verify pk nm pcr0 ctx0 id sig wpk ts ctx config result.
  unfold result, seal_approve, config, register_enclave, Move.assert. simpl.
  destruct id as [|b id]; simpl.
  { repeat split; try done. intros (? & _); done. }
  destruct (decide (wpk = pk)) as [->|Hne].
  - rewrite bool_decide_eq_true_2 by done. simpl.
    destruct (verify sig pk (signed_message (b :: id) ts)) eqn:Hv; simpl;
      repeat split; try done. intros (_ & _ & ?); done.
  - rewrite bool_decide_eq_false_2 by done. simpl.
    repeat split; try done. intros (_ & ? & _); done.
Qed.

End SealPolicyFacts.

(** * Properties of the mock envelope *)
Section SealVerifyFacts.
Import JS Seal SealVerify.
Local Open Scope string_scope.

Lemma truthy_threshold_or_2 config : truthy (threshold_or_2 config) = true.
Proof.
  unfold threshold_or_2. destruct (threshold config) as [t|]; [|by rewrite truthy_of_Z].
  destruct (truthy t) eqn:Ht; [done | by rewrite truthy_of_Z].
Qed.

Lemma byte_xor_cancel a b : byte_xor (byte_xor a b) a = b.
Proof.
  unfold byte_xor.
  destruct (Byte.to_bits a) as (a0 & a1 & a2 & a3 & a4 & a5 & a6 & a7) eqn:Ha.
  destruct (Byte.to_bits b) as (b0 & b1 & b2 & b3 & b4 & b5 & b6 & b7) eqn:Hb.
  rewrite Byte.to_bits_of_bits.
  rewrite !(xorb_comm _ b0), !(xorb_comm _ b1), !(xorb_comm _ b2),
    !(xorb_comm _ b3), !(xorb_comm _ b4), !(xorb_comm _ b5),
    !(xorb_comm _ b6), !(xorb_comm _ b7).
  rewrite !xorb_assoc, !xorb_nilpotent, !xorb_false_r.
  by rewrite <-Hb, Byte.of_bits_to_bits.
Qed.

Lemma createMockEncryptedObject_envelope (JSON_stringify : json → string)
    (TextEncoder_encode : string → list byte) plaintext intentId config key now :
  createMockEncryptedObject JSON_stringify TextEncoder_encode plaintext intentId
    config key now
  = (envelope (envelope_metadata JSON_stringify TextEncoder_encode intentId
                 config now) (xorCipher plaintext key), key).
Proof. reflexivity. Qed.

Lemma length_envelope metadata ciphertext :
  length (envelope metadata ciphertext)
  = (4 + length metadata + length ciphertext)%nat.
Proof. unfold envelope. rewrite !length_app. simpl. lia. Qed.

Lemma slice_envelope metadata ciphertext :
  slice 4 (4 + length metadata) (envelope metadata ciphertext) = metadata.
Proof.
  unfold slice, envelope.
  replace (4 + length metadata - 4)%nat with (length metadata) by lia.
  unfold setUint32_le. cbn [app drop]. by rewrite drop_0, take_app_length.
Qed.

Lemma getUint32_envelope metadata ciphertext :
  N.of_nat (length metadata) < 2 ^ 32 →
  getUint32_le (envelope metadata ciphertext) = Some (N.of_nat (length metadata)).
Proof. intros Hlen. unfold envelope. by apply getUint32_setUint32. Qed.

Section Platform.
Variable JSON_stringify : json → string.
Variable JSON_parse : string → option json.
Variable TextEncoder_encode : string → list byte.
Variable TextDecoder_decode : list byte → string.

(** What [isValidSealEncryption] looks at in an envelope. *)
Lemma isValidSealEncryption_envelope metadata ciphertext :
  N.of_nat (length metadata) < 2 ^ 32 →
  isValidSealEncryption JSON_parse TextDecoder_decode (envelope metadata ciphertext)
  = if (length metadata <? 10)%nat then false
    else default false (
      v ← JSON_parse (TextDecoder_decode metadata);
      version ← member "version" v;
      if typeof_number version
      then intentId ← member "intentId" v; Some (typeof_string intentId)
      else Some false).
Proof.
  intros Hlen. unfold isValidSealEncryption.
  rewrite length_envelope, getUint32_envelope by done.
  cbn [mbind option_bind].
  assert ((Z.of_nat (4 + length metadata + length ciphertext) - 4
           <? Z.of_N (N.of_nat (length metadata)))%Z = false) as ->
    by (apply Z.ltb_ge; lia).
  destruct (Nat.ltb_spec (length metadata) 10) as [Hshort|Hlong].
  - assert ((N.of_nat (length metadata) <? 10)%N = true) as ->
      by (apply N.ltb_lt; lia).
    by destruct (_ <? 8)%nat.
  - assert ((N.of_nat (length metadata) <? 10)%N = false) as ->
      by (apply N.ltb_ge; lia).
    assert ((4 + length metadata + length ciphertext <? 8)%nat = false) as ->
      by (apply Nat.ltb_ge; lia).
    by rewrite Nat2N.id, slice_envelope.
Qed.

Lemma decryptMockIntent_envelope metadata ciphertext key :
  N.of_nat (length metadata) < 2 ^ 32 →
  decryptMockIntent JSON_parse TextDecoder_decode (envelope metadata ciphertext) key
  = JSON_parse (TextDecoder_decode (xorCipher ciphertext key)).
Proof.
  intros Hlen. unfold decryptMockIntent.
  rewrite getUint32_envelope by done. simpl.
  unfold envelope, setUint32_le. cbn [app drop].
  by rewrite Nat2N.id, drop_app_length.
Qed.

End Platform.

(** X14. Whatever the environment and the configuration, [encryptIntent]
    returns what [encryptIntentMock] returns: the result says that the
    encryption is not real and hands out the key.  The envelope is one that
    [isValidSealEncryption] accepts, when the platform gives the metadata
    back from its serialization, in at least ten bytes and fewer than
    2^32. *)
Theorem X14_encryptIntent_is_mock :
  ∀ (JSON_stringify : json → string) (JSON_parse : string → option json)
    (TextEncoder_encode : string → list byte)
    (TextDecoder_decode : list byte → string)
    (env : Env) (x : IntentData) (config : option SealConfig)
    (key : list byte) (now1 now2 now3 : N),
    platform_roundtrips JSON_stringify JSON_parse TextEncoder_encode
      TextDecoder_decode
      (envelope_metadata_object (intentId x)
         (default (getDefaultSealConfig env) config) now2) →
    10 ≤ N.of_nat (length (envelope_metadata JSON_stringify TextEncoder_encode
             (intentId x) (default (getDefaultSealConfig env) config) now2))
       < 2 ^ 32 →
    let r := encryptIntent JSON_stringify TextEncoder_encode env x config key
               now1 now2 now3 in
    r = encryptIntentMock JSON_stringify TextEncoder_encode x
          (default (getDefaultSealConfig env) config) key now1 now2 now3
    ∧ isRealEncryption (verification r) = false
    ∧ encryptionMethod (verification r) = mock
    ∧ backupKey r = Some key
    ∧ isValidSealEncryption JSON_parse TextDecoder_decode (encryptedBytes r) = true.
Proof.
  intros JSON_stringify JSON_parse TextEncoder_encode TextDecoder_decode
    env x config key now1 now2 now3 Hrt [Hlo Hhi] r.
  assert (r = encryptIntentMock JSON_stringify TextEncoder_encode x
                (default (getDefaultSealConfig env) config) key now1 now2 now3)
    as ->.
  { unfold r, encryptIntent, encryptIntentReal.
    destruct config as [c|]; simpl; by destruct (_ && _). }
  split; [done|]. split; [done|]. split; [done|]. split; [done|].
  change (encryptedBytes (encryptIntentMock _ _ _ ?c _ _ _ _))
    with (envelope
            (envelope_metadata JSON_stringify TextEncoder_encode (intentId x) c now2)
            (xorCipher (TextEncoder_encode (JSON_stringify (payload x now1))) key)).
  rewrite isValidSealEncryption_envelope by done.
  destruct (Nat.ltb_spec (length (envelope_metadata JSON_stringify
    TextEncoder_encode (intentId x) (default (getDefaultSealConfig env) config)
    now2)) 10) as [Hshort|_]; [lia|].
  unfold platform_roundtrips in Hrt.
  change (envelope_metadata JSON_stringify TextEncoder_encode (intentId x) ?c now2)
    with (TextEncoder_encode (JSON_stringify
            (envelope_metadata_object (intentId x) c now2))).
  by rewrite Hrt.
Qed.

(** With the policy package configured, in a browser, and no configuration
    given: the envelope of the sample intent is accepted. *)
Lemma X14_encryptIntent_is_mock_witness :
  let r := encryptIntent MiniJson.stringify MiniJson.encode sample_env
             MiniJson.sample_intent None MiniJson.sample_key 1000 1001 1002 in
  r = encryptIntentMock MiniJson.stringify MiniJson.encode MiniJson.sample_intent
        (default (getDefaultSealConfig sample_env) None) MiniJson.sample_key
        1000 1001 1002
  ∧ isRealEncryption (verification r) = false
  ∧ encryptionMethod (verification r) = mock
  ∧ backupKey r = Some MiniJson.sample_key
  ∧ isValidSealEncryption MiniJson.parse MiniJson.decode (encryptedBytes r) = true.
Proof.
  apply (X14_encryptIntent_is_mock MiniJson.stringify MiniJson.parse
           MiniJson.encode MiniJson.decode sample_env MiniJson.sample_intent None
           MiniJson.sample_key 1000 1001 1002).
  - vm_compute. reflexivity.
  - split; vm_compute; [discriminate | reflexivity].
Defined.

(** X15. What [parseEncryptedObject] reads from an envelope of
    [encryptIntentMock]: the identifier of the intent and the package of the
    configuration (['unknown'] and ['0x0'] in the place of an empty string),
    the threshold of the result, three key servers on either network, and
    as the length of the ciphertext the number of bytes of the serialized
    intent. *)
Theorem X15_parseEncryptedObject_of_mock :
  ∀ (JSON_stringify : json → string) (JSON_parse : string → option json)
    (TextEncoder_encode : string → list byte)
    (TextDecoder_decode : list byte → string)
    (x : IntentData) (config : SealConfig) (key : list byte) (now1 now2 now3 : N),
    platform_roundtrips JSON_stringify JSON_parse TextEncoder_encode
      TextDecoder_decode (envelope_metadata_object (intentId x) config now2) →
    N.of_nat (length (envelope_metadata JSON_stringify TextEncoder_encode
                        (intentId x) config now2)) < 2 ^ 32 →
    let r := encryptIntentMock JSON_stringify TextEncoder_encode x config key
               now1 now2 now3 in
    let package :=
      JString (if String.eqb (policyPackageId config) "" then "0x0"
               else policyPackageId config) in
    parseEncryptedObject JSON_parse TextDecoder_decode (encryptedBytes r)
    = Some {| info_id :=
                JString (if String.eqb (intentId x) "" then "unknown"
                         else intentId x);
              info_packageId := package;
              info_threshold := JNumber (v_threshold (verification r));
              services := [(package, JNumber (of_Z 3))];
              ciphertextLength :=
                Z.of_nat (length (TextEncoder_encode
                                    (JSON_stringify (payload x now1)))) |}.
Proof.
  intros JSON_stringify JSON_parse TextEncoder_encode TextDecoder_decode
    x config key now1 now2 now3 Hrt Hlen r package.
  set (m := envelope_metadata JSON_stringify TextEncoder_encode (intentId x)
              config now2) in *.
  set (plaintext := TextEncoder_encode (JSON_stringify (payload x now1))).
  assert (JSON_parse (TextDecoder_decode m)
          = Some (envelope_metadata_object (intentId x) config now2)) as Hm
    by exact Hrt.
  change (encryptedBytes r) with (envelope m (xorCipher plaintext key)).
  change (v_threshold (verification r)) with (threshold_or_2 config).
  unfold parseEncryptedObject.
  rewrite getUint32_envelope by done. cbn [mbind option_bind].
  rewrite Nat2N.id, slice_envelope, length_envelope, length_xorCipher, Hm.
  cbn [mbind option_bind].
  unfold envelope_metadata_object, member, prop.
  cbn [get_field String.eqb Ascii.eqb Bool.eqb].
  cbn [mbind option_bind].
  unfold or_default, truthy_value.
  rewrite truthy_threshold_or_2.
  rewrite truthy_of_Z.
  f_equal. unfold package.
  assert ((Z.of_nat (4 + length m + length plaintext) - 4
           - Z.of_N (N.of_nat (length m)))%Z = Z.of_nat (length plaintext))
    as -> by lia.
  destruct (String.eqb (intentId x) ""), (String.eqb (policyPackageId config) ""),
    (network config); reflexivity.
Qed.

(** The sample intent on the main network, which has no key servers. *)
Lemma X15_parseEncryptedObject_of_mock_witness :
  services <$>
    parseEncryptedObject MiniJson.parse MiniJson.decode
      (encryptedBytes
         (encryptIntentMock MiniJson.stringify MiniJson.encode
            MiniJson.sample_intent (getDefaultSealConfig sample_env)
            MiniJson.sample_key 1000 1001 1002))
  = Some [(JString "0xabc", JNumber (of_Z 3))].
Proof.
  rewrite (X15_parseEncryptedObject_of_mock MiniJson.stringify MiniJson.parse
             MiniJson.encode MiniJson.decode MiniJson.sample_intent
             (getDefaultSealConfig sample_env) MiniJson.sample_key 1000 1001 1002).
  - reflexivity.
  - vm_compute. reflexivity.
  - vm_compute. reflexivity.
Defined.

(** An envelope behind four other bytes of its buffer: [decryptMockIntent]
    takes the length from those four bytes, and returns [null] where the
    same bytes in an array of their own decrypt. *)
Example decryptMockIntent_subarray :
  let envelope_bytes :=
    envelope ["001"; "002"]%byte
      (xorCipher (MiniJson.encode "{}") ["004"]%byte) in
  let whole := (["200"; "000"; "000"; "000"]%byte ++ envelope_bytes)%list in
  TypedArrays.elements (TypedArrays.subarray 4 whole) = envelope_bytes
  ∧ TypedArrays.decryptMockIntent MiniJson.parse MiniJson.decode
      (TypedArrays.subarray 4 whole) ["004"]%byte = None
  ∧ TypedArrays.decryptMockIntent MiniJson.parse MiniJson.decode
      (TypedArrays.of_bytes envelope_bytes) ["004"]%byte = Some (JObject []).
Proof. vm_compute. by repeat split. Qed.

Lemma elements_of_bytes bs : TypedArrays.elements (TypedArrays.of_bytes bs) = bs.
Proof. unfold TypedArrays.elements, TypedArrays.of_bytes. simpl. by rewrite drop_0, firstn_all. Qed.

(** On an array that starts at the first byte of its buffer the length is
    that of the envelope. *)
Lemma decryptMockIntent_window (JSON_parse : string → option json)
    (TextDecoder_decode : list byte → string)
    (encrypted : TypedArrays.Uint8Array) metadata ciphertext key :
  N.of_nat (length metadata) < 2 ^ 32 →
  TypedArrays.byteOffset encrypted = 0%nat →
  TypedArrays.elements encrypted = envelope metadata ciphertext →
  TypedArrays.decryptMockIntent JSON_parse TextDecoder_decode encrypted key
  = JSON_parse (TextDecoder_decode (xorCipher ciphertext key)).
Proof.
  intros Hlen Hoff Hel. unfold TypedArrays.decryptMockIntent.
  assert (getUint32_le (TypedArrays.buffer encrypted)
          = Some (N.of_nat (length metadata))) as ->.
  { unfold TypedArrays.elements in Hel. rewrite Hoff, drop_0 in Hel.
    rewrite <-(take_drop (TypedArrays.array_length encrypted)
                 (TypedArrays.buffer encrypted)), Hel.
    unfold envelope. rewrite <-!app_assoc. by apply getUint32_setUint32. }
  cbn [mbind option_bind]. rewrite Hel, Nat2N.id.
  unfold envelope, setUint32_le. cbn [app drop Nat.add].
  by rewrite drop_app_length.
Qed.

(** X16. The two halves of an envelope are read apart.  Whether
    [isValidSealEncryption] accepts an envelope does not depend on the
    ciphertext.  What [decryptMockIntent] returns for an array that starts
    at the first byte of its buffer, as every array of its own does, is the
    parse of the decrypted ciphertext and does not depend on the metadata:
    other metadata of fewer than 2^32 bytes in front of the same ciphertext
    decrypt to the same value.  (For an array further inside its buffer
    [decryptMockIntent] takes the length from the first bytes of the
    buffer.) *)
Theorem X16_envelope_halves_unrelated :
  ∀ (JSON_parse : string → option json) (TextDecoder_decode : list byte → string)
    (metadata metadata' ciphertext ciphertext' key : list byte)
    (encrypted encrypted' : TypedArrays.Uint8Array),
    N.of_nat (length metadata) < 2 ^ 32 →
    N.of_nat (length metadata') < 2 ^ 32 →
    TypedArrays.byteOffset encrypted = 0%nat →
    TypedArrays.elements encrypted = envelope metadata ciphertext →
    TypedArrays.byteOffset encrypted' = 0%nat →
    TypedArrays.elements encrypted' = envelope metadata' ciphertext →
    isValidSealEncryption JSON_parse TextDecoder_decode (envelope metadata ciphertext)
    = isValidSealEncryption JSON_parse TextDecoder_decode
        (envelope metadata ciphertext')
    ∧ TypedArrays.decryptMockIntent JSON_parse TextDecoder_decode encrypted key
      = JSON_parse (TextDecoder_decode (xorCipher ciphertext key))
    ∧ TypedArrays.decryptMockIntent JSON_parse TextDecoder_decode encrypted' key
      = TypedArrays.decryptMockIntent JSON_parse TextDecoder_decode encrypted key.
Proof.
  intros JSON_parse TextDecoder_decode metadata metadata' ciphertext ciphertext'
    key encrypted encrypted' Hlen Hlen' Hoff Hel Hoff' Hel'. split; [|split].
  - by rewrite !isValidSealEncryption_envelope.
  - by apply (decryptMockIntent_window _ _ _ metadata).
  - rewrite (decryptMockIntent_window _ _ _ metadata' ciphertext) by done.
    by rewrite (decryptMockIntent_window _ _ _ metadata ciphertext).
Qed.

(** Two envelopes of a few bytes, each an array of its own. *)
Lemma X16_envelope_halves_unrelated_witness :
  isValidSealEncryption MiniJson.parse MiniJson.decode
    (envelope ["001"; "002"]%byte ["003"]%byte)
  = isValidSealEncryption MiniJson.parse MiniJson.decode
      (envelope ["001"; "002"]%byte [])
  ∧ TypedArrays.decryptMockIntent MiniJson.parse MiniJson.decode
      (TypedArrays.of_bytes (envelope ["001"; "002"]%byte ["003"]%byte))
      ["004"]%byte
    = MiniJson.parse (MiniJson.decode (xorCipher ["003"]%byte ["004"]%byte))
  ∧ TypedArrays.decryptMockIntent MiniJson.parse MiniJson.decode
      (TypedArrays.of_bytes (envelope [] ["003"]%byte)) ["004"]%byte
    = TypedArrays.decryptMockIntent MiniJson.parse MiniJson.decode
        (TypedArrays.of_bytes (envelope ["001"; "002"]%byte ["003"]%byte))
        ["004"]%byte.
Proof.
  apply (X16_envelope_halves_unrelated MiniJson.parse MiniJson.decode
           ["001"; "002"]%byte [] ["003"]%byte [] ["004"]%byte
           (TypedArrays.of_bytes (envelope ["001"; "002"]%byte ["003"]%byte))
           (TypedArrays.of_bytes (envelope [] ["003"]%byte)));
    vm_compute; reflexivity.
Defined.

(** X17. [xorCipher] gives its key away: the ciphertext run through the
    cipher again with the plaintext as the key starts with the key, when
    the plaintext is no shorter than the key. *)
Theorem X17_key_from_known_plaintext :
  ∀ plaintext key : list byte,
    (length key ≤ length plaintext)%nat →
    take (length key) (xorCipher (xorCipher plaintext key) plaintext) = key.
Proof.
  intros plaintext key Hlen. apply list_eq. intros i.
  destruct (decide (i < length key)%nat) as [Hi|Hi].
  - rewrite lookup_take_lt by done. unfold xorCipher.
    rewrite !list_lookup_imap.
    destruct (lookup_lt_is_Some_2 plaintext i) as [p Hp]; [lia|].
    destruct (lookup_lt_is_Some_2 key i) as [k Hk]; [done|].
    rewrite Hp. simpl.
    rewrite !Nat.mod_small by lia. rewrite Hk, Hp.
    by rewrite byte_xor_cancel.
  - rewrite lookup_take_ge by lia. symmetry. apply lookup_ge_None. lia.
Qed.

(** The sample key, of thirty-two bytes, from the bytes of a plaintext of
    forty. *)
Lemma X17_key_from_known_plaintext_witness :
  take 32
    (xorCipher (xorCipher (replicate 40 "065"%byte) MiniJson.sample_key)
       (replicate 40 "065"%byte))
  = MiniJson.sample_key.
Proof.
  apply (X17_key_from_known_plaintext (replicate 40 "065"%byte) MiniJson.sample_key).
  vm_compute. lia.
Defined.

End SealVerifyFacts.

(** * Properties of the limit-order page *)
Section OrderPageFacts.
Import JS LimitOrders OrderPage.
Local Open Scope string_scope.

Example addLog_example :
  addLog "10:00:00" "Order cancelled" ["a"; "b"]
  = ["a"; "b"; "[10:00:00] Order cancelled"].
Proof. reflexivity. Qed.

Example new_order_id_example : new_order_id 1700000000000 = "order_1700000000000".
Proof. reflexivity. Qed.

Lemma slice_last_snoc {A} (l : list A) x :
  (slice_last 19 (slice_last 20 l) ++ [x])%list = slice_last 20 (l ++ [x]).
Proof.
  unfold slice_last. rewrite length_drop, drop_drop, length_app. simpl.
  rewrite drop_app_le by lia. do 2 f_equal. lia.
Qed.

Lemma length_slice_last {A} n (l : list A) :
  length (slice_last n l) = (length l `min` n)%nat.
Proof. unfold slice_last. rewrite length_drop. lia. Qed.

Lemma newPrices_lookup fetchPrice p :
  newPrices fetchPrice !! p
  = if bool_decide (p ∈ POOLS_keys)
    then Some (match fetchPrice p with Some price => price | None => of_Z 0 end)
    else None.
Proof.
  unfold newPrices, POOLS_keys. cbn [foldl].
  destruct (decide (p = "DBUSDC_DBUSDT")) as [->|H3].
  { rewrite lookup_insert. rewrite bool_decide_eq_true_2; [done|]. set_solver. }
  rewrite lookup_insert_ne by done.
  destruct (decide (p = "DEEP_SUI")) as [->|H2].
  { rewrite lookup_insert. rewrite bool_decide_eq_true_2; [done|]. set_solver. }
  rewrite lookup_insert_ne by done.
  destruct (decide (p = "SUI_USDC")) as [->|H1].
  { rewrite lookup_insert. rewrite bool_decide_eq_true_2; [done|]. set_solver. }
  rewrite lookup_insert_ne by done.
  rewrite bool_decide_eq_false_2; [done|].
  rewrite !elem_of_cons, elem_of_nil. intros [?|[?|[?|[]]]]; done.
Qed.

Lemma check_order_same newPrices now o : same_order o (check_order newPrices now o).
Proof.
  unfold check_order, same_order.
  destruct (status o); try done.
  destruct (newPrices !! pair o) as [p|]; [|done].
  destruct (truthy p); [|done]. simpl.
  by destruct (shouldTrigger o p).
Qed.

Lemma check_order_status newPrices now o :
  check_order newPrices now o = o
  ∨ status o = pending
    ∧ status (check_order newPrices now o) = triggered
    ∧ triggeredAt (check_order newPrices now o) = Some now.
Proof.
  unfold check_order.
  destruct (status o) eqn:Hs; auto.
  destruct (newPrices !! pair o) as [p|]; auto.
  destruct (truthy p); auto. simpl.
  destruct (shouldTrigger o p); auto.
Qed.

Lemma check_order_well_formed newPrices now o :
  well_formed o → well_formed (check_order newPrices now o).
Proof.
  intros (Ht & Hq & Hp & Htr).
  destruct (check_order_status newPrices now o) as [->|(Hs & Hs' & Hat)]; [done|].
  destruct (check_order_same newPrices now o) as (_ & _ & _ & _ & Ht' & Hq' & _).
  unfold well_formed. rewrite Ht', Hq', Hs', Hat.
  split; [done|]. split; [done|]. split; [done|]. by eexists.
Qed.

Lemma with_status_well_formed s o :
  s ≠ pending → s ≠ triggered → well_formed o → well_formed (with_status s o).
Proof.
  intros Hp Htr (Ht & Hq & _ & _). unfold well_formed. simpl.
  split; [done|]. split; [done|]. split; intros; done.
Qed.

Lemma handle_well_formed orders e :
  Forall well_formed orders → Forall well_formed (handle orders e).
Proof.
  intros Hwf.
  destruct e as [fetchPrice now|account trigger qty selectedPair sd orderType
                  submitted now1 now2|account order submitted
                 |account order submitted]; simpl.
  - unfold check_orders. apply Forall_fmap.
    eapply Forall_impl; [exact Hwf|]. intros o. apply check_order_well_formed.
  - unfold createOrder. destruct account; [|done]. simpl.
    destruct (isNaN trigger || le trigger (of_Z 0)) eqn:Ht; [done|].
    destruct (isNaN qty || le qty (of_Z 0)) eqn:Hq; [done|].
    destruct submitted; [|done].
    apply orb_false_iff in Ht, Hq.
    apply Forall_app. split; [done|]. apply Forall_singleton.
    unfold well_formed, positive. simpl.
    split; [done|]. split; [done|]. split; [done|]. intros; done.
  - unfold cancelOrder. destruct account; [|done]. destruct submitted; [|done].
    simpl. apply Forall_fmap. eapply Forall_impl; [exact Hwf|]. intros o Ho. simpl.
    destruct (String.eqb _ _); [|done]. by apply with_status_well_formed.
  - unfold executeOrder. destruct account; [|done]. destruct submitted; [|done].
    simpl. apply Forall_fmap. eapply Forall_impl; [exact Hwf|]. intros o Ho. simpl.
    destruct (String.eqb _ _); [|done]. by apply with_status_well_formed.
Qed.

Lemma foldl_handle_well_formed events orders :
  Forall well_formed orders → Forall well_formed (foldl handle orders events).
Proof.
  revert orders. induction events as [|e events IH]; intros orders Hwf; [done|].
  simpl. apply IH. by apply handle_well_formed.
Qed.

Lemma same_order_refl o : same_order o o.
Proof. by repeat split. Qed.

Lemma same_order_trans o1 o2 o3 :
  same_order o1 o2 → same_order o2 o3 → same_order o1 o3.
Proof.
  unfold same_order. intros (-> & -> & -> & -> & -> & -> & ->) ?. done.
Qed.

Lemma kept_refl o : kept o o.
Proof. split; [apply same_order_refl|done]. Qed.

Lemma kept_trans o1 o2 o3 : kept o1 o2 → kept o2 o3 → kept o1 o3.
Proof.
  intros (Hs & Hp & Ht) (Hs' & Hp' & Ht'). split; [by eapply same_order_trans|].
  split; [auto|]. intros t Hne Hat. apply Ht'; auto.
Qed.

Lemma kept_with_status s o : s ≠ pending → kept o (with_status s o).
Proof. intros Hs. by repeat split. Qed.

Lemma kept_check_order newPrices now o : kept o (check_order newPrices now o).
Proof.
  split; [apply check_order_same|].
  destruct (check_order_status newPrices now o) as [->|(Hs & Hs' & Hat)]; [done|].
  split; by intros.
Qed.

Lemma handle_kept orders e i o :
  orders !! i = Some o → ∃ o', handle orders e !! i = Some o' ∧ kept o o'.
Proof.
  intros Hi.
  destruct e as [fetchPrice now|account trigger qty selectedPair sd orderType
                  submitted now1 now2|account order submitted
                 |account order submitted]; simpl.
  - unfold check_orders. rewrite list_lookup_fmap, Hi. simpl.
    eexists. split; [done|]. apply kept_check_order.
  - exists o. split; [|apply kept_refl].
    unfold createOrder. destruct account; [|done]. simpl.
    destruct (_ || _); [done|]. destruct (_ || _); [done|].
    destruct submitted; [|done]. by apply lookup_app_l_Some.
  - unfold cancelOrder. destruct account; [|by exists o; split; [|apply kept_refl]].
    destruct submitted; [|by exists o; split; [|apply kept_refl]].
    simpl. rewrite list_lookup_fmap, Hi. simpl.
    eexists. split; [done|].
    destruct (String.eqb _ _); [by apply kept_with_status | apply kept_refl].
  - unfold executeOrder. destruct account; [|by exists o; split; [|apply kept_refl]].
    destruct submitted; [|by exists o; split; [|apply kept_refl]].
    simpl. rewrite list_lookup_fmap, Hi. simpl.
    eexists. split; [done|].
    destruct (String.eqb _ _); [by apply kept_with_status | apply kept_refl].
Qed.

Lemma foldl_handle_kept events orders i o :
  orders !! i = Some o → ∃ o', foldl handle orders events !! i = Some o' ∧ kept o o'.
Proof.
  revert orders o. induction events as [|e events IH]; intros orders o Hi.
  { exists o. split; [done | apply kept_refl]. }
  simpl. destruct (handle_kept orders e i o Hi) as (o1 & Hi1 & Hk1).
  destruct (IH _ _ Hi1) as (o2 & Hi2 & Hk2).
  exists o2. split; [done|]. by eapply kept_trans.
Qed.

Lemma check_order_not_pending newPrices now o :
  status o ≠ pending → check_order newPrices now o = o.
Proof. intros Hs. unfold check_order. by destruct (status o). Qed.

Lemma check_order_fixed newPrices now now' o :
  check_order newPrices now o = o → check_order newPrices now' o = o.
Proof.
  unfold check_order.
  destruct (status o) eqn:Hs; try done.
  destruct (newPrices !! pair o) as [p|]; [|done].
  destruct (truthy p); [|done]. simpl.
  destruct (shouldTrigger o p); [|done].
  intros Heq. apply (f_equal status) in Heq. simpl in Heq. congruence.
Qed.

Lemma check_order_idempotent newPrices now now' o :
  check_order newPrices now' (check_order newPrices now o)
  = check_order newPrices now o.
Proof.
  destruct (check_order_status newPrices now o) as [Heq|(_ & Hs & _)].
  - rewrite Heq. by apply (check_order_fixed newPrices now).
  - apply check_order_not_pending. by rewrite Hs.
Qed.

Lemma positive_not_le x : positive x → (isNaN x || le x (of_Z 0)) = false.
Proof. intros [-> ->]. done. Qed.

(** X18. The log of the page holds the last twenty lines that were added,
    in the order they were added: [addLog] drops the oldest line when there
    are twenty. *)
Theorem X18_log_keeps_last_twenty :
  ∀ entries : list (string * string),
    let logs := foldl (λ logs e, addLog e.1 e.2 logs) [] entries in
    logs = slice_last 20 (map (λ e, log_line e.1 e.2) entries)
    ∧ (length logs ≤ 20)%nat.
Proof.
  intros entries logs.
  assert (logs = slice_last 20 (map (λ e, log_line e.1 e.2) entries)) as ->.
  { unfold logs. clear logs. induction entries as [|e entries IH] using rev_ind; [done|].
    rewrite foldl_app, map_app. simpl. rewrite IH. unfold addLog.
    apply slice_last_snoc. }
  split; [done|]. rewrite length_slice_last. lia.
Qed.

(** X19. Every order on the page, after whatever was clicked and fetched,
    has a trigger price and a quantity that are numbers above zero, has no
    trigger time while it is pending and has one when it is triggered. *)
Theorem X19_orders_are_well_formed :
  ∀ events : list Event, Forall well_formed (orders_after events).
Proof. intros events. by apply foldl_handle_well_formed. Qed.

(** X20. The list of orders only grows, and an order keeps its place.
    What the page does later changes neither the identifier, the pair, the
    side, the type, the trigger price, the quantity nor the creation time of
    an order; an order that has left the pending state does not return to
    it, and keeps the time at which it was triggered. *)
Theorem X20_orders_are_kept :
  ∀ (orders : list LimitOrder) (events : list Event) (i : nat) (o : LimitOrder),
    orders !! i = Some o →
    (length orders ≤ length (foldl handle orders events))%nat
    ∧ ∃ o', foldl handle orders events !! i = Some o'
          ∧ same_order o o'
          ∧ (status o ≠ pending → status o' ≠ pending)
          ∧ (∀ t, status o ≠ pending → triggeredAt o = Some t →
                  triggeredAt o' = Some t).
Proof.
  intros orders events i o Hi. split.
  - assert (∀ j, j < length orders → j < length (foldl handle orders events))%nat
      as Hlen.
    { intros j Hj. destruct (lookup_lt_is_Some_2 orders j Hj) as [oj Hoj].
      destruct (foldl_handle_kept events orders j oj Hoj) as (o' & Ho' & _).
      by eapply lookup_lt_Some. }
    destruct (length orders) as [|n]; [lia|]. specialize (Hlen n). lia.
  - destruct (foldl_handle_kept events orders i o Hi) as (o' & Ho' & Hs & Hp & Ht).
    by exists o'.
Qed.

(** An order is created, the price reaches it, it is executed. *)
Lemma X20_orders_are_kept_witness :
  ∃ o', foldl handle [sample_order buy]
          [Prices (λ _, Some (of_Z 4)) 2000;
           Execute true (sample_order buy) onSuccess] !! 0%nat = Some o'
        ∧ same_order (sample_order buy) o'.
Proof.
  destruct (X20_orders_are_kept [sample_order buy]
              [Prices (λ _, Some (of_Z 4)) 2000;
               Execute true (sample_order buy) onSuccess] 0 (sample_order buy))
    as (_ & o' & Ho' & Hs & _).
  - reflexivity.
  - exists o'. by split.
Defined.

(** X21. Fetching again at the same prices changes nothing: an order is
    triggered once, and the time of its trigger is that of the first check
    that found the price reached. *)
Theorem X21_second_check_changes_nothing :
  ∀ (fetchPrice : string → option number) (now now' : N)
    (orders : list LimitOrder),
    fetchAllPrices fetchPrice now' (fetchAllPrices fetchPrice now orders).2
    = fetchAllPrices fetchPrice now orders.
Proof.
  intros fetchPrice now now' orders. unfold fetchAllPrices. simpl. f_equal.
  unfold check_orders. rewrite map_map. apply map_ext. intros o.
  apply check_order_idempotent.
Qed.

(** X22. Without a price there is no trigger.  An order on a pair that is
    not one of the pools, or for which [fetchPrice] failed, or gave [0] or
    [NaN], is left as it is by [fetchAllPrices], whatever its trigger
    price. *)
Theorem X22_no_price_no_trigger :
  ∀ (fetchPrice : string → option number) (now : N)
    (orders : list LimitOrder) (i : nat) (o : LimitOrder),
    orders !! i = Some o →
    pair o ∉ POOLS_keys
    ∨ fetchPrice (pair o) = None
    ∨ (∃ p, fetchPrice (pair o) = Some p ∧ truthy p = false) →
    (fetchAllPrices fetchPrice now orders).2 !! i = Some o.
Proof.
  intros fetchPrice now orders i o Hi Hno. unfold fetchAllPrices, check_orders.
  simpl. rewrite list_lookup_fmap, Hi. simpl. f_equal.
  unfold check_order. destruct (status o); try done.
  rewrite newPrices_lookup.
  destruct Hno as [Hpair|[Hfail|(p & Hp & Hfalsy)]].
  - by rewrite bool_decide_eq_false_2.
  - rewrite Hfail. destruct (bool_decide _); [|done]. by rewrite truthy_zero.
  - rewrite Hp. destruct (bool_decide _); [|done]. by rewrite Hfalsy.
Qed.

(** The indexer is down: a buy limit at 5 stays pending. *)
Lemma X22_no_price_no_trigger_witness :
  (fetchAllPrices (λ _, None) 2000 [sample_order buy]).2 !! 0%nat
  = Some (sample_order buy).
Proof.
  apply (X22_no_price_no_trigger (λ _, None) 2000 [sample_order buy] 0
           (sample_order buy)).
  - reflexivity.
  - right. left. reflexivity.
Defined.

(** X23. The identifier of an order is the reading of the clock when it is
    created, and [cancelOrder] goes by the identifier: of two orders created
    in the same millisecond, cancelling the first cancels the second as
    well. *)
Theorem X23_same_millisecond_same_order :
  ∀ (trigger qty trigger' qty' : number) (selectedPair selectedPair' : string)
    (side side' : Side) (orderType orderType' : OrderType) (now now2 now2' : N),
    positive trigger → positive qty → positive trigger' → positive qty' →
    let orders :=
      createOrder true trigger' qty' selectedPair' side' orderType' onSuccess
        now now2'
        (createOrder true trigger qty selectedPair side orderType onSuccess
           now now2 []) in
    ∃ o1 o2,
      orders = [o1; o2]
      ∧ triggerPrice o1 = trigger ∧ triggerPrice o2 = trigger'
      ∧ cancelOrder true o1 onSuccess orders
        = [with_status cancelled o1; with_status cancelled o2].
Proof.
  intros trigger qty trigger' qty' selectedPair selectedPair' sd sd'
    orderType orderType' now now2 now2' Ht Hq Ht' Hq' orders.
  unfold orders, createOrder. cbn [negb].
  rewrite !positive_not_le by done. cbn [app].
  eexists _, _. split; [reflexivity|]. split; [done|]. split; [done|].
  unfold cancelOrder. cbn [negb map order_id].
  by rewrite !String.eqb_refl.
Qed.

(** A buy at 5 and a sell at 7 made at the same reading of the clock. *)
Lemma X23_same_millisecond_same_order_witness :
  ∃ o1 o2,
    createOrder true (of_Z 7) (of_Z 1) "SUI_USDC" sell limit onSuccess 1000 1001
      (createOrder true (of_Z 5) (of_Z 1) "SUI_USDC" buy limit onSuccess
         1000 1000 [])
    = [o1; o2]
    ∧ triggerPrice o1 = of_Z 5 ∧ triggerPrice o2 = of_Z 7
    ∧ cancelOrder true o1 onSuccess
        (createOrder true (of_Z 7) (of_Z 1) "SUI_USDC" sell limit onSuccess
           1000 1001
           (createOrder true (of_Z 5) (of_Z 1) "SUI_USDC" buy limit onSuccess
              1000 1000 []))
      = [with_status cancelled o1; with_status cancelled o2].
Proof.
  apply (X23_same_millisecond_same_order (of_Z 5) (of_Z 1) (of_Z 7) (of_Z 1)
           "SUI_USDC" "SUI_USDC" buy sell limit limit 1000 1000 1001);
    (split; [reflexivity | by rewrite le_of_Z]).
Defined.

End OrderPageFacts.
